(* Verification model of slafling (a command-line tool that sends text
   messages and files to Slack): configuration resolution (config.rs),
   the size parser and formatter (config.rs), the three-step file upload
   (slack.rs) and the send command (main.rs, run_send_with_resolved). *)

From stdpp Require Import base gmap strings list.
From Stdlib Require Import ZArith QArith Lia Lqa Bool.
From Stdlib Require Import QArith.Qabs QArith.Qpower.
From Stdlib Require Import String Ascii Strings.Byte.

Local Open Scope Z_scope.

(* ------------------------------------------------------------------ *)
(** * Bytes and Rust strings                                           *)
(* ------------------------------------------------------------------ *)

(** A Rust [String] is a byte vector holding UTF-8; it is modelled as a
    Stdlib [string], whose [ascii] characters are the 8-bit code units
    (bytes) of that UTF-8 encoding. *)
Module Bytes.

Definition bn (b : Byte.byte) : nat := Byte.to_nat b.

Definition in_range (lo hi n : nat) : bool := (lo <=? n)%nat && (n <=? hi)%nat.

(** [str::from_utf8] acceptance: well-formed UTF-8 (no overlong forms,
    no surrogates, nothing above U+10FFFF). *)
Fixpoint utf8_valid (l : list nat) : bool :=
  match l with
  | [] => true
  | a :: r =>
      if (a <? 128)%nat then utf8_valid r else
      match r with
      | [] => false
      | b :: r1 =>
          if in_range 194 223 a then in_range 128 191 b && utf8_valid r1 else
          match r1 with
          | [] => false
          | c :: r2 =>
              let c_ok := in_range 128 191 c in
              if (a =? 224)%nat then in_range 160 191 b && c_ok && utf8_valid r2
              else if in_range 225 236 a || in_range 238 239 a then
                in_range 128 191 b && c_ok && utf8_valid r2
              else if (a =? 237)%nat then in_range 128 159 b && c_ok && utf8_valid r2
              else
              match r2 with
              | [] => false
              | d :: r3 =>
                  let d_ok := in_range 128 191 d in
                  if (a =? 240)%nat then in_range 144 191 b && c_ok && d_ok && utf8_valid r3
                  else if in_range 241 243 a then
                    in_range 128 191 b && c_ok && d_ok && utf8_valid r3
                  else if (a =? 244)%nat then in_range 128 143 b && c_ok && d_ok && utf8_valid r3
                  else false
              end
          end
      end
  end.

(** [Read::read_to_string]: the bytes read, when they are valid UTF-8. *)
Definition read_to_string (bs : list Byte.byte) : option string :=
  if utf8_valid (map bn bs) then Some (string_of_list_byte bs) else None.

(** [char::is_whitespace] on one-byte characters: U+0009..U+000D, U+0020. *)
Definition ascii_ws (n : nat) : bool := in_range 9 13 n || (n =? 32)%nat.

(** Two-byte whitespace: U+0085 (C2 85), U+00A0 (C2 A0). *)
Definition ws2 (a b : nat) : bool := (a =? 194)%nat && ((b =? 133)%nat || (b =? 160)%nat).

(** Three-byte whitespace: U+1680 (E1 9A 80), U+2000..U+200A (E2 80 80..8A),
    U+2028 (E2 80 A8), U+2029 (E2 80 A9), U+202F (E2 80 AF),
    U+205F (E2 81 9F), U+3000 (E3 80 80). *)
Definition ws3 (a b c : nat) : bool :=
  ((a =? 225)%nat && (b =? 154)%nat && (c =? 128)%nat)
  || ((a =? 226)%nat && (b =? 128)%nat
      && (in_range 128 138 c || (c =? 168)%nat || (c =? 169)%nat || (c =? 175)%nat))
  || ((a =? 226)%nat && (b =? 129)%nat && (c =? 159)%nat)
  || ((a =? 227)%nat && (b =? 128)%nat && (c =? 128)%nat).

(** Drop leading whitespace characters of a UTF-8 byte list. *)
Fixpoint strip_ws_fwd (l : list Byte.byte) : list Byte.byte :=
  match l with
  | [] => []
  | x :: t =>
      if ascii_ws (bn x) then strip_ws_fwd t else
      match t with
      | [] => l
      | y :: t1 =>
          if ws2 (bn x) (bn y) then strip_ws_fwd t1 else
          match t1 with
          | [] => l
          | z :: t2 => if ws3 (bn x) (bn y) (bn z) then strip_ws_fwd t2 else l
          end
      end
  end.

(** Drop leading whitespace of a REVERSED UTF-8 byte list (that is,
    trailing whitespace of the original). *)
Fixpoint strip_ws_rev (l : list Byte.byte) : list Byte.byte :=
  match l with
  | [] => []
  | x :: t =>
      if ascii_ws (bn x) then strip_ws_rev t else
      match t with
      | [] => l
      | y :: t1 =>
          if ws2 (bn y) (bn x) then strip_ws_rev t1 else
          match t1 with
          | [] => l
          | z :: t2 => if ws3 (bn z) (bn y) (bn x) then strip_ws_rev t2 else l
          end
      end
  end.

(** [str::trim_end] *)
Definition trim_end (s : string) : string :=
  string_of_list_byte (rev (strip_ws_rev (rev (list_byte_of_string s)))).

(** [str::trim] *)
Definition trim (s : string) : string :=
  trim_end (string_of_list_byte (strip_ws_fwd (list_byte_of_string s))).

(** [char::is_ascii_alphabetic] *)
Definition is_ascii_alphabetic (b : Byte.byte) : bool :=
  in_range 65 90 (bn b) || in_range 97 122 (bn b).

(** [str::find(|c| c.is_ascii_alphabetic())]: byte index of the first
    ASCII letter (an ASCII letter is a one-byte character). *)
Fixpoint find_alpha (l : list Byte.byte) : option nat :=
  match l with
  | [] => None
  | x :: t => if is_ascii_alphabetic x then Some 0%nat
              else option_map S (find_alpha t)
  end.

(** [u8::to_ascii_uppercase] and [str::to_ascii_uppercase] *)
Definition upper_byte (b : Byte.byte) : Byte.byte :=
  if in_range 97 122 (bn b) then
    match Byte.of_nat (bn b - 32) with Some c => c | None => b end
  else b.

Definition to_ascii_uppercase (s : string) : string :=
  string_of_list_byte (map upper_byte (list_byte_of_string s)).

End Bytes.

(* ------------------------------------------------------------------ *)
(** * Errors and results                                               *)
(* ------------------------------------------------------------------ *)

(** One constructor per [bail!] / [.context(..)] site the send command can
    end in; [anyhow::Error] values are only ever propagated, never
    inspected, so the site is all that matters. *)
Inductive Error :=
  (* config.rs: parse_file_size *)
  | InvalidSizeNumber (s : string)
  | UnknownSizeUnit (unit : string)
  (* config.rs: resolve_token and the two token backends *)
  | InvalidTokenStore (store : string)
  | StoreFailed (msg : string)
  | TokenNotConfigured
  (* config.rs: resolve *)
  | ProfileNotFound (name : string)
  | ChannelNotConfigured
  (* main.rs: run_send_with_resolved, input resolution *)
  | NoInputProvided
  | AmbiguousStdin
  | FileStdinIsTerminal
  | TextStdinIsTerminal
  | StdinReadFailed
  | FileReadFailed (path : string)
  | InvalidFilePath
  (* main.rs: confirmation *)
  | ConfirmStdinNotTty
  | IoFailed
  | Aborted
  (* main.rs: dispatch *)
  | FileTooLarge (actual limit : string)
  | MessageEmpty
  (* slack.rs: post_message *)
  | PostCallFailed
  | PostParseFailed
  | PostApiError (code : string)
  (* slack.rs: get_upload_url (step 1) *)
  | GetUrlCallFailed
  | GetUrlParseFailed
  | GetUrlApiError (code : string)
  | MissingUploadUrl
  | MissingFileId
  (* slack.rs: upload_file_content (step 2) *)
  | UploadContentFailed
  (* slack.rs: complete_upload (step 3) *)
  | CompleteCallFailed
  | CompleteParseFailed
  | CompleteApiError (code : string).

(** [anyhow::Result<A>] *)
Inductive result (A : Type) := Ok (a : A) | Err (e : Error).
Arguments Ok {A} a.
Arguments Err {A} e.

Definition rbind {A B} (r : result A) (f : A -> result B) : result B :=
  match r with Ok a => f a | Err e => Err e end.

Notation "x <-? r ;; k" := (rbind r (fun x => k))
  (at level 100, r at next level, right associativity).

(* ------------------------------------------------------------------ *)
(** * Sizes: parse_file_size and format_size (config.rs)               *)
(* ------------------------------------------------------------------ *)

(** Binary64 values are modelled exactly: a value is
    [(-1)^f_neg * f_mant * 2^f_exp] and the rounding of a rational to
    the nearest double (53-bit significand, ties to even) is written out.
    Overflow to infinity and subnormals are not represented: the only
    double results used are fed to the saturating cast [as u64], which
    gives the same integer for an infinity as for a finite value above
    2^64, and 0 for any value below 1. *)
Module Size.

Definition KB : Z := 1024.
Definition MB : Z := 1048576.
Definition GB : Z := 1073741824.
Definition DEFAULT_MAX_FILE_SIZE : Z := 100 * MB.
Definition U64_MAX : Z := 2 ^ 64 - 1.

(** Round [n / d] (d > 0) to the nearest integer, ties to even. *)
Definition rne (n d : Z) : Z :=
  let q := n / d in
  let r := n mod d in
  if 2 * r <? d then q
  else if d <? 2 * r then q + 1
  else if Z.even q then q else q + 1.

(** The fraction [n / d * 2^k] as a pair of integers. *)
Definition scale (n d k : Z) : Z * Z :=
  if 0 <=? k then (n * 2 ^ k, d) else (n, d * 2 ^ (- k)).

(** [floor (log2 (n / d))] for [n, d > 0]. *)
Definition flog2 (n d : Z) : Z :=
  let e := Z.log2 n - Z.log2 d in
  let '(a, b) := scale n d (- e) in
  if a <? b then e - 1 else e.

Record f64 := mkf64 { f_neg : bool; f_mant : Z; f_exp : Z }.

(** The double nearest to [(-1)^neg * n / d] ([n >= 0], [d > 0]). *)
Definition f64_of_frac (neg : bool) (n d : Z) : f64 :=
  if n =? 0 then mkf64 neg 0 0 else
  let e := flog2 n d - 52 in
  let '(a, b) := scale n d (- e) in
  mkf64 neg (rne a b) e.

(** The rational number a double denotes. *)
Definition pow2 (e : Z) : Q := Qpower (inject_Z 2) e.
Definition f64_val (x : f64) : Q :=
  ((if f_neg x then -1 else 1) * inject_Z (f_mant x) * pow2 (f_exp x))%Q.

(** [u64 as f64] *)
Definition f64_of_u64 (n : Z) : f64 := f64_of_frac false n 1.

(** Multiplication or division by a power of two (exact). *)
Definition mul_pow2 (x : f64) (k : Z) : f64 := mkf64 (f_neg x) (f_mant x) (f_exp x + k).

(** [f64 as u64]: truncation toward zero, saturating at 0 and [u64::MAX]. *)
Definition f64_to_u64 (x : f64) : Z :=
  if f_neg x then 0 else
  let v := if 0 <=? f_exp x then f_mant x * 2 ^ f_exp x
           else f_mant x / 2 ^ (- f_exp x) in
  Z.min v U64_MAX.

Definition digit_val (b : Byte.byte) : option Z :=
  if Bytes.in_range 48 57 (Bytes.bn b) then Some (Z.of_nat (Bytes.bn b) - 48) else None.

(** Consume a run of decimal digits, accumulating its value and length. *)
Fixpoint take_digits (l : list Byte.byte) (acc : Z) (k : nat)
  : Z * nat * list Byte.byte :=
  match l with
  | [] => (acc, k, [])
  | x :: t =>
      match digit_val x with
      | Some v => take_digits t (acc * 10 + v) (S k)
      | None => (acc, k, l)
      end
  end.

(** [str::parse::<f64>] on strings without ASCII letters (the only
    strings [parse_file_size] hands it: its number part ends before the
    first letter), so the exponent, [inf] and [nan] forms never arise:
    [[+-]? digits* (. digits* )?] with at least one digit. *)
Definition parse_f64 (s : string) : option f64 :=
  let l := list_byte_of_string s in
  let '(neg, l1) :=
    match l with
    | x :: t => if (Bytes.bn x =? 43)%nat then (false, t)
                else if (Bytes.bn x =? 45)%nat then (true, t) else (false, l)
    | [] => (false, l)
    end in
  let '(ip, ni, l2) := take_digits l1 0 0%nat in
  match l2 with
  | [] => if (ni =? 0)%nat then None else Some (f64_of_frac neg ip 1)
  | x :: l3 =>
      if (Bytes.bn x =? 46)%nat then
        let '(fp, nf, l4) := take_digits l3 ip 0%nat in
        match l4 with
        | [] => if (ni + nf =? 0)%nat then None
                else Some (f64_of_frac neg fp (10 ^ Z.of_nat nf))
        | _ => None
        end
      else None
  end.

(** The unit table of [parse_file_size], as the exponent of its
    power-of-two multiplier. *)
Definition unit_shift (unit : string) : option Z :=
  if String.eqb unit "" || String.eqb unit "B" then Some 0
  else if String.eqb unit "KB" || String.eqb unit "K" then Some 10
  else if String.eqb unit "MB" || String.eqb unit "M" then Some 20
  else if String.eqb unit "GB" || String.eqb unit "G" then Some 30
  else None.

Definition parse_file_size (s0 : string) : result Z :=
  let s := Bytes.trim s0 in
  let l := list_byte_of_string s in
  let '(num_part, unit) :=
    match Bytes.find_alpha l with
    | Some i => (Bytes.trim (string_of_list_byte (firstn i l)),
                 Bytes.to_ascii_uppercase (Bytes.trim (string_of_list_byte (skipn i l))))
    | None => (s, EmptyString)
    end in
  match parse_f64 num_part with
  | None => Err (InvalidSizeNumber s)
  | Some num =>
      match unit_shift unit with
      | None => Err (UnknownSizeUnit unit)
      | Some k => Ok (f64_to_u64 (mul_pow2 num k))
      end
  end.

Definition digit_byte (d : Z) : Byte.byte :=
  match Byte.of_nat (48 + Z.to_nat d) with Some b => b | None => "0"%byte end.

Fixpoint dec_digits (fuel : nat) (n : Z) (acc : list Byte.byte) : list Byte.byte :=
  match fuel with
  | O => acc
  | S f =>
      let acc' := digit_byte (n mod 10) :: acc in
      if n <? 10 then acc' else dec_digits f (n / 10) acc'
  end.

(** [format!("{n}")] for [n >= 0]; a number has at most as many decimal
    digits as bits. *)
Definition dec_string (n : Z) : string :=
  string_of_list_byte (dec_digits (S (Z.to_nat (Z.log2 n))) n []).

(** The nearest integer to [10 * x] (ties to even), for [x >= 0]: the
    digits [format!("{:.1}", x)] prints. *)
Definition round_tenths (x : f64) : Z :=
  let '(a, b) := scale (10 * f_mant x) 1 (f_exp x) in rne a b.

(** [format!("{:.1}{unit}", bytes as f64 / 2^k as f64)] *)
Definition fmt_tenths (bytes k : Z) (unit : string) : string :=
  let t := round_tenths (mul_pow2 (f64_of_u64 bytes) (- k)) in
  (dec_string (t / 10) ++ "." ++ string_of_list_byte [digit_byte (t mod 10)] ++ unit)%string.

Definition format_size (bytes : Z) : string :=
  if GB <=? bytes then fmt_tenths bytes 30 "GB"
  else if MB <=? bytes then fmt_tenths bytes 20 "MB"
  else if KB <=? bytes then fmt_tenths bytes 10 "KB"
  else (dec_string bytes ++ "B")%string.

(** The unit [format_size] displays a byte count in. *)
Definition unit_bytes (bytes : Z) : Z :=
  if GB <=? bytes then GB
  else if MB <=? bytes then MB
  else if KB <=? bytes then KB
  else 1.

End Size.

(* ------------------------------------------------------------------ *)
(** * Configuration resolution (config.rs)                             *)
(* ------------------------------------------------------------------ *)

Module Config.

Record DefaultConfig := mkDefaultConfig {
  d_channel : option string;
  d_max_file_size : option string;
  d_confirm : option bool;
  d_output : option string;
  d_search_types : option (list string);
  d_token_store : option string
}.

Record Profile := mkProfile {
  p_channel : option string;
  p_max_file_size : option string;
  p_confirm : option bool;
  p_output : option string;
  p_search_types : option (list string)
}.

(** [HashMap<String, Profile>] as a finite map. *)
Record ConfigFile := mkConfigFile {
  default : DefaultConfig;
  profiles : gmap string Profile
}.

Record ResolvedConfig := mkResolvedConfig {
  token : string;
  channel : string;
  max_file_size : Z;
  confirm : bool
}.

(** [std::env::var]: [Some v] when the variable is set to valid Unicode. *)
Definition Env := string -> option string.

(** The two token backends [keychain::get_token] and [token::get_token]:
    [Ok None] when no token is stored, [Err _] on a backend failure. *)
Record TokenBackends := mkTokenBackends {
  keychain_get_token : option string -> result (option string);
  file_get_token : option string -> result (option string)
}.

(** [str::to_lowercase] on the ASCII range. Other characters are kept
    as they are, while Rust's Unicode lowering maps a few of them into
    ASCII (U+212A KELVIN SIGN becomes [k]); spellings of the
    configuration words that rely on this are outside the model. *)
Definition lower_byte (b : Byte.byte) : Byte.byte :=
  if Bytes.in_range 65 90 (Bytes.bn b) then
    match Byte.of_nat (Bytes.bn b + 32) with Some c => c | None => b end
  else b.

Definition to_lowercase (s : string) : string :=
  string_of_list_byte (map lower_byte (list_byte_of_string s)).

(** [default_token_store]: ["keychain"] on macOS, ["file"] elsewhere. *)
Definition default_token_store (is_macos : bool) : string :=
  if is_macos then "keychain" else "file".

Definition resolve_token_store (is_macos : bool) (config : ConfigFile) : string :=
  to_lowercase (match d_token_store (default config) with
                | Some s => s
                | None => default_token_store is_macos
                end).

(** The token backend named by [token_store]. *)
Definition from_backend (backends : TokenBackends) (token_store : string)
    (profile_name : option string) : result string :=
  if String.eqb token_store "keychain" then
    o <-? keychain_get_token backends profile_name ;;
    match o with Some t => Ok t | None => Err TokenNotConfigured end
  else if String.eqb token_store "file" then
    o <-? file_get_token backends profile_name ;;
    match o with Some t => Ok t | None => Err TokenNotConfigured end
  else Err (InvalidTokenStore token_store).

(** [resolve_token]: 1) SLAFLING_TOKEN, 2) the token_store backend. *)
Definition resolve_token (env : Env) (backends : TokenBackends)
    (token_store : string) (profile_name : option string) : result string :=
  match env "SLAFLING_TOKEN" with
  | Some t => if negb (String.eqb t "") then Ok t
              else from_backend backends token_store profile_name
  | None => from_backend backends token_store profile_name
  end.

(** The layered part of [resolve]: the default section, overwritten by the
    fields the named profile sets (channel, max_file_size, confirm). *)
Definition layer (config : ConfigFile) (profile_name : option string)
    : result (option string * option string * bool) :=
  let channel := d_channel (default config) in
  let max_file_size_str := d_max_file_size (default config) in
  let confirm := match d_confirm (default config) with Some c => c | None => false end in
  match profile_name with
  | None => Ok (channel, max_file_size_str, confirm)
  | Some name =>
      match profiles config !! name with
      | None => Err (ProfileNotFound name)
      | Some profile =>
          Ok (match p_channel profile with Some c => Some c | None => channel end,
              match p_max_file_size profile with
              | Some _ => p_max_file_size profile
              | None => max_file_size_str
              end,
              match p_confirm profile with Some c => c | None => confirm end)
      end
  end.

(** [resolve] (the non-headless path of the send command). *)
Definition resolve (is_macos : bool) (env : Env) (backends : TokenBackends)
    (config : ConfigFile) (profile_name : option string) : result ResolvedConfig :=
  let token_store := resolve_token_store is_macos config in
  token <-? resolve_token env backends token_store profile_name ;;
  fields <-? layer config profile_name ;;
  let '(channel_opt, max_file_size_str, confirm) := fields in
  channel <-? (match channel_opt with
               | Some c => if negb (String.eqb c "") then Ok c else Err ChannelNotConfigured
               | None => Err ChannelNotConfigured
               end) ;;
  max_file_size <-? (match max_file_size_str with
                     | Some s => Size.parse_file_size s
                     | None => Ok Size.DEFAULT_MAX_FILE_SIZE
                     end) ;;
  Ok (mkResolvedConfig token channel max_file_size confirm).

End Config.

(* ------------------------------------------------------------------ *)
(** * Slack Web API calls (slack.rs)                                   *)
(* ------------------------------------------------------------------ *)

Module Slack.

(** Every HTTP request the program sends, in the order sent. *)
Inductive Event :=
  | EvPostMessage (token channel text : string)
  | EvGetUploadUrl (token filename : string) (length : Z)
  | EvUploadContent (upload_url : string) (data : list Byte.byte)
  | EvCompleteUpload (token file_id title channel : string)
                     (initial_comment : option string).

(** What a call to chat.postMessage can give back: a transport failure,
    a body that is not JSON, or a JSON body ([ok_true] when its "ok"
    member is the boolean true). *)
Inductive PostResp :=
  | PostSendFail
  | PostBadJson
  | PostJson (ok_true : bool) (error : option string).

Record GetUploadUrlResponse := mkGetUploadUrlResponse {
  gu_ok : bool;
  gu_error : option string;
  gu_upload_url : option string;
  gu_file_id : option string
}.

Inductive GetUrlResp :=
  | GetUrlSendFail
  | GetUrlBadJson
  | GetUrlBody (body : GetUploadUrlResponse).

Inductive CompleteResp :=
  | CompleteSendFail
  | CompleteBadJson
  | CompleteBody (ok : bool) (error : option string).

(** The remote service: the answer to each request. The raw transfer
    answers whether the POST succeeded. *)
Record Net := mkNet {
  post_message_api : string -> string -> string -> PostResp;
  get_upload_url_api : string -> string -> Z -> GetUrlResp;
  upload_api : string -> list Byte.byte -> bool;
  complete_upload_api : string -> string -> string -> string -> option string -> CompleteResp
}.

(** Computations that send requests and may fail: the requests sent so
    far and the outcome. *)
Definition M (A : Type) : Type := (list Event * result A)%type.

Definition ret {A} (a : A) : M A := ([], Ok a).
Definition fail {A} (e : Error) : M A := ([], Err e).
Definition lift {A} (r : result A) : M A := ([], r).
Definition call {A} (ev : Event) (resp : A) : M A := ([ev], Ok resp).

Definition bind {A B} (m : M A) (f : A -> M B) : M B :=
  match m with
  | (tr, Ok a) => let '(tr', r) := f a in (tr ++ tr', r)
  | (tr, Err e) => (tr, Err e)
  end.

Notation "x <- m ;; k" := (bind m (fun x => k))
  (at level 100, m at next level, right associativity).

Definition unwrap_or_unknown (o : option string) : string :=
  match o with Some s => s | None => "unknown error" end.

Definition post_message (net : Net) (token channel text : string) : M unit :=
  resp <- call (EvPostMessage token channel text) (post_message_api net token channel text) ;;
  match resp with
  | PostSendFail => fail PostCallFailed
  | PostBadJson => fail PostParseFailed
  | PostJson ok_true error =>
      if negb ok_true then fail (PostApiError (unwrap_or_unknown error)) else ret tt
  end.

(** Step 1: files.getUploadURLExternal. *)
Definition get_upload_url (net : Net) (token filename : string) (length : Z)
    : M (string * string) :=
  resp <- call (EvGetUploadUrl token filename length)
               (get_upload_url_api net token filename length) ;;
  match resp with
  | GetUrlSendFail => fail GetUrlCallFailed
  | GetUrlBadJson => fail GetUrlParseFailed
  | GetUrlBody body =>
      if negb (gu_ok body) then fail (GetUrlApiError (unwrap_or_unknown (gu_error body)))
      else match gu_upload_url body with
           | None => fail MissingUploadUrl
           | Some upload_url =>
               match gu_file_id body with
               | None => fail MissingFileId
               | Some file_id => ret (upload_url, file_id)
               end
           end
  end.

(** Step 2: the raw bytes to the upload URL. *)
Definition upload_file_content (net : Net) (upload_url : string)
    (data : list Byte.byte) : M unit :=
  ok <- call (EvUploadContent upload_url data) (upload_api net upload_url data) ;;
  if ok then ret tt else fail UploadContentFailed.

(** Step 3: files.completeUploadExternal. *)
Definition complete_upload (net : Net) (token file_id title channel : string)
    (initial_comment : option string) : M unit :=
  resp <- call (EvCompleteUpload token file_id title channel initial_comment)
               (complete_upload_api net token file_id title channel initial_comment) ;;
  match resp with
  | CompleteSendFail => fail CompleteCallFailed
  | CompleteBadJson => fail CompleteParseFailed
  | CompleteBody ok error =>
      if negb ok then fail (CompleteApiError (unwrap_or_unknown error)) else ret tt
  end.

Definition upload_file_bytes (net : Net) (token channel filename : string)
    (data : list Byte.byte) (initial_comment : option string) : M unit :=
  slot <- get_upload_url net token filename (Z.of_nat (List.length data)) ;;
  let '(upload_url, file_id) := slot in
  _ <- upload_file_content net upload_url data ;;
  complete_upload net token file_id filename channel initial_comment.

(** The upload step an error comes from (1 acquire, 2 transfer, 3 finalize). *)
Definition upload_step (e : Error) : option nat :=
  match e with
  | GetUrlCallFailed | GetUrlParseFailed | GetUrlApiError _
  | MissingUploadUrl | MissingFileId => Some 1%nat
  | UploadContentFailed => Some 2%nat
  | CompleteCallFailed | CompleteParseFailed | CompleteApiError _ => Some 3%nat
  | _ => None
  end.

End Slack.

(* ------------------------------------------------------------------ *)
(** * The send command (main.rs)                                       *)
(* ------------------------------------------------------------------ *)

Module Main.
Import Slack.

(** [cli::SendArgs]. clap turns a bare [-t] / [-f] into [Some ""]
    ([default_missing_value = ""]). *)
Record SendArgs := mkSendArgs {
  text : option string;
  file : option string;
  filename : string;
  yes : bool
}.

(** What the process sees besides the network: whether stdin is a
    terminal, what it holds and whether reading it succeeds at all (a
    read can fail with an I/O error, e.g. EISDIR when stdin is redirected
    from a directory), the file system ([std::fs::read] by path), and
    whether flushing stderr succeeds. *)
Record World := mkWorld {
  stdin_is_terminal : bool;
  stdin_bytes : list Byte.byte;
  stdin_read_ok : bool;
  read_file : string -> option (list Byte.byte);
  stderr_flush_ok : bool
}.

Definition is_newline (b : Byte.byte) : bool := (Bytes.bn b =? 10)%nat.

Fixpoint first_line (l : list Byte.byte) : list Byte.byte :=
  match l with
  | [] => []
  | x :: t => if is_newline x then [x] else x :: first_line t
  end.

(** [BufRead::read_line]: the bytes up to and including the first
    newline, which must be UTF-8. *)
Definition read_line (bs : list Byte.byte) : option string :=
  Bytes.read_to_string (first_line bs).

Fixpoint split_slash (l : list Byte.byte) (cur : list Byte.byte)
  : list (list Byte.byte) :=
  match l with
  | [] => [rev cur]
  | x :: t => if (Bytes.bn x =? 47)%nat then rev cur :: split_slash t []
              else split_slash t (x :: cur)
  end.

Definition is_dot (seg : list Byte.byte) : bool :=
  match seg with [x] => (Bytes.bn x =? 46)%nat | _ => false end.

Definition is_dotdot (seg : list Byte.byte) : bool :=
  match seg with [x; y] => (Bytes.bn x =? 46)%nat && (Bytes.bn y =? 46)%nat | _ => false end.

(** [Path::file_name] on Unix: the last component when it is a normal
    one. Empty segments (repeated or trailing [/]) and [.] segments are
    not components of their own; a path ending in [..], the root and
    [.] have no file name. *)
Definition file_name (path : string) : option string :=
  let segs := filter (fun seg => negb (is_dot seg) && negb (bool_decide (seg = [])))
                     (split_slash (list_byte_of_string path) []) in
  match last segs with
  | None => None
  | Some seg => if is_dotdot seg then None else Some (string_of_list_byte seg)
  end.

Definition is_empty_arg (o : option string) : bool :=
  match o with Some s => String.eqb s "" | None => false end.

(** [read_to_end] on stdin: its bytes, or the I/O error. *)
Definition stdin_read_all (w : World) : result (list Byte.byte) :=
  if stdin_read_ok w then Ok (stdin_bytes w) else Err StdinReadFailed.

(** [read_to_string] on stdin, trailing whitespace then removed: it fails
    on an I/O error and on bytes that are not UTF-8. *)
Definition stdin_text (w : World) : result string :=
  bytes <-? stdin_read_all w ;;
  match Bytes.read_to_string bytes with
  | Some buf => Ok (Bytes.trim_end buf)
  | None => Err StdinReadFailed
  end.

(** [read_line] on stdin: fails on an I/O error or a line that is not
    UTF-8. *)
Definition stdin_line (w : World) : option string :=
  if stdin_read_ok w then read_line (stdin_bytes w) else None.

(** Lines 405-469 of [run_send_with_resolved]: the [(text, file)] pair. *)
Definition resolve_inputs (w : World) (send : SendArgs)
    : result (option string * option (string * list Byte.byte)) :=
  let text_needs_stdin := is_empty_arg (text send) in
  let file_needs_stdin := is_empty_arg (file send) in
  match text send, file send with
  | None, None =>
      if stdin_is_terminal w then Err NoInputProvided else
      buf <-? stdin_text w ;;
      Ok (Some buf, None)
  | _, _ =>
      if text_needs_stdin && file_needs_stdin then Err AmbiguousStdin else
      file_data <-?
        (match file send with
         | Some path =>
             if String.eqb path "" then
               if stdin_is_terminal w then Err FileStdinIsTerminal
               else buf <-? stdin_read_all w ;; Ok (Some (filename send, buf))
             else
               match read_file w path with
               | None => Err (FileReadFailed path)
               | Some data =>
                   match file_name path with
                   | None => Err InvalidFilePath
                   | Some name => Ok (Some (name, data))
                   end
               end
         | None => Ok None
         end) ;;
      txt <-?
        (match text send with
         | Some t =>
             if String.eqb t "" then
               if stdin_is_terminal w then Err TextStdinIsTerminal
               else buf <-? stdin_text w ;; Ok (Some buf)
             else Ok (Some t)
         | None => Ok None
         end) ;;
      Ok (txt, file_data)
  end.

(** Lines 471-495: the confirmation prompt (the preview it prints is
    output only and is left out). *)
Definition confirm_gate (w : World) (send : SendArgs)
    (resolved : Config.ResolvedConfig) : result unit :=
  if Config.confirm resolved && negb (yes send) then
    if negb (stdin_is_terminal w) then Err ConfirmStdinNotTty
    else if negb (stderr_flush_ok w) then Err IoFailed
    else match stdin_line w with
         | None => Err IoFailed
         | Some input =>
             let t := Bytes.trim input in
             if String.eqb t "y" || String.eqb t "Y" then Ok tt else Err Aborted
         end
  else Ok tt.

(** Lines 507-511: "for file upload, empty text means no comment". *)
Definition upload_comment (txt : option string) : option string :=
  match txt with
  | None => None
  | Some t => if String.eqb t "" then None else Some t
  end.

Definition run_send_with_resolved (w : World) (net : Net) (send : SendArgs)
    (resolved : Config.ResolvedConfig) : M unit :=
  inputs <- lift (resolve_inputs w send) ;;
  let '(txt, file_data) := inputs in
  _ <- lift (confirm_gate w send resolved) ;;
  match file_data with
  | Some (fname, data) =>
      let len := Z.of_nat (List.length data) in
      if Config.max_file_size resolved <? len then
        fail (FileTooLarge (Size.format_size len)
                           (Size.format_size (Config.max_file_size resolved)))
      else upload_file_bytes net (Config.token resolved) (Config.channel resolved)
                             fname data (upload_comment txt)
  | None =>
      let message := match txt with Some t => t | None => EmptyString end in
      if String.eqb message "" then fail MessageEmpty
      else post_message net (Config.token resolved) (Config.channel resolved) message
  end.

(** [run_send]: the non-headless send command. *)
Definition run_send (is_macos : bool) (env : Config.Env)
    (backends : Config.TokenBackends) (w : World) (net : Net)
    (profile : option string) (send : SendArgs) (cfg : Config.ConfigFile) : M unit :=
  resolved <- lift (Config.resolve is_macos env backends cfg profile) ;;
  run_send_with_resolved w net send resolved.

End Main.

(* ------------------------------------------------------------------ *)
(** * Layer precedence and concrete inputs used by the statements       *)
(* ------------------------------------------------------------------ *)

Module Fixtures.
Import Config Slack Main.

(** The value of the highest-priority layer that sets a field. *)
Definition pick {A} (hi lo : option A) : option A :=
  match hi with Some x => Some x | None => lo end.

Definition env_of (vars : list (string * string)) : Env :=
  fun k => match List.find (fun kv => String.eqb (fst kv) k) vars with
           | Some kv => Some (snd kv)
           | None => None
           end.

Definition no_tokens : TokenBackends :=
  mkTokenBackends (fun _ => Ok None) (fun _ => Ok None).

Definition stored_tokens : TokenBackends :=
  mkTokenBackends (fun _ => Ok (Some "xoxb-keychain"%string))
                  (fun _ => Ok (Some "xoxb-file"%string)).

Definition cfg_general : ConfigFile :=
  mkConfigFile (mkDefaultConfig (Some "#general"%string) (Some "10MB"%string) None None None
                                (Some "file"%string))
               {[ "ops"%string := mkProfile (Some "#ops"%string) None (Some true) None None ]}.

Definition slot_body : GetUploadUrlResponse :=
  mkGetUploadUrlResponse true None (Some "https://files.example/upload/1"%string)
                         (Some "F001"%string).

(** A service that accepts every request. *)
Definition net_ok : Net :=
  mkNet (fun _ _ _ => PostJson true None)
        (fun _ _ _ => GetUrlBody slot_body)
        (fun _ _ => true)
        (fun _ _ _ _ _ => CompleteBody true None).

(** A service that refuses the upload slot. *)
Definition net_no_slot : Net :=
  mkNet (fun _ _ _ => PostJson true None)
        (fun _ _ _ => GetUrlBody (mkGetUploadUrlResponse false (Some "invalid_auth"%string)
                                                         None None))
        (fun _ _ => true)
        (fun _ _ _ _ _ => CompleteBody true None).

Definition newline : list Byte.byte := ["010"%byte].

(** A file system holding [report.txt] (two bytes) only. *)
Definition fs_report : string -> option (list Byte.byte) :=
  fun path => if String.eqb path "logs/report.txt" then Some ["a"%byte; "b"%byte] else None.

Definition reply_yes : list Byte.byte := ["y"%byte; "010"%byte].
Definition reply_no : list Byte.byte := ["n"%byte; "010"%byte].

Definition settings (confirm : bool) (limit : Z) : ResolvedConfig :=
  mkResolvedConfig "xoxb-1" "C123" limit confirm.

End Fixtures.

(* ------------------------------------------------------------------ *)
(** * Channel types and output formats of the command line (cli.rs)    *)
(* ------------------------------------------------------------------ *)

Module Cli.

Inductive SearchType := PublicChannel | PrivateChannel | Im | Mpim.

Definition as_api_str (t : SearchType) : string :=
  match t with
  | PublicChannel => "public_channel"
  | PrivateChannel => "private_channel"
  | Im => "im"
  | Mpim => "mpim"
  end.

(** [<[&str]>::join(sep)] *)
Fixpoint join (sep : string) (l : list string) : string :=
  match l with
  | [] => ""
  | [x] => x
  | x :: t => (x ++ sep ++ join sep t)%string
  end.

Definition search_types_to_api_string (types : list SearchType) : string :=
  join "," (map as_api_str types).

Inductive OutputFormat := Table | Tsv | Json.

End Cli.

(* ------------------------------------------------------------------ *)
(** * The token file store (token.rs)                                  *)
(* ------------------------------------------------------------------ *)

Module TokenFile.

Definition is_slash (b : Byte.byte) : bool := (Bytes.bn b =? 47)%nat.

(** [Path::join] on Unix ([PathBuf::push]): an absolute [name] replaces
    the path; otherwise a separator is put in between unless [dir] is
    empty or already ends in one. *)
Definition join (dir name : string) : string :=
  if match list_byte_of_string name with x :: _ => is_slash x | [] => false end
  then name
  else match last (list_byte_of_string dir) with
       | None => name
       | Some b => if is_slash b then (dir ++ name)%string else (dir ++ "/" ++ name)%string
       end.

(** [Option<&str>::unwrap_or] *)
Definition unwrap_or (o : option string) (d : string) : string :=
  match o with Some s => s | None => d end.

(** [str::contains] of an ASCII character: a byte search, since in UTF-8
    an ASCII byte only ever stands for that character. *)
Definition has_byte (n : nat) (l : list Byte.byte) : bool :=
  existsb (fun x => (Bytes.bn x =? n)%nat) l.

(** [str::contains("..")] *)
Fixpoint has_dotdot (l : list Byte.byte) : bool :=
  match l with
  | x :: ((y :: _) as t) =>
      ((Bytes.bn x =? 46)%nat && (Bytes.bn y =? 46)%nat) || has_dotdot t
  | _ => false
  end.

(** [token_dir]: [dirs::data_dir()] joined with [slafling/tokens]. *)
Definition token_dir (data_dir : option string) : result string :=
  match data_dir with
  | None => Err (StoreFailed "could not determine data directory")
  | Some d => Ok (join (join d "slafling") "tokens")
  end.

Definition validate_profile_name (name : string) : result unit :=
  let l := list_byte_of_string name in
  if String.eqb name "" || has_byte 47 l || has_byte 92 l || has_dotdot l || has_byte 0 l
  then Err (StoreFailed ("invalid profile name '" ++ name
                          ++ "' (must not be empty or contain /, \, .., or null)"))
  else Ok tt.

Definition profile_path (dir : string) (profile : option string) : result string :=
  let filename := unwrap_or profile "default" in
  _ <-? validate_profile_name filename ;;
  Ok (join dir filename).

Definition token_path (data_dir : option string) (profile : option string) : result string :=
  dir <-? token_dir data_dir ;;
  profile_path dir profile.

(** The file system: the regular files by path (directories are
    implicit and created as needed) with their bytes and permission
    bits, and the paths on which every operation fails with an I/O error
    other than [NotFound] (permission denied, a directory in the way, ...).
    A path on which only some operations fail (a file in a read-only
    directory: it exists, but removing it fails) has no counterpart here. *)
Record FileEntry := mkFileEntry { fe_content : list Byte.byte; fe_mode : Z }.

Record Fs := mkFs {
  files : gmap string FileEntry;
  fs_fails : string -> bool
}.

(** [Path::exists]: [false] also when the metadata cannot be read. *)
Definition path_exists (fs : Fs) (path : string) : bool :=
  negb (fs_fails fs path) && bool_decide (is_Some (files fs !! path)).

Definition read_token (fs : Fs) (path : string) : result (option string) :=
  if fs_fails fs path then Err (StoreFailed ("failed to read token file " ++ path))
  else match files fs !! path with
       | None => Ok None
       | Some e =>
           match Bytes.read_to_string (fe_content e) with
           | None => Err (StoreFailed ("failed to read token file " ++ path))
           | Some content =>
               let token := Bytes.trim content in
               if String.eqb token "" then Ok None else Ok (Some token)
           end
       end.

(** [write_token] on Unix: the file is created or truncated, gets the
    token's bytes, and its permissions are set to 0o600 (384) whether
    it existed before or not. *)
Definition write_token (fs : Fs) (path token : string) : result Fs :=
  if fs_fails fs path then Err (StoreFailed ("failed to create token file " ++ path))
  else Ok (mkFs (<[path := mkFileEntry (list_byte_of_string token) 384]> (files fs))
                (fs_fails fs)).

(** [remove_token]: a missing file is not an error. *)
Definition remove_token (fs : Fs) (path : string) : result Fs :=
  if fs_fails fs path then Err (StoreFailed ("failed to delete token file " ++ path))
  else Ok (mkFs (delete path (files fs)) (fs_fails fs)).

Definition get_token (data_dir : option string) (fs : Fs) (profile : option string)
    : result (option string) :=
  path <-? token_path data_dir profile ;;
  read_token fs path.

Definition set_token (data_dir : option string) (fs : Fs) (profile : option string)
    (token : string) : result Fs :=
  path <-? token_path data_dir profile ;;
  write_token fs path token.

Definition delete_token (data_dir : option string) (fs : Fs) (profile : option string)
    : result Fs :=
  path <-? token_path data_dir profile ;;
  remove_token fs path.

End TokenFile.

(* ------------------------------------------------------------------ *)
(** * The Keychain store (keychain.rs)                                 *)
(* ------------------------------------------------------------------ *)

Module Keychain.

(** The passwords of service "slafling" in the macOS Keychain, by
    account, and whether the Keychain refuses access. *)
Record Keychain := mkKeychain {
  kc_entries : gmap string string;
  kc_fails : bool
}.

Definition account_name (profile : option string) : string :=
  TokenFile.unwrap_or profile "default".

(** On macOS the Keychain entry; elsewhere [Ok None]. *)
Definition get_token (is_macos : bool) (kc : Keychain) (profile : option string)
    : result (option string) :=
  if is_macos then
    if kc_fails kc then Err (StoreFailed "keychain access failed")
    else Ok (kc_entries kc !! account_name profile)
  else Ok None.

Definition set_token (is_macos : bool) (kc : Keychain) (profile : option string)
    (token : string) : result Keychain :=
  if is_macos then
    if kc_fails kc then Err (StoreFailed "keychain access failed")
    else Ok (mkKeychain (<[account_name profile := token]> (kc_entries kc)) (kc_fails kc))
  else Err (StoreFailed "Keychain is only supported on macOS").

(** A missing entry ([keyring::Error::NoEntry]) is not an error. *)
Definition delete_token (is_macos : bool) (kc : Keychain) (profile : option string)
    : result Keychain :=
  if is_macos then
    if kc_fails kc then Err (StoreFailed "keychain access failed")
    else Ok (mkKeychain (delete (account_name profile) (kc_entries kc)) (kc_fails kc))
  else Err (StoreFailed "Keychain is only supported on macOS").

End Keychain.

(* ------------------------------------------------------------------ *)
(** * Errors of the other commands                                     *)
(* ------------------------------------------------------------------ *)

Module Cmd.

(** The [bail!] / [.context(..)] sites of config validation, headless
    resolution and the token commands; [Core e] carries an error of the
    send command or of a token backend. *)
Inductive CmdError :=
  | Core (e : Error)
  (* config.rs: validate_section_values, validate_config *)
  | InvalidOutputValue (val section : string)
  | InvalidSearchTypesValue (val section : string)
  | InvalidTokenStoreValue (val : string)
  | KeychainOnlyMacos
  (* config.rs: config_path, load_config *)
  | NoHomeDir
  | ConfigReadFailed (path : string)
  | ConfigParseFailed (path : string)
  (* config.rs: validate_search_types_str *)
  | InvalidSearchType (val : string)
  (* config.rs: resolve_from_env, resolve_token_from_env *)
  | HeadlessTokenMissing
  | HeadlessChannelMissing
  | HeadlessInvalidMaxFileSize (s : string) (cause : Error)
  (* main.rs: run_token_set, run_token_delete *)
  | TokenSetNotTty
  | TokenIoFailed
  | TokenRequired
  | NoStoredToken (profile : string).

Inductive cresult (A : Type) := COk (a : A) | CErr (e : CmdError).
Arguments COk {A} a.
Arguments CErr {A} e.

Definition cbind {A B} (r : cresult A) (f : A -> cresult B) : cresult B :=
  match r with COk a => f a | CErr e => CErr e end.

Notation "x <-! r ;; k" := (cbind r (fun x => k))
  (at level 100, r at next level, right associativity).

(** [?] on an [anyhow::Result] inside these commands. *)
Definition core {A} (r : result A) : cresult A :=
  match r with Ok a => COk a | Err e => CErr (Core e) end.

End Cmd.

(* ------------------------------------------------------------------ *)
(** * Validation, headless settings and the remaining lookups (config.rs) *)
(* ------------------------------------------------------------------ *)

Module Settings.
Import Config Cmd.

Definition VALID_OUTPUT_VALUES : list string := ["table"; "tsv"; "json"].
Definition VALID_SEARCH_TYPES : list string :=
  ["public_channel"; "private_channel"; "im"; "mpim"].
Definition VALID_TOKEN_STORE_VALUES : list string := ["keychain"; "file"].

(** [<[&str]>::contains] *)
Definition contains (l : list string) (s : string) : bool := existsb (String.eqb s) l.

(** The [for val in types] loop of [validate_section_values]. *)
Fixpoint check_section_types (section : string) (types : list string) : cresult unit :=
  match types with
  | [] => COk tt
  | val :: rest =>
      if contains VALID_SEARCH_TYPES (to_lowercase val) then check_section_types section rest
      else CErr (InvalidSearchTypesValue val section)
  end.

Definition validate_section_values (section : string) (output : option string)
    (search_types : option (list string)) : cresult unit :=
  _ <-! (match output with
         | Some val =>
             if contains VALID_OUTPUT_VALUES (to_lowercase val) then COk tt
             else CErr (InvalidOutputValue val section)
         | None => COk tt
         end) ;;
  match search_types with
  | Some types => check_section_types section types
  | None => COk tt
  end.

(** The [for (name, profile) in &config.profiles] loop. A [HashMap] is
    walked in an unspecified order; [map_to_list] is one such order. *)
Fixpoint check_profiles (ps : list (string * Profile)) : cresult unit :=
  match ps with
  | [] => COk tt
  | (name, profile) :: rest =>
      _ <-! validate_section_values ("profiles." ++ name) (p_output profile)
                                    (p_search_types profile) ;;
      check_profiles rest
  end.

Definition validate_config (is_macos : bool) (config : ConfigFile) : cresult unit :=
  _ <-! validate_section_values "default" (d_output (default config))
                                (d_search_types (default config)) ;;
  _ <-! (match d_token_store (default config) with
         | Some val =>
             let lower := to_lowercase val in
             if negb (contains VALID_TOKEN_STORE_VALUES lower) then
               CErr (InvalidTokenStoreValue val)
             else if String.eqb lower "keychain" && negb is_macos then CErr KeychainOnlyMacos
             else COk tt
         | None => COk tt
         end) ;;
  check_profiles (map_to_list (profiles config)).

(** [describe_token_source]: where [resolve_token] would take the token
    from, as (source, location). *)
Definition describe_token_source (env : Env) (is_macos : bool) (kc : Keychain.Keychain)
    (data_dir : option string) (fs : TokenFile.Fs) (token_store : string)
    (profile_name : option string) : result (string * string) :=
  let backend :=
    if String.eqb token_store "keychain" then
      o <-? Keychain.get_token is_macos kc profile_name ;;
      match o with
      | Some _ => Ok ("keychain", "macOS Keychain")%string
      | None => Err TokenNotConfigured
      end
    else if String.eqb token_store "file" then
      path <-? TokenFile.token_path data_dir profile_name ;;
      o <-? TokenFile.get_token data_dir fs profile_name ;;
      match o with
      | Some _ => Ok ("file"%string, path)
      | None => Err TokenNotConfigured
      end
    else Err (InvalidTokenStore token_store) in
  match env "SLAFLING_TOKEN" with
  | Some t => if negb (String.eqb t "") then Ok ("env", "SLAFLING_TOKEN")%string else backend
  | None => backend
  end.

Definition resolve_search_types (config : ConfigFile) (profile_name : option string)
    : option string :=
  let search_types :=
    match profile_name with
    | Some name =>
        match profiles config !! name with
        | Some profile =>
            match p_search_types profile with
            | Some _ => p_search_types profile
            | None => d_search_types (default config)
            end
        | None => d_search_types (default config)
        end
    | None => d_search_types (default config)
    end in
  option_map (Cli.join ",") search_types.

Definition resolve_output (env : Env) (config : ConfigFile) (profile_name : option string)
    : option string :=
  match env "SLAFLING_OUTPUT" with
  | Some val => Some val
  | None =>
      let output := d_output (default config) in
      match profile_name with
      | Some name =>
          match profiles config !! name with
          | Some profile => match p_output profile with Some _ => p_output profile | None => output end
          | None => output
          end
      | None => output
      end
  end.

Definition is_truthy (s : string) : bool :=
  let l := to_lowercase s in
  String.eqb l "1" || String.eqb l "true" || String.eqb l "yes".

Definition is_headless_env (env : Env) : bool :=
  match env "SLAFLING_HEADLESS" with Some v => is_truthy v | None => false end.

(** [std::env::var(k).ok().filter(|s| !s.is_empty())] *)
Definition non_empty_var (env : Env) (k : string) : option string :=
  match env k with
  | Some s => if String.eqb s "" then None else Some s
  | None => None
  end.

Definition resolve_token_from_env (env : Env) : cresult string :=
  match non_empty_var env "SLAFLING_TOKEN" with
  | Some t => COk t
  | None => CErr HeadlessTokenMissing
  end.

Definition resolve_from_env (env : Env) : cresult ResolvedConfig :=
  token <-! resolve_token_from_env env ;;
  channel <-! (match non_empty_var env "SLAFLING_CHANNEL" with
               | Some c => COk c
               | None => CErr HeadlessChannelMissing
               end) ;;
  max_file_size <-! (match non_empty_var env "SLAFLING_MAX_FILE_SIZE" with
                     | Some s =>
                         match Size.parse_file_size s with
                         | Ok n => COk n
                         | Err e => CErr (HeadlessInvalidMaxFileSize s e)
                         end
                     | None => COk Size.DEFAULT_MAX_FILE_SIZE
                     end) ;;
  let confirm := match non_empty_var env "SLAFLING_CONFIRM" with
                 | Some v => is_truthy v
                 | None => false
                 end in
  COk (mkResolvedConfig token channel max_file_size confirm).

Definition resolve_search_types_from_env (env : Env) : option string :=
  non_empty_var env "SLAFLING_SEARCH_TYPES".

(** [str::split(c)] for an ASCII separator: the pieces between the
    separators, [cur] holding the current piece reversed. *)
Fixpoint split_on (c : nat) (l : list Byte.byte) (cur : list Byte.byte)
  : list (list Byte.byte) :=
  match l with
  | [] => [rev cur]
  | x :: t => if (Bytes.bn x =? c)%nat then rev cur :: split_on c t []
              else split_on c t (x :: cur)
  end.

(** The loop of [validate_search_types_str] over the pieces. *)
Fixpoint check_pieces (pieces : list string) : cresult unit :=
  match pieces with
  | [] => COk tt
  | val :: rest =>
      let trimmed := Bytes.trim val in
      if contains VALID_SEARCH_TYPES trimmed then check_pieces rest
      else CErr (InvalidSearchType trimmed)
  end.

Definition validate_search_types_str (s : string) : cresult unit :=
  check_pieces (map string_of_list_byte (split_on 44 (list_byte_of_string s) [])).

Definition config_path (home_dir : option string) : cresult string :=
  match home_dir with
  | None => CErr NoHomeDir
  | Some home => COk (TokenFile.join (TokenFile.join (TokenFile.join home ".config")
                                                      "slafling") "config.toml")
  end.

(** [load_config]; [toml] is [toml::from_str] into a [ConfigFile]. *)
Definition load_config (is_macos : bool) (home_dir : option string) (fs : TokenFile.Fs)
    (toml : string -> option ConfigFile) : cresult ConfigFile :=
  path <-! config_path home_dir ;;
  content <-! (if TokenFile.fs_fails fs path then CErr (ConfigReadFailed path)
               else match TokenFile.files fs !! path with
                    | None => CErr (ConfigReadFailed path)
                    | Some e =>
                        match Bytes.read_to_string (TokenFile.fe_content e) with
                        | None => CErr (ConfigReadFailed path)
                        | Some c => COk c
                        end
                    end) ;;
  config <-! (match toml content with
              | None => CErr (ConfigParseFailed path)
              | Some c => COk c
              end) ;;
  _ <-! validate_config is_macos config ;;
  COk config.

End Settings.

(* ------------------------------------------------------------------ *)
(** * Output format, headless send and the token commands (main.rs)    *)
(* ------------------------------------------------------------------ *)

Module Commands.
Import Config Slack Main Cmd Settings Cli.

(** The [match s.to_lowercase().as_str()] of the two format resolvers. *)
Definition format_named (s : string) : option OutputFormat :=
  let l := to_lowercase s in
  if String.eqb l "table" then Some Table
  else if String.eqb l "tsv" then Some Tsv
  else if String.eqb l "json" then Some Json
  else None.

Definition resolve_output_format (env : Env) (stdout_is_terminal : bool)
    (cli_output : option OutputFormat) (cfg : ConfigFile) (profile : option string)
    : OutputFormat :=
  match cli_output with
  | Some f => f
  | None =>
      match match resolve_output env cfg profile with
            | Some s => format_named s
            | None => None
            end with
      | Some f => f
      | None => if stdout_is_terminal then Table else Tsv
      end
  end.

Definition resolve_output_format_headless (env : Env) (stdout_is_terminal : bool)
    (cli_output : option OutputFormat) : OutputFormat :=
  match cli_output with
  | Some f => f
  | None =>
      match match env "SLAFLING_OUTPUT" with
            | Some s => format_named s
            | None => None
            end with
      | Some f => f
      | None => if stdout_is_terminal then Table else Tsv
      end
  end.

(** The send branch of [run_headless]. *)
Definition run_headless_send (env : Env) (w : World) (net : Net) (send : SendArgs)
    : list Event * cresult unit :=
  match resolve_from_env env with
  | CErr e => ([], CErr e)
  | COk resolved =>
      let '(tr, r) := run_send_with_resolved w net send resolved in
      (tr, core r)
  end.

(** The channel-type string of the search branch of [run_headless]:
    the [--types] list, or SLAFLING_SEARCH_TYPES (["public_channel"]
    when unset or empty), which is validated first. *)
Definition headless_search_types (env : Env) (types : option (list SearchType))
    : cresult string :=
  match types with
  | Some t => COk (search_types_to_api_string t)
  | None =>
      let s := match resolve_search_types_from_env env with
               | Some s => s
               | None => "public_channel"%string
               end in
      _ <-! validate_search_types_str s ;;
      COk s
  end.

(** Everything the token commands touch; [h_stdin_read_ok] is whether
    reading stdin succeeds at all (it can fail with an I/O error). *)
Record Host := mkHost {
  h_is_macos : bool;
  h_env : Env;
  h_home_dir : option string;
  h_data_dir : option string;
  h_fs : TokenFile.Fs;
  h_keychain : Keychain.Keychain;
  h_toml : string -> option ConfigFile;
  h_stdin_is_terminal : bool;
  h_stdin : list Byte.byte;
  h_stdin_read_ok : bool;
  h_stderr_flush_ok : bool
}.

Definition with_fs (h : Host) (fs : TokenFile.Fs) : Host :=
  mkHost (h_is_macos h) (h_env h) (h_home_dir h) (h_data_dir h) fs (h_keychain h)
         (h_toml h) (h_stdin_is_terminal h) (h_stdin h) (h_stdin_read_ok h)
         (h_stderr_flush_ok h).

Definition with_keychain (h : Host) (kc : Keychain.Keychain) : Host :=
  mkHost (h_is_macos h) (h_env h) (h_home_dir h) (h_data_dir h) (h_fs h) kc
         (h_toml h) (h_stdin_is_terminal h) (h_stdin h) (h_stdin_read_ok h)
         (h_stderr_flush_ok h).

(** The two backends [resolve_token] reads, on this host. *)
Definition backends_of (h : Host) : TokenBackends :=
  mkTokenBackends (Keychain.get_token (h_is_macos h) (h_keychain h))
                  (TokenFile.get_token (h_data_dir h) (h_fs h)).

(** [store_token]; the host afterwards. *)
Definition store_token (h : Host) (token_store : string) (profile : option string)
    (token_value : string) : cresult Host :=
  if String.eqb token_store "keychain" then
    kc <-! core (Keychain.set_token (h_is_macos h) (h_keychain h) profile token_value) ;;
    COk (with_keychain h kc)
  else if String.eqb token_store "file" then
    fs <-! core (TokenFile.set_token (h_data_dir h) (h_fs h) profile token_value) ;;
    _ <-! core (TokenFile.token_path (h_data_dir h) profile) ;;
    COk (with_fs h fs)
  else CErr (Core (InvalidTokenStore token_store)).

Definition load_token_store (h : Host) : cresult string :=
  path <-! config_path (h_home_dir h) ;;
  if negb (TokenFile.path_exists (h_fs h) path) then
    COk (default_token_store (h_is_macos h))
  else
    cfg <-! load_config (h_is_macos h) (h_home_dir h) (h_fs h) (h_toml h) ;;
    COk (resolve_token_store (h_is_macos h) cfg).

Definition run_token_set (h : Host) (profile : option string) : cresult Host :=
  if negb (h_stdin_is_terminal h) then CErr TokenSetNotTty
  else if negb (h_stderr_flush_ok h) then CErr TokenIoFailed
  else match (if h_stdin_read_ok h then read_line (h_stdin h) else None) with
       | None => CErr TokenIoFailed
       | Some token_input =>
           let token_value := Bytes.trim token_input in
           if String.eqb token_value "" then CErr TokenRequired
           else
             token_store <-! load_token_store h ;;
             store_token h token_store profile token_value
       end.

Definition run_token_delete (h : Host) (profile : option string) : cresult Host :=
  token_store <-! load_token_store h ;;
  if String.eqb token_store "keychain" then
    let account := TokenFile.unwrap_or profile "default" in
    o <-! core (Keychain.get_token (h_is_macos h) (h_keychain h) profile) ;;
    match o with
    | None => CErr (NoStoredToken account)
    | Some _ =>
        kc <-! core (Keychain.delete_token (h_is_macos h) (h_keychain h) profile) ;;
        COk (with_keychain h kc)
    end
  else if String.eqb token_store "file" then
    path <-! core (TokenFile.token_path (h_data_dir h) profile) ;;
    if negb (TokenFile.path_exists (h_fs h) path) then
      CErr (NoStoredToken (TokenFile.unwrap_or profile "default"))
    else
      fs <-! core (TokenFile.delete_token (h_data_dir h) (h_fs h) profile) ;;
      COk (with_fs h fs)
  else CErr (Core (InvalidTokenStore token_store)).

(** What [run_token_show] prints. *)
Inductive ShowOut :=
  | Shown (source location : string)
  | NotConfigured (e : Error).

Definition run_token_show (h : Host) (profile : option string) : cresult ShowOut :=
  token_store <-! load_token_store h ;;
  match describe_token_source (h_env h) (h_is_macos h) (h_keychain h) (h_data_dir h)
                              (h_fs h) token_store profile with
  | Ok (source, location) => COk (Shown source location)
  | Err e => COk (NotConfigured e)
  end.

End Commands.

(* ------------------------------------------------------------------ *)
(** * Concrete hosts used by the statements                            *)
(* ------------------------------------------------------------------ *)

Module HostFixtures.
Import Config Cmd Commands.

Definition data_home : string := "/home/u/.local/share".

Definition fs_empty : TokenFile.Fs := TokenFile.mkFs ∅ (fun _ => false).

Definition kc_empty : Keychain.Keychain := Keychain.mkKeychain ∅ false.

(** A token typed at the prompt, with blanks around it. *)
Definition typed_token : list Byte.byte := list_byte_of_string " xoxb-9 " ++ ["010"%byte].

(** A Linux host with no configuration file and nothing stored yet. *)
Definition linux_host : Host :=
  mkHost false (Fixtures.env_of []) (Some "/home/u"%string) (Some data_home) fs_empty
         kc_empty (fun _ => None) true typed_token true true.

(** A macOS host with no configuration file and nothing stored yet. *)
Definition mac_host : Host :=
  mkHost true (Fixtures.env_of []) (Some "/home/u"%string) (Some data_home) fs_empty
         kc_empty (fun _ => None) true typed_token true true.

(** A token file holding a token followed by a newline. *)
Definition token_fs : TokenFile.Fs :=
  TokenFile.mkFs {[ "/home/u/.local/share/slafling/tokens/default"%string :=
                      TokenFile.mkFileEntry (list_byte_of_string " xoxb-7" ++ ["010"%byte]) 384 ]}
                 (fun _ => false).

(** A Linux host with a stored token for the default profile. *)
Definition stored_host : Host :=
  mkHost false (Fixtures.env_of []) (Some "/home/u"%string) (Some data_home) token_fs
         kc_empty (fun _ => None) true typed_token true true.

End HostFixtures.

(* ------------------------------------------------------------------ *)
(** * Sample evaluations                                               *)
(* ------------------------------------------------------------------ *)

Module SizeExamples.
Import Size.

Example parse_1_5MB : parse_file_size "1.5MB" = Ok 1572864.
Proof. vm_compute. reflexivity. Qed.
Example parse_spaces : parse_file_size " 2 kb " = Ok 2048.
Proof. vm_compute. reflexivity. Qed.
Example parse_point3 : parse_file_size "1.3M" = Ok 1363148.
Proof. vm_compute. reflexivity. Qed.
Example parse_bad_unit : parse_file_size "5TB" = Err (UnknownSizeUnit "TB").
Proof. vm_compute. reflexivity. Qed.
Example parse_bad_num : parse_file_size "abc" = Err (InvalidSizeNumber "abc").
Proof. vm_compute. reflexivity. Qed.
Example format_1280 : format_size 1280 = "1.2KB"%string.
Proof. vm_compute. reflexivity. Qed.
Example format_100MB : format_size DEFAULT_MAX_FILE_SIZE = "100.0MB"%string.
Proof. vm_compute. reflexivity. Qed.
Example format_max : format_size U64_MAX = "17179869184.0GB"%string.
Proof. vm_compute. reflexivity. Qed.
Example format_small : format_size 999 = "999B"%string.
Proof. vm_compute. reflexivity. Qed.
Example roundtrip_max : parse_file_size (format_size U64_MAX) = Ok U64_MAX.
Proof. vm_compute. reflexivity. Qed.

End SizeExamples.

Module SizeFacts.
Import Size.

Local Open Scope Q_scope.

Ltac qify H :=
  repeat first [ rewrite inject_Z_mult in H | rewrite inject_Z_plus in H
               | rewrite inject_Z_opp in H ].

Lemma pow2_add (a b : Z) : pow2 (a + b) == pow2 a * pow2 b.
Proof. unfold pow2. apply Qpower_plus. discriminate. Qed.

Lemma pow2_pos (e : Z) : 0 < pow2 e.
Proof. unfold pow2. apply Qpower_0_lt. reflexivity. Qed.

Lemma pow2_Z (k : Z) : (0 <= k)%Z -> pow2 k == inject_Z (2 ^ k).
Proof. intros H. unfold pow2. symmetry. apply Zpower_Qpower. exact H. Qed.

Lemma pow2_opp_Z (k : Z) : (0 <= k)%Z -> pow2 (- k) == / inject_Z (2 ^ k).
Proof. intros H. unfold pow2. rewrite Qpower_opp. rewrite <- Zpower_Qpower by exact H. reflexivity. Qed.

Lemma inject_Z_pos (z : Z) : (0 < z)%Z -> 0 < inject_Z z.
Proof. intros H. unfold Qlt. simpl. lia. Qed.

Lemma scale_spec (n d k : Z) : (0 < d)%Z ->
  (0 < snd (scale n d k))%Z /\
  inject_Z (fst (scale n d k)) / inject_Z (snd (scale n d k))
  == inject_Z n / inject_Z d * pow2 k.
Proof.
  intros Hd. unfold scale. destruct (0 <=? k)%Z eqn:Hk; simpl.
  - apply Z.leb_le in Hk. split; [exact Hd|].
    rewrite inject_Z_mult, pow2_Z by exact Hk.
    field. intro E. apply inject_Z_pos in Hd. rewrite E in Hd. discriminate.
  - apply Z.leb_gt in Hk.
    assert (Hp : (0 < 2 ^ (- k))%Z) by (apply Z.pow_pos_nonneg; lia).
    split; [nia|].
    replace k with (- (- k))%Z at 2 by lia.
    rewrite pow2_opp_Z by lia. rewrite inject_Z_mult.
    apply inject_Z_pos in Hd. apply inject_Z_pos in Hp.
    field. split; intro E; [rewrite E in Hp | rewrite E in Hd]; discriminate.
Qed.

Lemma rne_Z (n d : Z) : (0 < d)%Z ->
  (- d <= 2 * (rne n d * d - n) <= d)%Z.
Proof.
  intros Hd. unfold rne.
  pose proof (Z.div_mod n d ltac:(lia)). pose proof (Z.mod_pos_bound n d Hd).
  destruct (2 * (n mod d) <? d)%Z eqn:E1; [apply Z.ltb_lt in E1; lia|].
  apply Z.ltb_ge in E1.
  destruct (d <? 2 * (n mod d))%Z eqn:E2; [apply Z.ltb_lt in E2; lia|].
  apply Z.ltb_ge in E2.
  destruct (Z.even (n / d)); lia.
Qed.

Lemma rne_nonneg (n d : Z) : (0 <= n)%Z -> (0 < d)%Z -> (0 <= rne n d)%Z.
Proof.
  intros Hn Hd. unfold rne.
  assert (0 <= n / d)%Z by (apply Z.div_pos; lia).
  destruct (_ <? _)%Z; [lia|]. destruct (_ <? _)%Z; [lia|].
  destruct (Z.even _); lia.
Qed.

Lemma pow2_0 : pow2 0 == 1.
Proof. reflexivity. Qed.

Lemma pow2_inv (e : Z) : pow2 (- e) * pow2 e == 1.
Proof. rewrite <- pow2_add. replace (- e + e)%Z with 0%Z by lia. reflexivity. Qed.

Lemma Zle_Q (x y : Z) : (x <= y)%Z -> inject_Z x <= inject_Z y.
Proof. rewrite Zle_Qle. exact (fun H => H). Qed.

Lemma Zlt_Q (x y : Z) : (x < y)%Z -> inject_Z x < inject_Z y.
Proof. rewrite Zlt_Qlt. exact (fun H => H). Qed.

(** [|R * D - N| <= D / 2] for [R = rne n d]. *)
Lemma rne_spec (n d : Z) : (0 < d)%Z ->
  inject_Z n - inject_Z d * (1 # 2) <= inject_Z (rne n d) * inject_Z d /\
  inject_Z (rne n d) * inject_Z d <= inject_Z n + inject_Z d * (1 # 2).
Proof.
  intros Hd. pose proof (rne_Z n d Hd) as [H1 H2].
  apply Zle_Q in H1. apply Zle_Q in H2.
  unfold Z.sub in H1, H2. qify H1. qify H2.
  change (inject_Z 2) with (2 # 1) in H1, H2. split; lra.
Qed.


Lemma scale_eq (n d k : Z) : (0 < d)%Z ->
  (0 < snd (scale n d k))%Z /\
  inject_Z (fst (scale n d k)) * inject_Z d
  == inject_Z n * inject_Z (snd (scale n d k)) * pow2 k.
Proof.
  intros Hd. unfold scale. destruct (0 <=? k)%Z eqn:Hk; simpl.
  - apply Z.leb_le in Hk. split; [exact Hd|].
    rewrite inject_Z_mult, pow2_Z by exact Hk. ring.
  - apply Z.leb_gt in Hk.
    assert (Hp : (0 < 2 ^ (- k))%Z) by (apply Z.pow_pos_nonneg; lia).
    split; [nia|].
    rewrite inject_Z_mult.
    assert (E : pow2 (- (- k)) * pow2 (- k) == 1) by apply pow2_inv.
    replace (- (- k))%Z with k in E by lia.
    rewrite (pow2_Z (- k)) in E by lia.
    transitivity (inject_Z n * inject_Z d * (pow2 k * inject_Z (2 ^ (- k)))).
    + rewrite E. ring.
    + ring.
Qed.

Lemma log2_bounds (n : Z) : (0 < n)%Z ->
  pow2 (Z.log2 n) <= inject_Z n /\ inject_Z n < pow2 (Z.log2 n + 1).
Proof.
  intros Hn. pose proof (Z.log2_spec n Hn) as [H1 H2].
  pose proof (Z.log2_nonneg n).
  rewrite !pow2_Z by lia. split; [apply Zle_Q | apply Zlt_Q]; [exact H1|].
  rewrite <- Z.add_1_r in H2. exact H2.
Qed.

Lemma flog2_lower (n d : Z) : (0 < n)%Z -> (0 < d)%Z ->
  pow2 (flog2 n d) * inject_Z d <= inject_Z n.
Proof.
  intros Hn Hd. unfold flog2.
  set (e0 := (Z.log2 n - Z.log2 d)%Z).
  pose proof (scale_eq n d (- e0) Hd) as [Hb HA].
  destruct (scale n d (- e0)) as [a b] eqn:Es. simpl in Hb, HA.
  destruct (a <? b)%Z eqn:Eab.
  - pose proof (log2_bounds n Hn) as [Hn1 _].
    pose proof (log2_bounds d Hd) as [_ Hd2].
    pose proof (pow2_pos (e0 - 1)) as Hp.
    apply Qle_trans with (pow2 (e0 - 1) * pow2 (Z.log2 d + 1)).
    + apply Qmult_le_l; [exact Hp|]. apply Qlt_le_weak. exact Hd2.
    + rewrite <- pow2_add. replace (e0 - 1 + (Z.log2 d + 1))%Z with (Z.log2 n)
        by (unfold e0; lia). exact Hn1.
  - apply Z.ltb_ge in Eab. apply Zle_Q in Eab.
    apply inject_Z_pos in Hb.
    pose proof (pow2_pos (- e0)) as Hp.
    pose proof (pow2_inv e0) as Hi.
    apply (Qmult_le_r _ _ (inject_Z b * pow2 (- e0))).
    { apply Qmult_lt_0_compat; assumption. }
    assert (E : pow2 e0 * inject_Z d * (inject_Z b * pow2 (- e0))
                == inject_Z d * inject_Z b * (pow2 (- e0) * pow2 e0)) by ring.
    rewrite E, Hi.
    assert (E2 : inject_Z n * (inject_Z b * pow2 (- e0)) == inject_Z a * inject_Z d)
      by (rewrite HA; ring).
    rewrite E2.
    assert (Hd' : 0 < inject_Z d) by (apply inject_Z_pos; exact Hd).
    nra.
Qed.

Definition eps53 : Q := 1 # 9007199254740992.

Lemma pow2_53 (e : Z) : pow2 (e - 52) * (1 # 2) == pow2 e * eps53.
Proof.
  replace e with ((e - 52) + 52)%Z at 2 by lia.
  rewrite pow2_add, (pow2_Z 52) by lia. unfold eps53.
  assert (E : inject_Z (2 ^ 52) * (1 # 9007199254740992) == 1 # 2) by reflexivity.
  rewrite <- E. ring.
Qed.

(** The double nearest to [n / d] is within a relative [2^-53] of it. *)
Lemma f64_of_frac_spec (n d : Z) : (0 <= n)%Z -> (0 < d)%Z ->
  f_neg (f64_of_frac false n d) = false /\
  (0 <= f_mant (f64_of_frac false n d))%Z /\
  inject_Z n - inject_Z n * eps53 <= inject_Z d * f64_val (f64_of_frac false n d) /\
  inject_Z d * f64_val (f64_of_frac false n d) <= inject_Z n + inject_Z n * eps53.
Proof.
  intros Hn Hd. unfold f64_of_frac.
  destruct (n =? 0)%Z eqn:En.
  { apply Z.eqb_eq in En. subst n. unfold f64_val. simpl.
    split; [reflexivity|]. split; [lia|]. unfold eps53, pow2. simpl. split; unfold Qle; simpl; lia. }
  apply Z.eqb_neq in En.
  set (fl := flog2 n d). set (e := (fl - 52)%Z).
  pose proof (flog2_lower n d ltac:(lia) Hd) as Hlow. fold fl in Hlow.
  pose proof (scale_eq n d (- e) Hd) as [Hb HA].
  destruct (scale n d (- e)) as [a b] eqn:Es. simpl in Hb, HA.
  assert (Ha : (0 <= a)%Z).
  { unfold scale in Es. destruct (0 <=? - e)%Z; inversion Es; subst;
      [apply Z.mul_nonneg_nonneg; [lia | apply Z.pow_nonneg; lia] | lia]. }
  pose proof (rne_spec a b Hb) as [R1 R2].
  split; [reflexivity|]. split; [simpl; apply rne_nonneg; lia|].
  unfold f64_val. simpl.
  set (M := inject_Z (rne a b)) in *. set (A := inject_Z a) in *.
  set (B := inject_Z b) in *. set (N := inject_Z n) in *. set (D := inject_Z d) in *.
  pose proof (pow2_pos e) as HP. pose proof (pow2_inv e) as Hi.
  pose proof (pow2_53 fl) as H53. fold e in H53.
  assert (HB : 0 < B) by (apply inject_Z_pos; exact Hb).
  assert (HD : 0 < D) by (apply inject_Z_pos; exact Hd).
  set (P := pow2 e) in *. set (Q' := pow2 (- e)) in *.
  clearbody M A B N D P Q'.
  (* B * (D * M * P - N) = D * P * (M * B - A) *)
  assert (Key : (D * (1 * M * P) - N) * B == D * P * (M * B - A)).
  { transitivity (D * M * P * B - N * B * (Q' * P)).
    - rewrite Hi. ring.
    - transitivity (D * M * P * B - P * (N * B * Q')); [ring|].
      rewrite <- HA. ring. }
  assert (HDP : 0 < D * P) by (apply Qmult_lt_0_compat; assumption).
  assert (Hc : D * P * (1 # 2) <= N * eps53).
  { assert (E : D * P * (1 # 2) == (pow2 fl * D) * eps53) 
      by (transitivity (D * (P * (1 # 2))); [ring | rewrite H53; ring]).
    rewrite E. apply Qmult_le_r; [unfold eps53, Qlt; simpl; lia | exact Hlow]. }
  assert (Hc' : D * P * (1 # 2) * B <= N * eps53 * B)
    by (apply Qmult_le_r; assumption).
  split.
  - apply (Qmult_le_r _ _ B HB).
    assert (D * P * (M * B - A) >= - (D * P * (B * (1 # 2)))) by nra.
    nra.
  - apply (Qmult_le_r _ _ B HB).
    assert (D * P * (M * B - A) <= D * P * (B * (1 # 2))) by nra.
    nra.
Qed.


Lemma mul_pow2_val (x : f64) (k : Z) : f64_val (mul_pow2 x k) == f64_val x * pow2 k.
Proof. unfold f64_val, mul_pow2. simpl. rewrite pow2_add. ring. Qed.

(** [as u64] on a non-negative double truncates, saturating at [u64::MAX]. *)
Lemma f64_to_u64_spec (x : f64) :
  f_neg x = false -> (0 <= f_mant x)%Z ->
  (0 <= f64_to_u64 x <= U64_MAX)%Z /\
  inject_Z (f64_to_u64 x) <= f64_val x /\
  (f64_to_u64 x = U64_MAX \/ f64_val x < inject_Z (f64_to_u64 x) + 1).
Proof.
  intros Hneg Hm. destruct x as [neg m e]. simpl in *. subst neg.
  unfold f64_to_u64, f64_val. simpl.
  assert (HU : (0 < U64_MAX)%Z) by (unfold U64_MAX; lia).
  assert (Hv : exists v, (0 <= v)%Z /\
             (if (0 <=? e)%Z then m * 2 ^ e else m / 2 ^ (- e))%Z = v /\
             inject_Z v <= 1 * inject_Z m * pow2 e /\
             1 * inject_Z m * pow2 e < inject_Z v + 1).
  { destruct (0 <=? e)%Z eqn:He.
    - apply Z.leb_le in He. exists (m * 2 ^ e)%Z.
      split; [apply Z.mul_nonneg_nonneg; [lia | apply Z.pow_nonneg; lia]|].
      split; [reflexivity|].
      rewrite pow2_Z by exact He. rewrite inject_Z_mult. split; lra.
    - apply Z.leb_gt in He.
      assert (Hp : (0 < 2 ^ (- e))%Z) by (apply Z.pow_pos_nonneg; lia).
      exists (m / 2 ^ (- e))%Z. split; [apply Z.div_pos; lia|]. split; [reflexivity|].
      pose proof (Z.div_mod m (2 ^ (- e)) ltac:(lia)) as Hdm.
      pose proof (Z.mod_pos_bound m (2 ^ (- e)) Hp) as Hr.
      set (v := (m / 2 ^ (- e))%Z) in *. set (r := (m mod 2 ^ (- e))%Z) in *.
      set (q := (2 ^ (- e))%Z) in *.
      assert (E : pow2 e * inject_Z q == 1).
      { unfold q. rewrite <- pow2_Z by lia. rewrite <- pow2_add.
        replace (e + - e)%Z with 0%Z by lia. reflexivity. }
      assert (HQ : 0 < inject_Z q) by (apply inject_Z_pos; exact Hp).
      assert (Hm1 : inject_Z q * inject_Z v <= inject_Z m)
        by (rewrite <- inject_Z_mult; apply Zle_Q; lia).
      assert (Hm2 : inject_Z m < inject_Z q * inject_Z v + inject_Z q)
        by (rewrite <- inject_Z_mult, <- inject_Z_plus; apply Zlt_Q; lia).
      split.
      + apply (Qmult_le_r _ _ (inject_Z q) HQ).
        assert (E2 : 1 * inject_Z m * pow2 e * inject_Z q == inject_Z m)
          by (transitivity (inject_Z m * (pow2 e * inject_Z q)); [ring | rewrite E; ring]).
        rewrite E2. lra.
      + apply (Qmult_lt_r _ _ (inject_Z q) HQ).
        assert (E2 : 1 * inject_Z m * pow2 e * inject_Z q == inject_Z m)
          by (transitivity (inject_Z m * (pow2 e * inject_Z q)); [ring | rewrite E; ring]).
        rewrite E2. lra. }
  destruct Hv as [v [Hv0 [-> [Hv1 Hv2]]]].
  split; [lia|].
  destruct (Z.le_ge_cases v U64_MAX) as [Hle | Hge].
  - rewrite Z.min_l by exact Hle. split; [exact Hv1 | right; exact Hv2].
  - rewrite Z.min_r by lia. split; [| left; reflexivity].
    apply Qle_trans with (inject_Z v); [apply Zle_Q; lia | exact Hv1].
Qed.

(** The tenths [format!("{:.1}")] prints: [|t - 10 x| <= 1/2]. *)
Lemma round_tenths_spec (x : f64) :
  f_neg x = false -> (0 <= f_mant x)%Z ->
  (0 <= round_tenths x)%Z /\
  10 * f64_val x - (1 # 2) <= inject_Z (round_tenths x) /\
  inject_Z (round_tenths x) <= 10 * f64_val x + (1 # 2).
Proof.
  intros Hneg Hm. unfold round_tenths, f64_val. rewrite Hneg.
  pose proof (scale_eq (10 * f_mant x) 1 (f_exp x) ltac:(lia)) as [Hb HA].
  destruct (scale (10 * f_mant x) 1 (f_exp x)) as [a b] eqn:Es. simpl in Hb, HA.
  assert (Ha : (0 <= a)%Z).
  { unfold scale in Es. destruct (0 <=? f_exp x)%Z; inversion Es; subst;
      [apply Z.mul_nonneg_nonneg; [lia | apply Z.pow_nonneg; lia] | lia]. }
  split; [apply rne_nonneg; lia|].
  pose proof (rne_spec a b Hb) as [R1 R2].
  assert (HB : 0 < inject_Z b) by (apply inject_Z_pos; exact Hb).
  rewrite inject_Z_mult in HA. change (inject_Z 1) with 1 in HA.
  change (inject_Z 10) with (10 # 1) in HA.
  set (T := inject_Z (rne a b)) in *. set (A := inject_Z a) in *.
  set (B := inject_Z b) in *. set (M := inject_Z (f_mant x)) in *.
  set (P := pow2 (f_exp x)) in *. clearbody T A B M P.
  split.
  - apply (Qmult_le_r _ _ B HB). nra.
  - apply (Qmult_le_r _ _ B HB). nra.
Qed.

End SizeFacts.

Module SizeStrings.
Import Size.

Local Abbreviation digitb x := (Bytes.in_range 48 57 (Bytes.bn x)).
Local Abbreviation dstep := (fun a (x : Byte.byte) => a * 10 + (Z.of_nat (Bytes.bn x) - 48)).

Lemma digit_byte_spec (v : Z) : 0 <= v <= 9 ->
  digitb (digit_byte v) = true /\ Z.of_nat (Bytes.bn (digit_byte v)) - 48 = v.
Proof.
  intros Hv.
  assert (v = 0 \/ v = 1 \/ v = 2 \/ v = 3 \/ v = 4 \/ v = 5 \/ v = 6 \/ v = 7
          \/ v = 8 \/ v = 9) as Hc by lia.
  repeat destruct Hc as [-> | Hc]; [..| subst v]; split; reflexivity.
Qed.

Lemma digit_facts (x : Byte.byte) : digitb x = true ->
  Bytes.is_ascii_alphabetic x = false /\ Bytes.ascii_ws (Bytes.bn x) = false /\
  (Bytes.bn x < 128)%nat /\ (Bytes.bn x =? 43)%nat = false /\
  (Bytes.bn x =? 45)%nat = false /\
  digit_val x = Some (Z.of_nat (Bytes.bn x) - 48).
Proof.
  destruct x; vm_compute; intros H; try discriminate H;
    repeat split; auto; lia.
Qed.

Lemma ws_first_low (a b c : nat) : (a < 128)%nat ->
  Bytes.ws2 a b = false /\ Bytes.ws3 a b c = false.
Proof.
  intros Ha. unfold Bytes.ws2, Bytes.ws3.
  repeat match goal with
         | |- context [(a =? ?k)%nat] => rewrite (proj2 (Nat.eqb_neq a k)) by lia
         end.
  split; reflexivity.
Qed.

Lemma ws_last_low (a b c : nat) : (c < 128)%nat ->
  Bytes.ws2 b c = false /\ Bytes.ws3 a b c = false.
Proof.
  intros Hc. unfold Bytes.ws2, Bytes.ws3, Bytes.in_range.
  rewrite (proj2 (Nat.leb_gt 128 c)) by lia.
  repeat match goal with
         | |- context [(c =? ?k)%nat] => rewrite (proj2 (Nat.eqb_neq c k)) by lia
         end.
  split; repeat match goal with |- context [Nat.eqb ?p ?q] => destruct (Nat.eqb p q) end;
    reflexivity.
Qed.

Lemma strip_fwd_solid (x : Byte.byte) (t : list Byte.byte) :
  (Bytes.bn x < 128)%nat -> Bytes.ascii_ws (Bytes.bn x) = false ->
  Bytes.strip_ws_fwd (x :: t) = x :: t.
Proof.
  intros Hx Hws. simpl. rewrite Hws.
  destruct t as [|y [|z t]]; [reflexivity | |].
  - rewrite (proj1 (ws_first_low _ (Bytes.bn y) 0 Hx)). reflexivity.
  - rewrite (proj1 (ws_first_low _ (Bytes.bn y) 0 Hx)).
    rewrite (proj2 (ws_first_low _ (Bytes.bn y) (Bytes.bn z) Hx)). reflexivity.
Qed.

Lemma strip_rev_solid (x : Byte.byte) (t : list Byte.byte) :
  (Bytes.bn x < 128)%nat -> Bytes.ascii_ws (Bytes.bn x) = false ->
  Bytes.strip_ws_rev (x :: t) = x :: t.
Proof.
  intros Hx Hws. simpl. rewrite Hws.
  destruct t as [|y [|z t]]; [reflexivity | |].
  - rewrite (proj1 (ws_last_low 0 (Bytes.bn y) _ Hx)). reflexivity.
  - rewrite (proj1 (ws_last_low 0 (Bytes.bn y) _ Hx)).
    rewrite (proj2 (ws_last_low (Bytes.bn z) (Bytes.bn y) _ Hx)). reflexivity.
Qed.

(** [trim] leaves a string alone whose first and last bytes are ASCII
    non-whitespace. *)
Lemma trim_solid (l m m' : list Byte.byte) (x y : Byte.byte) :
  l = x :: m -> rev l = y :: m' ->
  (Bytes.bn x < 128)%nat -> Bytes.ascii_ws (Bytes.bn x) = false ->
  (Bytes.bn y < 128)%nat -> Bytes.ascii_ws (Bytes.bn y) = false ->
  Bytes.trim (string_of_list_byte l) = string_of_list_byte l.
Proof.
  intros Hl Hr Hx Hwx Hy Hwy. unfold Bytes.trim, Bytes.trim_end.
  rewrite !list_byte_of_string_of_list_byte.
  rewrite Hl, strip_fwd_solid by assumption. rewrite <- Hl.
  rewrite Hr, strip_rev_solid by assumption. rewrite <- Hr, rev_involutive.
  reflexivity.
Qed.

Lemma string_of_list_byte_app (l1 l2 : list Byte.byte) :
  string_of_list_byte (l1 ++ l2) = (string_of_list_byte l1 ++ string_of_list_byte l2)%string.
Proof.
  induction l1 as [|x l1 IH]; [reflexivity|].
  change (String (ascii_of_byte x) (string_of_list_byte (l1 ++ l2))
          = String (ascii_of_byte x) (string_of_list_byte l1 ++ string_of_list_byte l2))%string.
  rewrite IH. reflexivity.
Qed.

Lemma find_alpha_app (ds r : list Byte.byte) :
  Forall (fun x => Bytes.is_ascii_alphabetic x = false) ds ->
  Bytes.find_alpha (ds ++ r) = option_map (Nat.add (List.length ds)) (Bytes.find_alpha r).
Proof.
  induction 1 as [|x ds Hx _ IH]; simpl.
  - destruct (Bytes.find_alpha r); reflexivity.
  - rewrite Hx, IH. destruct (Bytes.find_alpha r); reflexivity.
Qed.

Lemma firstn_app_len (l1 l2 : list Byte.byte) (n : nat) :
  firstn (List.length l1 + n) (l1 ++ l2) = l1 ++ firstn n l2.
Proof. induction l1 as [|x l1 IH]; simpl; [reflexivity | rewrite IH; reflexivity]. Qed.

Lemma skipn_app_len (l1 l2 : list Byte.byte) (n : nat) :
  skipn (List.length l1 + n) (l1 ++ l2) = skipn n l2.
Proof. induction l1 as [|x l1 IH]; simpl; [reflexivity | exact IH]. Qed.

Lemma take_digits_app (ds r : list Byte.byte) (acc : Z) (k : nat) :
  Forall (fun x => digitb x = true) ds ->
  take_digits (ds ++ r) acc k = take_digits r (fold_left dstep ds acc) (k + List.length ds).
Proof.
  intros H. revert acc k. induction H as [|x ds Hx _ IH]; intros acc k; simpl.
  - rewrite Nat.add_0_r. reflexivity.
  - destruct (digit_facts x Hx) as (_ & _ & _ & _ & _ & ->).
    rewrite IH. f_equal. lia.
Qed.

Lemma dec_digits_S (f : nat) (n : Z) (acc : list Byte.byte) :
  dec_digits (S f) n acc =
  if n <? 10 then digit_byte (n mod 10) :: acc
  else dec_digits f (n / 10) (digit_byte (n mod 10) :: acc).
Proof. reflexivity. Qed.

Lemma dec_digits_spec (f : nat) : forall (n : Z) (acc : list Byte.byte),
  0 <= n < 10 ^ Z.of_nat (S f) ->
  exists ds, dec_digits (S f) n acc = ds ++ acc /\ ds <> [] /\
    Forall (fun x => digitb x = true) ds /\ fold_left dstep ds 0 = n.
Proof.
  induction f as [|f IH]; intros n acc Hn.
  - simpl in Hn. simpl. rewrite (proj2 (Z.ltb_lt n 10)) by lia.
    destruct (digit_byte_spec (n mod 10) ltac:(pose proof (Z.mod_pos_bound n 10); lia))
      as [Hd Hv].
    exists [digit_byte (n mod 10)]. split; [reflexivity|]. split; [discriminate|].
    split; [constructor; [exact Hd | constructor]|]. simpl. rewrite Hv.
    rewrite Z.mod_small by lia. lia.
  - rewrite dec_digits_S.
    destruct (digit_byte_spec (n mod 10) ltac:(pose proof (Z.mod_pos_bound n 10); lia))
      as [Hd Hv].
    destruct (n <? 10) eqn:Hlt.
    + apply Z.ltb_lt in Hlt.
      exists [digit_byte (n mod 10)]. split; [reflexivity|]. split; [discriminate|].
      split; [constructor; [exact Hd | constructor]|]. simpl. rewrite Hv.
      rewrite Z.mod_small by lia. lia.
    + apply Z.ltb_ge in Hlt.
      assert (Hq : 0 <= n / 10 < 10 ^ Z.of_nat (S f)).
      { split; [apply Z.div_pos; lia|].
        apply Z.div_lt_upper_bound; [lia|].
        rewrite Nat2Z.inj_succ, Z.pow_succ_r in Hn by lia. lia. }
      destruct (IH (n / 10) (digit_byte (n mod 10) :: acc) Hq) as [ds [E [_ [Hf Hs]]]].
      exists (ds ++ [digit_byte (n mod 10)]). split.
      { rewrite E, <- app_assoc. reflexivity. }
      split; [destruct ds; discriminate|].
      split; [apply Forall_app; split; [exact Hf | constructor; [exact Hd | constructor]]|].
      rewrite fold_left_app, Hs. simpl. rewrite Hv.
      pose proof (Z.div_mod n 10 ltac:(lia)). lia.
Qed.

Lemma dec_string_spec (q : Z) : 0 <= q ->
  exists ds, list_byte_of_string (dec_string q) = ds /\ ds <> [] /\
    Forall (fun x => digitb x = true) ds /\ fold_left dstep ds 0 = q.
Proof.
  intros Hq. unfold dec_string. rewrite list_byte_of_string_of_list_byte.
  assert (Hb : 0 <= q < 10 ^ Z.of_nat (S (Z.to_nat (Z.log2 q)))).
  { split; [exact Hq|]. pose proof (Z.log2_nonneg q).
    rewrite Nat2Z.inj_succ, Z2Nat.id by lia.
    destruct (Z.eq_dec q 0) as [->|Hne]; [apply Z.pow_pos_nonneg; lia|].
    pose proof (Z.log2_spec q ltac:(lia)) as [_ H2].
    eapply Z.lt_le_trans; [exact H2|]. apply Z.pow_le_mono_l. lia. }
  destruct (dec_digits_spec _ q [] Hb) as [ds [E H]].
  exists ds. rewrite E, app_nil_r. split; [reflexivity | exact H].
Qed.

End SizeStrings.

Module SizeStrings2.
Import Size SizeStrings.

Local Abbreviation digitb x := (Bytes.in_range 48 57 (Bytes.bn x)).
Local Abbreviation dstep := (fun a (x : Byte.byte) => a * 10 + (Z.of_nat (Bytes.bn x) - 48)).

Lemma parse_f64_tenths (ds : list Byte.byte) (d : Byte.byte) :
  ds <> [] -> Forall (fun x => digitb x = true) ds -> digitb d = true ->
  parse_f64 (string_of_list_byte (ds ++ ["."%byte; d]))
  = Some (f64_of_frac false (fold_left dstep ds 0 * 10 + (Z.of_nat (Bytes.bn d) - 48)) 10).
Proof.
  intros Hne Hf Hd. unfold parse_f64. rewrite list_byte_of_string_of_list_byte.
  destruct ds as [|x ds']; [congruence|].
  pose proof (Forall_inv Hf) as Hx. destruct (digit_facts x Hx) as (_ & _ & _ & H43 & H45 & _).
  destruct (digit_facts d Hd) as (_ & _ & _ & _ & _ & Hdv).
  change ((x :: ds') ++ ["."%byte; d]) with (x :: (ds' ++ ["."%byte; d])).
  cbv beta iota. rewrite H43, H45. cbv beta iota.
  change (x :: (ds' ++ ["."%byte; d])) with ((x :: ds') ++ ["."%byte; d]).
  rewrite take_digits_app by exact Hf.
  cbn -[f64_of_frac Bytes.bn digit_val].
  change (digit_val "."%byte) with (@None Z).
  cbn -[f64_of_frac Bytes.bn digit_val]. rewrite Hdv.
  change (Bytes.bn "."%byte) with 46%nat.
  cbn -[f64_of_frac Bytes.bn]. reflexivity.
Qed.


Lemma byte_solid_B : (Bytes.bn "B"%byte < 128)%nat /\ Bytes.ascii_ws (Bytes.bn "B"%byte) = false.
Proof. split; [unfold Bytes.bn; simpl; lia | reflexivity]. Qed.

(** Parsing the [{:.1}{unit}] text [format_size] prints. *)
Lemma parse_tenths (q dv k : Z) (unit : string) :
  0 <= q -> 0 <= dv <= 9 ->
  (unit = "KB"%string /\ k = 10 \/ unit = "MB"%string /\ k = 20 \/
   unit = "GB"%string /\ k = 30) ->
  parse_file_size (dec_string q ++ "." ++ string_of_list_byte [digit_byte dv] ++ unit)%string
  = Ok (f64_to_u64 (mul_pow2 (f64_of_frac false (q * 10 + dv) 10) k)).
Proof.
  intros Hq Hdv0 Hu.
  destruct (dec_string_spec q Hq) as [ds [Hds [Hne [Hf Hv]]]].
  destruct (digit_byte_spec dv Hdv0) as [Hd Hdv].
  set (d := digit_byte dv) in *. clearbody d.
  destruct ds as [|x ds']; [congruence|].
  pose proof (Forall_inv Hf) as Hx.
  destruct (digit_facts x Hx) as (Hax & Hwx & Hlx & _).
  destruct (digit_facts d Hd) as (Had & Hwd & Hld & _).
  assert (Hs : (dec_string q ++ "." ++ string_of_list_byte [d] ++ unit)%string
               = string_of_list_byte ((x :: ds') ++ ["."%byte; d] ++ list_byte_of_string unit)).
  { rewrite !string_of_list_byte_app, <- Hds, !string_of_list_byte_of_string. reflexivity. }
  rewrite Hs. clear Hs.
  assert (Hna : Forall (fun y => Bytes.is_ascii_alphabetic y = false) (x :: ds')).
  { eapply Forall_impl; [exact Hf|]. intros y Hy. exact (proj1 (digit_facts y Hy)). }
  destruct byte_solid_B as [HlB HwB].
  destruct Hu as [[-> ->] | [[-> ->] | [-> ->]]];
  match goal with
  | |- context [list_byte_of_string ?u] =>
      let v := eval vm_compute in (list_byte_of_string u) in
      change (list_byte_of_string u) with v
  end;
  match goal with
  | |- context [[?U; "B"%byte]] =>
      unfold parse_file_size;
      rewrite (trim_solid ((x :: ds') ++ ["."%byte; d] ++ [U; "B"%byte])
                 (ds' ++ ["."%byte; d] ++ [U; "B"%byte]) _ x "B"%byte
                 eq_refl ltac:(rewrite rev_app_distr; reflexivity) Hlx Hwx HlB HwB);
      rewrite list_byte_of_string_of_list_byte;
      rewrite (find_alpha_app _ _ Hna);
      change (Bytes.find_alpha (["."%byte; d] ++ [U; "B"%byte]))
        with (if Bytes.is_ascii_alphabetic "."%byte then Some 0%nat
              else option_map S (if Bytes.is_ascii_alphabetic d then Some 0%nat
                                 else option_map S (Bytes.find_alpha [U; "B"%byte])));
      rewrite Had;
      change (Bytes.is_ascii_alphabetic "."%byte) with false;
      change (Bytes.find_alpha [U; "B"%byte]) with (Some 0%nat);
      cbv beta iota; cbn [option_map]; cbv beta iota;
      rewrite firstn_app_len, skipn_app_len;
      change (firstn 2 (["."%byte; d] ++ [U; "B"%byte])) with ["."%byte; d];
      change (skipn 2 (["."%byte; d] ++ [U; "B"%byte])) with [U; "B"%byte];
      rewrite (trim_solid ((x :: ds') ++ ["."%byte; d]) (ds' ++ ["."%byte; d]) _ x d
                 eq_refl ltac:(rewrite rev_app_distr; reflexivity) Hlx Hwx Hld Hwd);
      rewrite (parse_f64_tenths _ d Hne Hf Hd);
      rewrite Hv, Hdv;
      reflexivity
  end.
Qed.

End SizeStrings2.

Module SizeRoundTrip.
Import Size SizeFacts SizeStrings2.

Local Open Scope Q_scope.

Lemma f64_of_u64_spec (b : Z) : (0 <= b)%Z ->
  f_neg (f64_of_u64 b) = false /\ (0 <= f_mant (f64_of_u64 b))%Z /\
  inject_Z b - inject_Z b * eps53 <= f64_val (f64_of_u64 b) /\
  f64_val (f64_of_u64 b) <= inject_Z b + inject_Z b * eps53.
Proof.
  intros Hb. unfold f64_of_u64.
  destruct (f64_of_frac_spec b 1 Hb ltac:(lia)) as (H1 & H2 & H3 & H4).
  change (inject_Z 1) with 1 in H3, H4.
  rewrite Qmult_1_l in H3, H4.
  split; [exact H1|]. split; [exact H2|]. split; assumption.
Qed.

(** One unit branch of [format_size]: the printed tenths parse back to
    within half a displayed tenth of the unit, one byte of truncation and
    a relative [2^-51] of double rounding. *)
Lemma tenths_roundtrip (b k : Z) (unit : string) :
  (unit = "KB"%string /\ k = 10%Z \/ unit = "MB"%string /\ k = 20%Z \/
   unit = "GB"%string /\ k = 30%Z) ->
  (2 ^ k <= b <= U64_MAX)%Z ->
  exists r, parse_file_size (fmt_tenths b k unit) = Ok r /\
    -(inject_Z (2 ^ k) * (1 # 20) + 1 + inject_Z b * (1 # 2251799813685248))
      <= inject_Z r - inject_Z b /\
    inject_Z r - inject_Z b
      <= inject_Z (2 ^ k) * (1 # 20) + 1 + inject_Z b * (1 # 2251799813685248).
Proof.
  intros Hu Hb.
  assert (Hk : (0 <= k)%Z) by (destruct Hu as [[_ ->]|[[_ ->]|[_ ->]]]; lia).
  assert (Hb0 : (0 <= b)%Z) by (pose proof (Z.pow_nonneg 2 k); lia).
  destruct (f64_of_u64_spec b Hb0) as (Hxn & Hxm & HX1 & HX2).
  set (x := f64_of_u64 b) in *.
  set (x' := mul_pow2 x (- k)).
  assert (Hx'n : f_neg x' = false) by exact Hxn.
  assert (Hx'm : (0 <= f_mant x')%Z) by exact Hxm.
  destruct (round_tenths_spec x' Hx'n Hx'm) as (Ht0 & HT1 & HT2).
  assert (Hv' : f64_val x' == f64_val x * pow2 (- k)) by apply mul_pow2_val.
  rewrite Hv' in HT1, HT2. clear Hv'.
  set (t := round_tenths x') in *.
  assert (Ht : t = (t / 10 * 10 + t mod 10)%Z) by (pose proof (Z.div_mod t 10); lia).
  assert (Hfmt : fmt_tenths b k unit
                 = (dec_string (t / 10) ++ "." ++ string_of_list_byte [digit_byte (t mod 10)]
                    ++ unit)%string) by reflexivity.
  rewrite Hfmt.
  rewrite (parse_tenths (t / 10) (t mod 10) k unit ltac:(apply Z.div_pos; lia)
             ltac:(pose proof (Z.mod_pos_bound t 10); lia) Hu).
  rewrite <- Ht.
  destruct (f64_of_frac_spec t 10 Ht0 ltac:(lia)) as (Hyn & Hym & HY1 & HY2).
  change (inject_Z 10) with (10 # 1) in HY1, HY2.
  set (y := f64_of_frac false t 10) in *.
  destruct (f64_to_u64_spec (mul_pow2 y k) Hyn Hym) as (Hr0 & HR1 & HR2).
  rewrite (mul_pow2_val y k) in HR1, HR2.
  eexists. split; [reflexivity|].
  set (r := f64_to_u64 (mul_pow2 y k)) in *.
  assert (HB1 : inject_Z (2 ^ k) <= inject_Z b) by (apply Zle_Q; lia).
  assert (HB2 : inject_Z b <= inject_Z U64_MAX) by (apply Zle_Q; lia).
  assert (HT0 : 0 <= inject_Z t) by (apply (Zle_Q 0); exact Ht0).
  assert (HR0 : inject_Z r <= inject_Z U64_MAX) by (apply Zle_Q; lia).
  unfold eps53 in *.
  clearbody x x' t y r. clear Hfmt Ht.
  destruct Hu as [[_ ->]|[[_ ->]|[_ ->]]];
  match goal with
  | |- context [inject_Z (2 ^ ?k)] =>
      rewrite (pow2_opp_Z k) in HT1, HT2 by lia;
      rewrite (pow2_Z k) in HR1, HR2 by lia;
      let c := eval vm_compute in (2 ^ k)%Z in
      change (inject_Z (2 ^ k)) with (inject_Z c) in *;
      let p := eval vm_compute in (Z.to_pos c) in
      change (/ inject_Z c) with (1 # p) in *;
      change (inject_Z c) with (c # 1) in *
  end;
  change (inject_Z U64_MAX) with (18446744073709551615 # 1) in *;
  (destruct HR2 as [Hmax | HR2];
   [ subst r; change (inject_Z U64_MAX) with (18446744073709551615 # 1) in *; split; lra
   | split; lra ]).
Qed.


Lemma small_sizes_exact :
  forallb (fun n => match parse_file_size (format_size n) with
                    | Ok r => (r =? n)%Z
                    | Err _ => false
                    end) (map Z.of_nat (seq 0 1024)) = true.
Proof. vm_compute. reflexivity. Qed.

(** C8 (corrected): formatting a byte count [b] (a [u64]) and parsing the
    text back always succeeds, and gives [b] itself below 1 KB. Above, the
    result [r] differs from [b] by at most half a displayed tenth of the
    unit (1/20 of the unit), plus one byte lost by the truncating cast,
    plus a relative [2^-51] of double rounding. *)
Theorem format_parse_roundtrip (b : Z) :
  (0 <= b <= U64_MAX)%Z ->
  exists r, parse_file_size (format_size b) = Ok r /\
    ((b < KB)%Z -> r = b) /\
    Qabs (inject_Z r - inject_Z b)
      <= inject_Z (unit_bytes b) / 20 + 1 + inject_Z b / inject_Z (2 ^ 51).
Proof.
  intros Hb. unfold unit_bytes.
  destruct (GB <=? b)%Z eqn:E1;
    [| destruct (MB <=? b)%Z eqn:E2; [| destruct (KB <=? b)%Z eqn:E3]].
  - apply Z.leb_le in E1.
    destruct (tenths_roundtrip b 30 "GB"%string ltac:(tauto)
                ltac:(change (2 ^ 30)%Z with GB; lia)) as [r [Hp [H1 H2]]].
    exists r. split; [unfold format_size; rewrite (proj2 (Z.leb_le _ _) E1); exact Hp|].
    split; [unfold KB, GB in *; lia|].
    apply Qabs_Qle_condition. exact (conj H1 H2).
  - apply Z.leb_le in E2.
    destruct (tenths_roundtrip b 20 "MB"%string ltac:(tauto)
                ltac:(change (2 ^ 20)%Z with MB; lia)) as [r [Hp [H1 H2]]].
    exists r. split; [unfold format_size; rewrite E1, (proj2 (Z.leb_le _ _) E2); exact Hp|].
    split; [unfold KB, MB in *; lia|].
    apply Qabs_Qle_condition. exact (conj H1 H2).
  - apply Z.leb_le in E3.
    destruct (tenths_roundtrip b 10 "KB"%string ltac:(tauto)
                ltac:(change (2 ^ 10)%Z with KB; lia)) as [r [Hp [H1 H2]]].
    exists r. split; [unfold format_size; rewrite E1, E2, (proj2 (Z.leb_le _ _) E3); exact Hp|].
    split; [lia|].
    apply Qabs_Qle_condition. exact (conj H1 H2).
  - apply Z.leb_gt in E3.
    assert (Hin : In b (map Z.of_nat (seq 0 1024))).
    { apply in_map_iff. exists (Z.to_nat b). split; [lia|].
      apply in_seq. unfold KB in E3. lia. }
    pose proof (proj1 (forallb_forall _ _) small_sizes_exact b Hin) as Hc.
    cbv beta in Hc.
    destruct (parse_file_size (format_size b)) as [r|e] eqn:Ep; [|discriminate].
    apply Z.eqb_eq in Hc. subst r.
    exists b. split; [reflexivity|]. split; [reflexivity|].
    apply Qabs_Qle_condition.
    assert (0 <= inject_Z b) by (apply (Zle_Q 0); lia).
    change (inject_Z 1 / 20) with (1 # 20).
    change (inject_Z b / inject_Z (2 ^ 51)) with (inject_Z b * (1 # 2251799813685248)).
    split; lra.
Qed.

(** C8 fails as stated: 1280 bytes print as [1.2KB], which parses back to
    1228 bytes, 52 bytes off, while half a displayed tenth of a KB is
    51.2 bytes. *)
Lemma roundtrip_1280 :
  format_size 1280 = "1.2KB"%string /\
  parse_file_size (format_size 1280) = Ok 1228%Z /\
  (KB < 20 * Z.abs (1228 - 1280))%Z.
Proof. split; [|split]; vm_compute; reflexivity. Qed.

Lemma format_parse_roundtrip_witness :
  (0 <= 1280 <= U64_MAX)%Z /\
  exists r, parse_file_size (format_size 1280) = Ok r /\
    ((1280 < KB)%Z -> r = 1280%Z) /\
    Qabs (inject_Z r - inject_Z 1280)
      <= inject_Z (unit_bytes 1280) / 20 + 1 + inject_Z 1280 / inject_Z (2 ^ 51).
Proof.
  split; [unfold U64_MAX; lia|].
  apply format_parse_roundtrip. unfold U64_MAX; lia.
Defined.

End SizeRoundTrip.

(* ------------------------------------------------------------------ *)
(** * Configuration: credential priority and layering                 *)
(* ------------------------------------------------------------------ *)

Module ConfigFacts.
Import Config Fixtures.

Lemma resolve_token_env_only (env env' : Env) backends token_store profile_name :
  env' "SLAFLING_TOKEN" = env "SLAFLING_TOKEN" ->
  resolve_token env' backends token_store profile_name
  = resolve_token env backends token_store profile_name.
Proof. intros H. unfold resolve_token. rewrite H. reflexivity. Qed.

(** C7: when SLAFLING_TOKEN is set to a non-empty value, [resolve_token]
    returns it whatever the backends hold (they are not consulted); when
    it is unset or empty and the backend selected by [token_store]
    ("keychain" or "file") holds no token, it fails with the
    token-not-configured error. *)
Theorem resolve_token_priority (env : Env) (backends : TokenBackends)
    (token_store : string) (profile_name : option string) :
  (forall t, env "SLAFLING_TOKEN" = Some t -> t <> ""%string ->
     forall backends' : TokenBackends,
       resolve_token env backends' token_store profile_name = Ok t) /\
  ((env "SLAFLING_TOKEN" = None \/ env "SLAFLING_TOKEN" = Some ""%string) ->
   ((token_store = "keychain"%string /\ keychain_get_token backends profile_name = Ok None)
    \/ (token_store = "file"%string /\ file_get_token backends profile_name = Ok None)) ->
   resolve_token env backends token_store profile_name = Err TokenNotConfigured).
Proof.
  split.
  - intros t Henv Hne backends'. unfold resolve_token. rewrite Henv.
    destruct (String.eqb_spec t ""); [contradiction | reflexivity].
  - intros Henv Hstore.
    assert (Hb : from_backend backends token_store profile_name = Err TokenNotConfigured).
    { unfold from_backend.
      destruct Hstore as [[-> Hk] | [-> Hf]].
      - rewrite Hk. reflexivity.
      - rewrite Hf. reflexivity. }
    unfold resolve_token.
    destruct Henv as [-> | ->]; [exact Hb | exact Hb].
Qed.

(** C1 (as amended): in the layered (non-headless) resolution the
    environment only matters through SLAFLING_TOKEN, the credential; the
    destination, the size limit and the confirmation flag of a successful
    resolution come from the selected profile when it sets them and
    otherwise from the default section (confirm defaulting to false, the
    size to 100 MiB); a named profile missing from the configuration is
    an error. *)
Theorem resolve_layered (is_macos : bool) (env : Env) (backends : TokenBackends)
    (c : ConfigFile) (p : option string) :
  (forall env' : Env, env' "SLAFLING_TOKEN" = env "SLAFLING_TOKEN" ->
     resolve is_macos env' backends c p = resolve is_macos env backends c p) /\
  (forall name, p = Some name -> profiles c !! name = None ->
     exists e, resolve is_macos env backends c p = Err e) /\
  (forall r, resolve is_macos env backends c p = Ok r ->
     let prof := match p with None => None | Some name => profiles c !! name end in
     Some (channel r) = pick (prof ≫= p_channel) (d_channel (default c)) /\
     Some (confirm r) = pick (prof ≫= p_confirm) (pick (d_confirm (default c)) (Some false)) /\
     match pick (prof ≫= p_max_file_size) (d_max_file_size (default c)) with
     | Some s => Size.parse_file_size s = Ok (max_file_size r)
     | None => max_file_size r = Size.DEFAULT_MAX_FILE_SIZE
     end).
Proof.
  split; [| split].
  - intros env' H. unfold resolve. rewrite (resolve_token_env_only env env'); auto.
  - intros name -> Hnone. unfold resolve.
    destruct (resolve_token _ _ _ _) as [t | e]; simpl; [| eauto].
    unfold layer. rewrite Hnone. simpl. eauto.
  - intros r Hr. unfold resolve in Hr.
    destruct (resolve_token _ _ _ _) as [t | e]; simpl in Hr; [| discriminate].
    unfold layer in Hr.
    destruct p as [name |]; simpl.
    + destruct (profiles c !! name) as [prof |] eqn:Hprof; simpl in Hr; [| discriminate].
      destruct (p_channel prof) as [ch |] eqn:Hch;
      destruct (d_channel (default c)) as [dch |] eqn:Hdch; simpl in Hr;
      try discriminate;
      try (destruct (negb (String.eqb ch "")) eqn:He; simpl in Hr; [| discriminate]);
      try (destruct (negb (String.eqb dch "")) eqn:He'; simpl in Hr; [| discriminate]);
      destruct (p_max_file_size prof) as [pm |] eqn:Hpm;
      destruct (d_max_file_size (default c)) as [dm |] eqn:Hdm; simpl in Hr;
      try (destruct (Size.parse_file_size _) as [z | e] eqn:Hz; simpl in Hr; [| discriminate]);
      injection Hr as <-; simpl; rewrite ?Hch, ?Hdch, ?Hpm, ?Hdm; simpl;
      (split; [reflexivity | split;
        [destruct (p_confirm prof); destruct (d_confirm (default c)); reflexivity
        | first [exact Hz | reflexivity]]]).
    + destruct (d_channel (default c)) as [dch |] eqn:Hdch; simpl in Hr; [| discriminate].
      destruct (negb (String.eqb dch "")) eqn:He; simpl in Hr; [| discriminate].
      destruct (d_max_file_size (default c)) as [dm |] eqn:Hdm; simpl in Hr;
      try (destruct (Size.parse_file_size _) as [z | e] eqn:Hz; simpl in Hr; [| discriminate]);
      injection Hr as <-; simpl; rewrite ?Hdch, ?Hdm; simpl;
      (split; [reflexivity | split;
        [destruct (d_confirm (default c)); reflexivity
        | first [exact Hz | reflexivity]]]).
Qed.

(** C1 does not hold as stated: with SLAFLING_CHANNEL set in the
    environment, the layered resolution still takes the channel of the
    configuration file. *)
Lemma resolve_ignores_channel_env :
  env_of [("SLAFLING_TOKEN", "xoxb-env"); ("SLAFLING_CHANNEL", "#from-env")]%string
    "SLAFLING_CHANNEL"%string = Some "#from-env"%string /\
  resolve false
    (env_of [("SLAFLING_TOKEN", "xoxb-env"); ("SLAFLING_CHANNEL", "#from-env")]%string)
    no_tokens cfg_general None
  = Ok (mkResolvedConfig "xoxb-env" "#general" 10485760 false).
Proof. split; vm_compute; reflexivity. Qed.

Lemma resolve_token_priority_witness :
  resolve_token (env_of [("SLAFLING_TOKEN", "xoxb-env")]%string) stored_tokens
    "file" None = Ok "xoxb-env"%string /\
  resolve_token (env_of [("SLAFLING_TOKEN", "")]%string) no_tokens
    "keychain" None = Err TokenNotConfigured.
Proof.
  split.
  - apply (proj1 (resolve_token_priority (env_of [("SLAFLING_TOKEN", "xoxb-env")]%string)
                    stored_tokens "file" None) "xoxb-env"%string);
      [reflexivity | discriminate].
  - apply (proj2 (resolve_token_priority (env_of [("SLAFLING_TOKEN", "")]%string)
                    no_tokens "keychain" None)).
    + right. reflexivity.
    + left. split; reflexivity.
Defined.

Lemma resolve_layered_witness :
  resolve false (env_of [("SLAFLING_TOKEN", "t"); ("SLAFLING_CHANNEL", "#x")]%string)
    no_tokens cfg_general (Some "ops"%string)
  = resolve false (env_of [("SLAFLING_TOKEN", "t")]%string) no_tokens cfg_general
      (Some "ops"%string) /\
  (exists e, resolve false (env_of [("SLAFLING_TOKEN", "t")]%string) no_tokens cfg_general
               (Some "dev"%string) = Err e) /\
  Some "#ops"%string = pick (Some "#ops"%string) (Some "#general"%string) /\
  Some true = pick (Some true) (pick None (Some false)) /\
  Size.parse_file_size "10MB" = Ok 10485760.
Proof.
  pose proof (resolve_layered false (env_of [("SLAFLING_TOKEN", "t")]%string) no_tokens
                cfg_general (Some "ops"%string)) as [H1 [_ H3]].
  pose proof (resolve_layered false (env_of [("SLAFLING_TOKEN", "t")]%string) no_tokens
                cfg_general (Some "dev"%string)) as [_ [H2 _]].
  split; [| split; [| exact (H3 (mkResolvedConfig "t" "#ops" 10485760 true)
                               ltac:(vm_compute; reflexivity))]].
  - apply H1. reflexivity.
  - apply (H2 "dev"%string); [reflexivity | vm_compute; reflexivity].
Defined.

End ConfigFacts.

(* ------------------------------------------------------------------ *)
(** * The three-step upload                                            *)
(* ------------------------------------------------------------------ *)

Module UploadFacts.
Import Slack.

(** C3: [upload_file_bytes] sends the slot request first, then (only if
    a slot was obtained) the bytes to the returned URL, then (only if the
    transfer succeeded) the finalize request for the returned file id;
    each request is sent at most once, a failing step ends the upload
    with an error attributed to that step, and in step 1 a response with
    ok = false or without upload_url or file_id is a step-1 error. *)
Theorem upload_three_steps (net : Net) (tok ch fname : string)
    (data : list Byte.byte) (c : option string) :
  let len := Z.of_nat (List.length data) in
  let run := upload_file_bytes net tok ch fname data c in
  ((exists e, run = ([EvGetUploadUrl tok fname len], Err e)
              /\ upload_step e = Some 1%nat) \/
   (exists url fid,
      get_upload_url net tok fname len = ([EvGetUploadUrl tok fname len], Ok (url, fid)) /\
      ((exists e, run = ([EvGetUploadUrl tok fname len; EvUploadContent url data], Err e)
                  /\ upload_step e = Some 2%nat) \/
       (exists r, run = ([EvGetUploadUrl tok fname len; EvUploadContent url data;
                          EvCompleteUpload tok fid fname ch c], r)
                  /\ (r = Ok tt \/ exists e, r = Err e /\ upload_step e = Some 3%nat))))) /\
  (forall body, get_upload_url_api net tok fname len = GetUrlBody body ->
     gu_ok body = false \/ gu_upload_url body = None \/ gu_file_id body = None ->
     exists e, run = ([EvGetUploadUrl tok fname len], Err e) /\ upload_step e = Some 1%nat).
Proof.
  intros len run. subst run.
  unfold upload_file_bytes, get_upload_url, upload_file_content, complete_upload,
         bind, call, ret, fail.
  fold len.
  split.
  - destruct (get_upload_url_api net tok fname len) as [| | body]; simpl.
    + left. eexists; split; reflexivity.
    + left. eexists; split; reflexivity.
    + destruct (gu_ok body); simpl; [| left; eexists; split; reflexivity].
      destruct (gu_upload_url body) as [url |]; simpl; [| left; eexists; split; reflexivity].
      destruct (gu_file_id body) as [fid |]; simpl; [| left; eexists; split; reflexivity].
      right. exists url, fid. split; [reflexivity |].
      destruct (upload_api net url data); simpl;
        [| left; eexists; split; reflexivity].
      right.
      destruct (complete_upload_api net tok fid fname ch c) as [| | ok err]; simpl;
        [eexists; split; [reflexivity | right; eexists; split; reflexivity] ..|].
      destruct ok; simpl; eexists; (split; [reflexivity |]);
        [left; reflexivity | right; eexists; split; reflexivity].
  - intros body Hbody Hbad. rewrite Hbody. simpl.
    destruct Hbad as [Hok | [Hu | Hf]].
    + rewrite Hok. simpl. eexists; split; reflexivity.
    + destruct (gu_ok body); simpl; [rewrite Hu | ]; simpl; eexists; split; reflexivity.
    + destruct (gu_ok body); simpl; [| eexists; split; reflexivity].
      destruct (gu_upload_url body); simpl; [rewrite Hf |]; simpl; eexists; split; reflexivity.
Qed.

End UploadFacts.

Module UploadWitness.
Import Slack Fixtures.

Lemma upload_three_steps_witness :
  exists e, upload_file_bytes net_no_slot "xoxb-1" "C123" "a.txt" ["a"%byte] None
            = ([EvGetUploadUrl "xoxb-1" "a.txt" 1], Err e) /\ upload_step e = Some 1%nat.
Proof.
  exact (proj2 (UploadFacts.upload_three_steps net_no_slot "xoxb-1" "C123" "a.txt"
                  ["a"%byte] None) _ eq_refl (or_introl eq_refl)).
Defined.

End UploadWitness.

(* ------------------------------------------------------------------ *)
(** * Which payload is sent                                            *)
(* ------------------------------------------------------------------ *)

Module InputFacts.
Import Slack Main.

(** C4: both flags requesting stdin is the ambiguous-stdin error; no flag
    at all with a terminal stdin is the no-input error; and every case
    that reads stdin (an empty text flag, an empty file flag, or no flag)
    fails when stdin is a terminal. *)
Theorem input_errors (w : World) (send : SendArgs) :
  (text send = Some ""%string -> file send = Some ""%string ->
     resolve_inputs w send = Err AmbiguousStdin) /\
  (text send = None -> file send = None -> stdin_is_terminal w = true ->
     resolve_inputs w send = Err NoInputProvided) /\
  (stdin_is_terminal w = true ->
     text send = Some ""%string \/ file send = Some ""%string
     \/ (text send = None /\ file send = None) ->
     exists e, resolve_inputs w send = Err e).
Proof.
  unfold resolve_inputs.
  split; [| split].
  - intros -> ->. reflexivity.
  - intros -> -> ->. reflexivity.
  - intros Hterm Hcase.
    destruct Hcase as [Ht | [Hf | [Ht Hf]]].
    + rewrite Ht. simpl.
      destruct (file send) as [path |]; simpl.
      * destruct (String.eqb path "") eqn:Hp; simpl; [eauto |].
        destruct (read_file w path); simpl; [| eauto].
        destruct (file_name path); simpl; [| eauto].
        rewrite Hterm. eauto.
      * rewrite Hterm. eauto.
    + rewrite Hf. simpl.
      destruct (text send) as [t |]; simpl.
      * destruct (String.eqb t "") eqn:Ht; simpl; [eauto |].
        rewrite Hterm. eauto.
      * rewrite Hterm. eauto.
    + rewrite Ht, Hf, Hterm. eauto.
Qed.

Lemma stdin_text_ok (w : World) (buf : string) :
  stdin_text w = Ok buf ->
  stdin_read_ok w = true /\
  exists raw, Bytes.read_to_string (stdin_bytes w) = Some raw /\ buf = Bytes.trim_end raw.
Proof.
  unfold stdin_text, stdin_read_all. destruct (stdin_read_ok w); [| discriminate].
  cbn [rbind]. destruct (Bytes.read_to_string (stdin_bytes w)) as [raw |]; [| discriminate].
  intros H. injection H as <-. eauto.
Qed.

(** C9 (as amended): an empty text value is a request for stdin: the
    resolution fails on a terminal stdin, and otherwise the text it
    yields is stdin's content with trailing whitespace removed (empty only
    when stdin holds nothing but whitespace). An empty file path is a
    request for stdin as well: the payload is stdin's raw bytes under the
    filename argument (an error when stdin is a terminal or reading it
    fails), and the file system is never read. *)
Theorem empty_arg_reads_stdin (w : World) (send : SendArgs) :
  (text send = Some ""%string -> file send <> Some ""%string ->
     (stdin_is_terminal w = true -> exists e, resolve_inputs w send = Err e) /\
     (forall txt fd, resolve_inputs w send = Ok (txt, fd) ->
        stdin_is_terminal w = false /\ stdin_read_ok w = true /\
        exists raw, Bytes.read_to_string (stdin_bytes w) = Some raw
                    /\ txt = Some (Bytes.trim_end raw))) /\
  (file send = Some ""%string -> text send <> Some ""%string ->
     (forall rf, resolve_inputs (mkWorld (stdin_is_terminal w) (stdin_bytes w)
                                         (stdin_read_ok w) rf (stderr_flush_ok w)) send
                 = resolve_inputs w send) /\
     resolve_inputs w send
     = (if stdin_is_terminal w then Err FileStdinIsTerminal
        else if stdin_read_ok w then Ok (text send, Some (filename send, stdin_bytes w))
        else Err StdinReadFailed)).
Proof.
  split.
  - intros Ht Hf. split.
    + intros Hterm. apply (proj2 (proj2 (input_errors w send))); auto.
    + intros txt fd H. unfold resolve_inputs in H. rewrite Ht in H. simpl in H.
      destruct (file send) as [path |] eqn:Hfile.
      * assert (Hp : String.eqb path "" = false).
        { destruct (String.eqb_spec path ""); [subst; contradiction | reflexivity]. }
        rewrite !Hp in H. simpl in H. rewrite ?Hp in H. simpl in H.
        destruct (read_file w path); simpl in H; [| discriminate H].
        destruct (file_name path); simpl in H; [| discriminate H].
        destruct (stdin_is_terminal w) eqn:Hterm; [discriminate H |].
        destruct (stdin_text w) as [buf |] eqn:Hs; simpl in H; [| discriminate H].
        injection H as <- _.
        split; [reflexivity |].
        destruct (stdin_text_ok w buf Hs) as [Hok [raw [H1 H2]]]. subst.
        split; [exact Hok | eauto].
      * simpl in H.
        destruct (stdin_is_terminal w) eqn:Hterm; [discriminate H |].
        destruct (stdin_text w) as [buf |] eqn:Hs; simpl in H; [| discriminate H].
        injection H as <- _.
        split; [reflexivity |].
        destruct (stdin_text_ok w buf Hs) as [Hok [raw [H1 H2]]]. subst.
        split; [exact Hok | eauto].
  - intros Hf Ht.
    assert (Hgen : forall w' : World,
               stdin_is_terminal w' = stdin_is_terminal w ->
               stdin_bytes w' = stdin_bytes w ->
               stdin_read_ok w' = stdin_read_ok w ->
               resolve_inputs w' send
               = (if stdin_is_terminal w then Err FileStdinIsTerminal
                  else if stdin_read_ok w then Ok (text send, Some (filename send, stdin_bytes w))
                  else Err StdinReadFailed)).
    { intros w' H1 H2 H3. unfold resolve_inputs, stdin_read_all. rewrite Hf. rewrite H1, H2, H3.
      destruct (text send) as [t |] eqn:Htext.
      - assert (Hne : String.eqb t "" = false).
        { destruct (String.eqb_spec t ""); [subst; contradiction | reflexivity]. }
        simpl. rewrite Hne. simpl.
        destruct (stdin_is_terminal w), (stdin_read_ok w); reflexivity.
      - simpl. destruct (stdin_is_terminal w), (stdin_read_ok w); reflexivity. }
    split.
    + intros rf. rewrite (Hgen w eq_refl eq_refl eq_refl). apply Hgen; reflexivity.
    + apply Hgen; reflexivity.
Qed.

(** C5: with a text value and a file path, the file is read from the
    path (an unreadable path is the file-read error), the payload is the
    file named by the path's last segment together with the text, and the
    send then uploads that file with the text as its comment when the text
    is non-empty and with no comment when it is empty. *)
Theorem text_with_file (w : World) (net : Net) (send : SendArgs)
    (resolved : Config.ResolvedConfig) (p : string) :
  file send = Some p -> p <> ""%string ->
  (read_file w p = None -> resolve_inputs w send = Err (FileReadFailed p)) /\
  (forall data name, read_file w p = Some data -> file_name p = Some name ->
     (forall t, text send = Some t -> t <> ""%string ->
        resolve_inputs w send = Ok (Some t, Some (name, data))) /\
     (forall txt fd, resolve_inputs w send = Ok (txt, fd) ->
        fd = Some (name, data) /\
        (confirm_gate w send resolved = Ok tt ->
         Z.of_nat (List.length data) <= Config.max_file_size resolved ->
         run_send_with_resolved w net send resolved
         = upload_file_bytes net (Config.token resolved) (Config.channel resolved)
                             name data (upload_comment txt)) /\
        (txt = Some ""%string -> upload_comment txt = None) /\
        (forall t, txt = Some t -> t <> ""%string -> upload_comment txt = Some t))).
Proof.
  intros Hf Hp.
  assert (Hpe : String.eqb p "" = false).
  { destruct (String.eqb_spec p ""); [contradiction | reflexivity]. }
  assert (Hamb : is_empty_arg (text send) && is_empty_arg (file send) = false).
  { rewrite Hf. simpl. rewrite Hpe. apply andb_false_r. }
  split.
  - intros Hr. unfold resolve_inputs. rewrite Hamb.
    destruct (text send) as [t |]; rewrite Hf; simpl; rewrite Hpe, Hr; reflexivity.
  - intros data name Hr Hn. split.
    + intros t Ht Hne.
      assert (Hte : String.eqb t "" = false).
      { destruct (String.eqb_spec t ""); [contradiction | reflexivity]. }
      unfold resolve_inputs. rewrite Hamb, Ht, Hf. simpl.
      rewrite Hpe, Hr, Hn. simpl. rewrite Hte. reflexivity.
    + intros txt fd Hres.
      assert (Hfd : fd = Some (name, data)).
      { revert Hres. unfold resolve_inputs. rewrite Hamb.
        destruct (text send) as [t |]; rewrite Hf; simpl; rewrite Hpe, Hr, Hn; simpl.
        - destruct (String.eqb t ""); simpl.
          + destruct (stdin_is_terminal w); [discriminate |].
            destruct (stdin_text w); simpl; [| discriminate].
            intros H; injection H as _ <-; reflexivity.
          + intros H; injection H as _ <-; reflexivity.
        - intros H; injection H as _ <-; reflexivity. }
      subst fd. split; [reflexivity | split; [| split]].
      * intros Hgate Hlen. unfold run_send_with_resolved. rewrite Hres. simpl.
        rewrite Hgate. simpl.
        assert (Hlt : (Config.max_file_size resolved <? Z.of_nat (List.length data)) = false)
          by (apply Z.ltb_ge; lia).
        rewrite Hlt.
        destruct (upload_file_bytes _ _ _ _ _ _). reflexivity.
      * intros ->. reflexivity.
      * intros t -> Hne. simpl.
        destruct (String.eqb_spec t ""); [contradiction | reflexivity].
Qed.

End InputFacts.

Module InputWitness.
Import Slack Main Fixtures InputFacts.

Lemma input_errors_witness :
  resolve_inputs (mkWorld false newline true fs_report true)
                 (mkSendArgs (Some "") (Some "") "stdin" false) = Err AmbiguousStdin /\
  resolve_inputs (mkWorld true [] true fs_report true)
                 (mkSendArgs None None "stdin" false) = Err NoInputProvided /\
  (exists e, resolve_inputs (mkWorld true [] true fs_report true)
                            (mkSendArgs (Some "") None "stdin" false) = Err e).
Proof.
  split; [| split].
  - apply (proj1 (input_errors (mkWorld false newline true fs_report true)
                               (mkSendArgs (Some "") (Some "") "stdin" false)));
      reflexivity.
  - apply (proj1 (proj2 (input_errors (mkWorld true [] true fs_report true)
                                      (mkSendArgs None None "stdin" false))));
      reflexivity.
  - apply (proj2 (proj2 (input_errors (mkWorld true [] true fs_report true)
                                      (mkSendArgs (Some "") None "stdin" false)))).
    + reflexivity.
    + left. reflexivity.
Defined.

(** C9 does not hold as stated: [-t] with a stdin holding only a newline
    resolves to the empty text. *)
Lemma empty_stdin_gives_empty_text :
  resolve_inputs (mkWorld false newline true fs_report true)
                 (mkSendArgs (Some "") None "stdin" false) = Ok (Some ""%string, None).
Proof. vm_compute. reflexivity. Qed.

Lemma empty_arg_reads_stdin_witness :
  (stdin_is_terminal (mkWorld false newline true fs_report true) = false /\
   stdin_read_ok (mkWorld false newline true fs_report true) = true /\
   exists raw, Bytes.read_to_string newline = Some raw
               /\ Some ""%string = Some (Bytes.trim_end raw)) /\
  resolve_inputs (mkWorld false ["a"%byte; "b"%byte] true fs_report true)
                 (mkSendArgs None (Some "") "stdin" false)
  = Ok (None, Some ("stdin"%string, ["a"%byte; "b"%byte])) /\
  resolve_inputs (mkWorld false [] false fs_report true)
                 (mkSendArgs None (Some "") "stdin" false)
  = Err StdinReadFailed.
Proof.
  split; [| split].
  - apply (proj2 (proj1 (empty_arg_reads_stdin (mkWorld false newline true fs_report true)
                           (mkSendArgs (Some "") None "stdin" false)) eq_refl
                           ltac:(discriminate)) (Some ""%string) None).
    vm_compute. reflexivity.
  - apply (proj2 (empty_arg_reads_stdin (mkWorld false ["a"%byte; "b"%byte] true fs_report true)
                    (mkSendArgs None (Some "") "stdin" false)) eq_refl ltac:(discriminate)).
  - apply (proj2 (empty_arg_reads_stdin (mkWorld false [] false fs_report true)
                    (mkSendArgs None (Some "") "stdin" false)) eq_refl ltac:(discriminate)).
Defined.

Lemma text_with_file_witness :
  resolve_inputs (mkWorld true [] true fs_report true)
    (mkSendArgs (Some "see attached") (Some "logs/report.txt") "stdin" true)
  = Ok (Some "see attached"%string, Some ("report.txt"%string, ["a"%byte; "b"%byte])) /\
  run_send_with_resolved (mkWorld true [] true fs_report true) net_ok
    (mkSendArgs (Some "see attached") (Some "logs/report.txt") "stdin" true)
    (settings false 100)
  = upload_file_bytes net_ok "xoxb-1" "C123" "report.txt" ["a"%byte; "b"%byte]
                      (upload_comment (Some "see attached"%string)).
Proof.
  pose proof (text_with_file (mkWorld true [] true fs_report true) net_ok
                (mkSendArgs (Some "see attached") (Some "logs/report.txt") "stdin" true)
                (settings false 100) "logs/report.txt" eq_refl ltac:(discriminate))
    as [_ H].
  destruct (H ["a"%byte; "b"%byte] "report.txt"%string eq_refl
              ltac:(vm_compute; reflexivity)) as [H1 H2].
  assert (Hres := H1 "see attached"%string eq_refl ltac:(discriminate)).
  split; [exact Hres |].
  apply (proj2 (H2 _ _ Hres)); [reflexivity | simpl; lia].
Defined.

End InputWitness.

(* ------------------------------------------------------------------ *)
(** * The send command: confirmation, size limit, dispatch             *)
(* ------------------------------------------------------------------ *)

Module SendFacts.
Import Slack Main.

Section Run.
Variables (w : World) (net : Net) (send : SendArgs) (resolved : Config.ResolvedConfig).

Let run := run_send_with_resolved w net send resolved.
Let tok := Config.token resolved.
Let ch := Config.channel resolved.
Let limit := Config.max_file_size resolved.

Lemma run_inputs_err e :
  resolve_inputs w send = Err e -> run = ([], Err e).
Proof. intros H. subst run. unfold run_send_with_resolved, bind, lift. rewrite H. reflexivity. Qed.

Lemma run_gate_err txt fd e :
  resolve_inputs w send = Ok (txt, fd) -> confirm_gate w send resolved = Err e ->
  run = ([], Err e).
Proof.
  intros H G. subst run. unfold run_send_with_resolved, bind, lift. rewrite H, G.
  reflexivity.
Qed.

Lemma run_file txt n d :
  resolve_inputs w send = Ok (txt, Some (n, d)) -> confirm_gate w send resolved = Ok tt ->
  run = (if limit <? Z.of_nat (List.length d) then
           ([], Err (FileTooLarge (Size.format_size (Z.of_nat (List.length d)))
                                  (Size.format_size limit)))
         else upload_file_bytes net tok ch n d (upload_comment txt)).
Proof.
  intros H G. subst run tok ch limit. unfold run_send_with_resolved, bind, lift. rewrite H, G.
  simpl. destruct (_ <? _); [reflexivity |].
  destruct (upload_file_bytes _ _ _ _ _ _). reflexivity.
Qed.

Lemma run_text txt :
  resolve_inputs w send = Ok (txt, None) -> confirm_gate w send resolved = Ok tt ->
  run = (let message := match txt with Some t => t | None => EmptyString end in
         if String.eqb message "" then ([], Err MessageEmpty)
         else post_message net tok ch message).
Proof.
  intros H G. subst run tok ch. unfold run_send_with_resolved, bind, lift. rewrite H, G.
  simpl. destruct (String.eqb _ _); [reflexivity |].
  destruct (post_message _ _ _ _). reflexivity.
Qed.

End Run.

Lemma post_message_trace net tok ch m :
  fst (post_message net tok ch m) = [EvPostMessage tok ch m].
Proof.
  unfold post_message, bind, call, ret, fail. simpl.
  destruct (post_message_api net tok ch m) as [| | ok err]; simpl; try reflexivity.
  destruct ok; reflexivity.
Qed.

Lemma upload_no_post net tok ch n d c tok' ch' m :
  ~ In (EvPostMessage tok' ch' m) (fst (upload_file_bytes net tok ch n d c)).
Proof.
  unfold upload_file_bytes, get_upload_url, upload_file_content, complete_upload,
         bind, call, ret, fail.
  destruct (get_upload_url_api _ _ _ _) as [| | body]; simpl; [intuition discriminate ..|].
  destruct (gu_ok body); simpl; [| intuition discriminate].
  destruct (gu_upload_url body) as [url |]; simpl; [| intuition discriminate].
  destruct (gu_file_id body) as [fid |]; simpl; [| intuition discriminate].
  destruct (upload_api _ _ _); simpl; [| intuition discriminate].
  destruct (complete_upload_api _ _ _ _ _ _) as [| | ok err]; simpl;
    [intuition discriminate .. |].
  destruct ok; simpl; intuition discriminate.
Qed.

Lemma gate_prompted_terminal w send resolved :
  yes send = false -> Config.confirm resolved = true ->
  confirm_gate w send resolved = Ok tt -> stdin_is_terminal w = true.
Proof.
  intros Hy Hc. unfold confirm_gate. rewrite Hy, Hc. simpl.
  destruct (stdin_is_terminal w); simpl; [reflexivity | discriminate].
Qed.

Lemma terminal_text_nonempty w send txt :
  stdin_is_terminal w = true -> resolve_inputs w send = Ok (txt, None) ->
  exists m, txt = Some m /\ m <> ""%string.
Proof.
  intros Hterm H. unfold resolve_inputs in H. rewrite Hterm in H.
  destruct (text send) as [t |] eqn:Htext; destruct (file send) as [p |]; simpl in H;
    repeat match type of H with
           | context [if ?b then _ else _] => destruct b eqn:?; simpl in H
           | context [match ?x with Some _ => _ | None => _ end] => destruct x; simpl in H
           end;
    try discriminate H.
  injection H as <-. exists t. split; [reflexivity |].
  intros ->. discriminate.
Qed.

(** C2 (as amended): a file payload longer than the limit never reaches
    the network: no request is sent and the send fails; once the
    confirmation gate has passed (or is skipped), the failure is the
    file-too-large error carrying the formatted actual size and limit. A
    payload no longer than the limit, in particular one exactly at the
    limit, is handed to the upload. *)
Theorem size_limit_before_network (w : World) (net : Net) (send : SendArgs)
    (resolved : Config.ResolvedConfig) txt n (d : list Byte.byte) :
  resolve_inputs w send = Ok (txt, Some (n, d)) ->
  let len := Z.of_nat (List.length d) in
  let run := run_send_with_resolved w net send resolved in
  (Config.max_file_size resolved < len ->
     fst run = [] /\ (exists e, snd run = Err e) /\
     (confirm_gate w send resolved = Ok tt ->
        snd run = Err (FileTooLarge (Size.format_size len)
                                    (Size.format_size (Config.max_file_size resolved))))) /\
  (len <= Config.max_file_size resolved -> confirm_gate w send resolved = Ok tt ->
     run = upload_file_bytes net (Config.token resolved) (Config.channel resolved)
                             n d (upload_comment txt)).
Proof.
  intros H len run. subst run len. split.
  - intros Hlt.
    destruct (confirm_gate w send resolved) as [[] | e] eqn:G.
    + rewrite (run_file w net send resolved txt n d H G).
      assert (Hb : (Config.max_file_size resolved <? Z.of_nat (List.length d)) = true)
        by (apply Z.ltb_lt; exact Hlt).
      rewrite Hb. simpl. eauto.
    + rewrite (run_gate_err w net send resolved txt (Some (n, d)) e H G). simpl.
      split; [reflexivity | split; [eauto | discriminate]].
  - intros Hle G. rewrite (run_file w net send resolved txt n d H G).
    assert (Hb : (Config.max_file_size resolved <? Z.of_nat (List.length d)) = false)
      by (apply Z.ltb_ge; exact Hle).
    rewrite Hb. reflexivity.
Qed.

(** C6 (as amended): the gate lets the send through when [-y] is given
    or confirmation is off; otherwise a non-terminal stdin is an error, a
    reply (one line read from stdin) that is y or Y once surrounding
    whitespace (the newline included) is trimmed lets it through and any
    other reply is the aborted error; a send stopped at the gate sends no
    request. After an affirmative reply a text is posted with exactly one
    request, and a file within the size limit is handed to one upload,
    while a file above the limit is still rejected by the size check,
    with the file-too-large error and without any request. *)
Theorem confirmation_gate (w : World) (net : Net) (send : SendArgs)
    (resolved : Config.ResolvedConfig) :
  let run := run_send_with_resolved w net send resolved in
  ((yes send = true \/ Config.confirm resolved = false) ->
     confirm_gate w send resolved = Ok tt) /\
  (yes send = false -> Config.confirm resolved = true ->
     (stdin_is_terminal w = false -> confirm_gate w send resolved = Err ConfirmStdinNotTty) /\
     (forall input, stdin_is_terminal w = true -> stderr_flush_ok w = true ->
        stdin_line w = Some input ->
        ((Bytes.trim input = "y"%string \/ Bytes.trim input = "Y"%string) ->
           confirm_gate w send resolved = Ok tt) /\
        (Bytes.trim input <> "y"%string -> Bytes.trim input <> "Y"%string ->
           confirm_gate w send resolved = Err Aborted))) /\
  (forall e, confirm_gate w send resolved = Err e ->
     fst run = [] /\ exists e', snd run = Err e') /\
  (yes send = false -> Config.confirm resolved = true ->
   confirm_gate w send resolved = Ok tt ->
   forall txt fd, resolve_inputs w send = Ok (txt, fd) ->
     match fd with
     | None => exists m, txt = Some m /\ m <> ""%string /\
                 run = post_message net (Config.token resolved) (Config.channel resolved) m /\
                 fst run = [EvPostMessage (Config.token resolved) (Config.channel resolved) m]
     | Some (n, d) =>
         (Z.of_nat (List.length d) <= Config.max_file_size resolved ->
            run = upload_file_bytes net (Config.token resolved) (Config.channel resolved)
                                    n d (upload_comment txt)) /\
         (Config.max_file_size resolved < Z.of_nat (List.length d) ->
            fst run = [] /\
            snd run = Err (FileTooLarge (Size.format_size (Z.of_nat (List.length d)))
                                        (Size.format_size (Config.max_file_size resolved))))
     end).
Proof.
  intros run. subst run. split; [| split; [| split]].
  - intros Hc. unfold confirm_gate.
    destruct Hc as [-> | ->]; [rewrite andb_false_r | ]; reflexivity.
  - intros Hy Hc. unfold confirm_gate. rewrite Hy, Hc. simpl. split.
    + intros ->. reflexivity.
    + intros input -> -> ->. simpl. split.
      * intros [-> | ->]; reflexivity.
      * intros Hny HnY.
        destruct (String.eqb_spec (Bytes.trim input) "y"); [contradiction |].
        destruct (String.eqb_spec (Bytes.trim input) "Y"); [contradiction |].
        reflexivity.
  - intros e G.
    destruct (resolve_inputs w send) as [[txt fd] | e'] eqn:H.
    + rewrite (run_gate_err w net send resolved txt fd e H G). simpl. eauto.
    + rewrite (run_inputs_err w net send resolved e' H). simpl. eauto.
  - intros Hy Hc G txt fd H.
    destruct fd as [[n d] |].
    + split.
      * intros Hle. rewrite (run_file w net send resolved txt n d H G).
        assert (Hb : (Config.max_file_size resolved <? Z.of_nat (List.length d)) = false)
          by (apply Z.ltb_ge; exact Hle).
        rewrite Hb. reflexivity.
      * intros Hlt. rewrite (run_file w net send resolved txt n d H G).
        assert (Hb : (Config.max_file_size resolved <? Z.of_nat (List.length d)) = true)
          by (apply Z.ltb_lt; exact Hlt).
        rewrite Hb. split; reflexivity.
    + pose proof (gate_prompted_terminal w send resolved Hy Hc G) as Hterm.
      destruct (terminal_text_nonempty w send txt Hterm H) as [m [-> Hm]].
      rewrite (run_text w net send resolved (Some m) H G). simpl.
      destruct (String.eqb_spec m ""); [contradiction |].
      exists m. split; [reflexivity | split; [exact Hm | split; [reflexivity |]]].
      apply post_message_trace.
Qed.

(** C10 (as amended): every post request the send command makes carries
    a non-empty message; a text-only send whose message is empty sends no
    request and fails, with the message-is-empty error once the
    confirmation gate has passed (or is skipped). *)
Theorem empty_message_never_posted (w : World) (net : Net) (send : SendArgs)
    (resolved : Config.ResolvedConfig) :
  let run := run_send_with_resolved w net send resolved in
  (forall tok ch m, In (EvPostMessage tok ch m) (fst run) -> m <> ""%string) /\
  (forall txt, resolve_inputs w send = Ok (txt, None) ->
     match txt with Some t => t | None => EmptyString end = ""%string ->
     fst run = [] /\ (exists e, snd run = Err e) /\
     (confirm_gate w send resolved = Ok tt -> snd run = Err MessageEmpty)).
Proof.
  intros run. subst run. split.
  - intros tok ch m Hin.
    destruct (resolve_inputs w send) as [[txt fd] | e] eqn:H;
      [| rewrite (run_inputs_err w net send resolved e H) in Hin; destruct Hin].
    destruct (confirm_gate w send resolved) as [[] | e] eqn:G;
      [| rewrite (run_gate_err w net send resolved txt fd e H G) in Hin; destruct Hin].
    destruct fd as [[n d] |].
    + rewrite (run_file w net send resolved txt n d H G) in Hin.
      destruct (_ <? _); [destruct Hin |].
      exact (False_ind _ (upload_no_post _ _ _ _ _ _ _ _ _ Hin)).
    + rewrite (run_text w net send resolved txt H G) in Hin. simpl in Hin.
      destruct (String.eqb_spec (match txt with Some t => t | None => EmptyString end) "")
        as [Heq | Hne]; [destruct Hin |].
      rewrite post_message_trace in Hin.
      destruct Hin as [Hin | []]. injection Hin as _ _ <-. exact Hne.
  - intros txt H Hempty.
    destruct (confirm_gate w send resolved) as [[] | e] eqn:G.
    + rewrite (run_text w net send resolved txt H G). simpl.
      rewrite Hempty. simpl. eauto.
    + rewrite (run_gate_err w net send resolved txt None e H G). simpl.
      split; [reflexivity | split; [eauto | discriminate]].
Qed.

End SendFacts.

Module SendWitness.
Import Slack Main Fixtures SendFacts.

(** C2 does not hold as stated: an oversized file whose send is declined
    at the prompt fails with the aborted error, not the file-too-large
    error. *)
Lemma oversized_file_declined :
  run_send_with_resolved (mkWorld true reply_no true fs_report true) net_ok
    (mkSendArgs None (Some "logs/report.txt") "stdin" false) (settings true 1)
  = ([], Err Aborted).
Proof. vm_compute. reflexivity. Qed.

Lemma size_limit_before_network_witness :
  (fst (run_send_with_resolved (mkWorld true [] true fs_report true) net_ok
          (mkSendArgs None (Some "logs/report.txt") "stdin" true) (settings false 1)) = [] /\
   snd (run_send_with_resolved (mkWorld true [] true fs_report true) net_ok
          (mkSendArgs None (Some "logs/report.txt") "stdin" true) (settings false 1))
   = Err (FileTooLarge (Size.format_size 2) (Size.format_size 1))) /\
  run_send_with_resolved (mkWorld true [] true fs_report true) net_ok
    (mkSendArgs None (Some "logs/report.txt") "stdin" true) (settings false 2)
  = upload_file_bytes net_ok "xoxb-1" "C123" "report.txt" ["a"%byte; "b"%byte]
                      (upload_comment None).
Proof.
  split.
  - pose proof (size_limit_before_network (mkWorld true [] true fs_report true) net_ok
                  (mkSendArgs None (Some "logs/report.txt") "stdin" true) (settings false 1)
                  None "report.txt" ["a"%byte; "b"%byte] ltac:(vm_compute; reflexivity))
      as [H1 _].
    destruct (H1 ltac:(simpl; lia)) as [Hfst [_ H3]].
    split; [exact Hfst | exact (H3 eq_refl)].
  - pose proof (size_limit_before_network (mkWorld true [] true fs_report true) net_ok
                  (mkSendArgs None (Some "logs/report.txt") "stdin" true) (settings false 2)
                  None "report.txt" ["a"%byte; "b"%byte] ltac:(vm_compute; reflexivity))
      as [_ H2].
    exact (H2 ltac:(simpl; lia) eq_refl).
Defined.

(** C6 does not hold as stated: after an affirmative reply, a file above
    the size limit is rejected and no request is sent. *)
Lemma affirmed_oversized_file_not_sent :
  run_send_with_resolved (mkWorld true reply_yes true fs_report true) net_ok
    (mkSendArgs None (Some "logs/report.txt") "stdin" false) (settings true 1)
  = ([], Err (FileTooLarge "2B" "1B")).
Proof. vm_compute. reflexivity. Qed.

Lemma confirmation_gate_witness :
  confirm_gate (mkWorld false [] true fs_report true)
    (mkSendArgs (Some "hello") None "stdin" true) (settings true 100) = Ok tt /\
  confirm_gate (mkWorld true reply_no true fs_report true)
    (mkSendArgs (Some "hello") None "stdin" false) (settings true 100) = Err Aborted /\
  (exists m, Some "hello"%string = Some m /\ m <> ""%string /\
     run_send_with_resolved (mkWorld true reply_yes true fs_report true) net_ok
       (mkSendArgs (Some "hello") None "stdin" false) (settings true 100)
     = post_message net_ok "xoxb-1" "C123" m /\
     fst (run_send_with_resolved (mkWorld true reply_yes true fs_report true) net_ok
            (mkSendArgs (Some "hello") None "stdin" false) (settings true 100))
     = [EvPostMessage "xoxb-1" "C123" m]).
Proof.
  split; [| split].
  - apply (proj1 (confirmation_gate (mkWorld false [] true fs_report true) net_ok
                    (mkSendArgs (Some "hello") None "stdin" true) (settings true 100))).
    left. reflexivity.
  - pose proof (proj1 (proj2 (confirmation_gate (mkWorld true reply_no true fs_report true) net_ok
                    (mkSendArgs (Some "hello") None "stdin" false) (settings true 100)))
                  eq_refl eq_refl) as [_ H].
    apply (proj2 (H "n
"%string eq_refl eq_refl ltac:(vm_compute; reflexivity)));
      vm_compute; discriminate.
  - pose proof (proj1 (proj2 (confirmation_gate (mkWorld true reply_yes true fs_report true) net_ok
                    (mkSendArgs (Some "hello") None "stdin" false) (settings true 100)))
                  eq_refl eq_refl) as [_ H].
    assert (G := proj1 (H "y
"%string eq_refl eq_refl ltac:(vm_compute; reflexivity))
                   ltac:(left; vm_compute; reflexivity)).
    exact (proj2 (proj2 (proj2 (confirmation_gate (mkWorld true reply_yes true fs_report true)
                    net_ok (mkSendArgs (Some "hello") None "stdin" false)
                    (settings true 100)))) eq_refl eq_refl G (Some "hello"%string) None
             ltac:(vm_compute; reflexivity)).
Defined.

(** C10 does not hold as stated: with confirmation on, an empty piped
    message fails at the gate (stdin is not a terminal) instead of with
    the message-is-empty error. *)
Lemma empty_message_stopped_at_gate :
  run_send_with_resolved (mkWorld false [] true fs_report true) net_ok
    (mkSendArgs None None "stdin" false) (settings true 100)
  = ([], Err ConfirmStdinNotTty).
Proof. vm_compute. reflexivity. Qed.

Lemma empty_message_never_posted_witness :
  "hello"%string <> ""%string /\
  (fst (run_send_with_resolved (mkWorld false newline true fs_report true) net_ok
          (mkSendArgs (Some "") None "stdin" true) (settings false 100)) = [] /\
   snd (run_send_with_resolved (mkWorld false newline true fs_report true) net_ok
          (mkSendArgs (Some "") None "stdin" true) (settings false 100)) = Err MessageEmpty).
Proof.
  split.
  - apply (proj1 (empty_message_never_posted (mkWorld true [] true fs_report true) net_ok
                    (mkSendArgs (Some "hello") None "stdin" true) (settings false 100))
             "xoxb-1"%string "C123"%string).
    vm_compute. left. reflexivity.
  - destruct (proj2 (empty_message_never_posted (mkWorld false newline true fs_report true) net_ok
                       (mkSendArgs (Some "") None "stdin" true) (settings false 100))
                (Some ""%string) ltac:(vm_compute; reflexivity) eq_refl)
      as [H1 [_ H3]].
    split; [exact H1 | exact (H3 eq_refl)].
Defined.

End SendWitness.

(* ------------------------------------------------------------------ *)
(** * Facts about UTF-8 text: [trim] and [split]                        *)
(* ------------------------------------------------------------------ *)

Module TextFacts.
Import Bytes.

Lemma list_byte_of_string_app (s1 s2 : string) :
  list_byte_of_string (s1 ++ s2)%string = list_byte_of_string s1 ++ list_byte_of_string s2.
Proof.
  induction s1 as [|a s1 IH]; [reflexivity|].
  change (byte_of_ascii a :: list_byte_of_string (s1 ++ s2)%string
          = (byte_of_ascii a :: list_byte_of_string s1) ++ list_byte_of_string s2).
  rewrite IH. reflexivity.
Qed.

Lemma string_app_inv_l (s t1 t2 : string) : (s ++ t1 = s ++ t2)%string -> t1 = t2.
Proof. induction s as [|a s IH]; simpl; [auto | intros H; injection H; auto]. Qed.

(** A byte that does not continue a multi-byte character. *)
Definition starter (n : nat) : Prop := (n < 128 \/ 192 <= n)%nat.

Ltac ranges :=
  unfold in_range in *;
  repeat match goal with
         | H : context [(?p <=? ?q)%nat] |- _ =>
             first [ rewrite (proj2 (Nat.leb_le p q)) in H by lia
                   | rewrite (proj2 (Nat.leb_gt p q)) in H by lia ]
         | |- context [(?p <=? ?q)%nat] =>
             first [ rewrite (proj2 (Nat.leb_le p q)) by lia
                   | rewrite (proj2 (Nat.leb_gt p q)) by lia ]
         end.

Lemma cont_false (b lo hi : nat) : starter b -> (128 <= lo)%nat -> (hi <= 191)%nat ->
  in_range lo hi b = false.
Proof.
  intros Hb Hlo Hhi. unfold in_range, starter in *.
  destruct Hb as [Hb|Hb].
  - rewrite (proj2 (Nat.leb_gt lo b)) by lia. reflexivity.
  - rewrite (proj2 (Nat.leb_gt b hi)) by lia. apply andb_false_r.
Qed.

Ltac kill_cont Hb :=
  repeat match goal with
         | H : context [in_range ?lo ?hi ?b] |- _ =>
             rewrite (cont_false b lo hi Hb) in H by lia
         end.

(** A lead byte followed by a byte that is not a continuation byte is
    never well-formed, whatever follows. *)
Lemma utf8_cut1 (a b : nat) (r : list nat) : (128 <= a)%nat -> starter b ->
  utf8_valid (a :: b :: r) = false.
Proof.
  intros Ha Hb. destruct (utf8_valid (a :: b :: r)) eqn:H; [|reflexivity].
  exfalso. simpl in H. rewrite (proj2 (Nat.ltb_ge a 128) Ha) in H. kill_cont Hb.
  destruct (in_range 194 223 a); [discriminate|].
  destruct r as [|c [|d r]]; [discriminate| |];
    repeat (match goal with H : context [if ?c then _ else _] |- _ => destruct c end);
    simpl in H; discriminate.
Qed.

Lemma utf8_cut2 (a a1 b : nat) (r : list nat) : (128 <= a)%nat ->
  in_range 194 223 a = false -> starter b ->
  utf8_valid (a :: a1 :: b :: r) = false.
Proof.
  intros Ha Ha2 Hb. destruct (utf8_valid (a :: a1 :: b :: r)) eqn:H; [|reflexivity].
  exfalso. simpl in H. rewrite (proj2 (Nat.ltb_ge a 128) Ha), Ha2 in H. kill_cont Hb.
  destruct r as [|d r];
    repeat (match goal with H : context [if ?c then _ else _] |- _ => destruct c end);
    rewrite ?andb_false_r in H; simpl in H; discriminate.
Qed.

Lemma utf8_cut3 (a a1 a2 b : nat) (r : list nat) : (128 <= a)%nat ->
  in_range 194 223 a = false -> (a =? 224)%nat = false ->
  (in_range 225 236 a || in_range 238 239 a) = false -> (a =? 237)%nat = false ->
  starter b -> utf8_valid (a :: a1 :: a2 :: b :: r) = false.
Proof.
  intros Ha H1 H2 H3 H4 Hb. destruct (utf8_valid (a :: a1 :: a2 :: b :: r)) eqn:H;
    [|reflexivity].
  exfalso. simpl in H. rewrite (proj2 (Nat.ltb_ge a 128) Ha), H1, H2, H3, H4 in H.
  kill_cont Hb.
  repeat (match goal with H : context [if ?c then _ else _] |- _ => destruct c end);
    rewrite ?andb_false_r in H; simpl in H; discriminate.
Qed.

(** Cutting well-formed UTF-8 in front of a byte that starts a
    character leaves well-formed UTF-8. *)
Lemma utf8_prefix (n : nat) : forall (A B : list nat), (List.length A <= n)%nat ->
  utf8_valid (A ++ B) = true ->
  (B = [] \/ exists b B', B = b :: B' /\ starter b) ->
  utf8_valid A = true.
Proof.
  induction n as [|n IH]; intros A B Hlen HV HB.
  { destruct A; [reflexivity | simpl in Hlen; lia]. }
  destruct A as [|a A']; [reflexivity|].
  simpl in Hlen.
  destruct (a <? 128)%nat eqn:Ha.
  { simpl in HV |- *. rewrite Ha in HV |- *. eapply IH; [lia | exact HV | exact HB]. }
  apply Nat.ltb_ge in Ha.
  destruct A' as [|a1 A1].
  { exfalso. destruct HB as [-> | (b & B' & -> & Hb)].
    - simpl in HV. rewrite (proj2 (Nat.ltb_ge a 128) Ha) in HV. discriminate.
    - cbn [app] in HV. rewrite (utf8_cut1 a b B' Ha Hb) in HV. discriminate. }
  simpl in HV |- *. rewrite (proj2 (Nat.ltb_ge a 128) Ha) in HV |- *.
  destruct (in_range 194 223 a) eqn:R1.
  { apply andb_prop in HV as [Hc HV]. rewrite Hc. simpl.
    eapply IH; [simpl in Hlen; lia | exact HV | exact HB]. }
  destruct A1 as [|a2 A2].
  { exfalso. destruct HB as [-> | (b & B' & -> & Hb)].
    - simpl in HV. discriminate.
    - pose proof (utf8_cut2 a a1 b B' Ha R1 Hb) as Hc. simpl in Hc.
      rewrite (proj2 (Nat.ltb_ge a 128) Ha), R1 in Hc. simpl in HV. rewrite Hc in HV.
      discriminate. }
  simpl in HV |- *.
  destruct (a =? 224)%nat eqn:R2.
  { apply andb_prop in HV as [Hc HV]. rewrite Hc. simpl.
    eapply IH; [simpl in Hlen; lia | exact HV | exact HB]. }
  destruct (in_range 225 236 a || in_range 238 239 a) eqn:R3.
  { apply andb_prop in HV as [Hc HV]. rewrite Hc. simpl.
    eapply IH; [simpl in Hlen; lia | exact HV | exact HB]. }
  destruct (a =? 237)%nat eqn:R4.
  { apply andb_prop in HV as [Hc HV]. rewrite Hc. simpl.
    eapply IH; [simpl in Hlen; lia | exact HV | exact HB]. }
  destruct A2 as [|a3 A3].
  { exfalso. destruct HB as [-> | (b & B' & -> & Hb)].
    - simpl in HV. discriminate.
    - pose proof (utf8_cut3 a a1 a2 b B' Ha R1 R2 R3 R4 Hb) as Hc. simpl in Hc.
      rewrite (proj2 (Nat.ltb_ge a 128) Ha), R1, R2, R3, R4 in Hc. simpl in HV.
      rewrite Hc in HV. discriminate. }
  simpl in HV |- *.
  destruct (a =? 240)%nat; [|destruct (in_range 241 243 a); [|destruct (a =? 244)%nat]];
    try discriminate;
    (apply andb_prop in HV as [Hc HV]; rewrite Hc; simpl;
     eapply IH; [simpl in Hlen; lia | exact HV | exact HB]).
Qed.

Lemma ascii_ws_low (n : nat) : ascii_ws n = true -> (n < 128)%nat.
Proof.
  unfold ascii_ws, in_range. intros H.
  apply orb_prop in H as [H|H].
  - apply andb_prop in H as [_ H]. apply Nat.leb_le in H. lia.
  - apply Nat.eqb_eq in H. lia.
Qed.

Lemma ws2_lead (a b : nat) : ws2 a b = true -> a = 194%nat.
Proof. unfold ws2. intros H. apply andb_prop in H as [H _]. apply Nat.eqb_eq in H. exact H. Qed.

Lemma ws3_lead (a b c : nat) : ws3 a b c = true -> (a = 225 \/ a = 226 \/ a = 227)%nat.
Proof.
  unfold ws3. intros H.
  repeat match goal with
         | H : (_ || _) = true |- _ => apply orb_prop in H as [H|H]
         | H : (_ && _) = true |- _ => apply andb_prop in H as [H _]
         end; apply Nat.eqb_eq in H; lia.
Qed.

Lemma valid_drop1 (a : nat) (r : list nat) : (a < 128)%nat -> utf8_valid (a :: r) = utf8_valid r.
Proof. intros Ha. simpl. rewrite (proj2 (Nat.ltb_lt a 128) Ha). reflexivity. Qed.

Lemma valid_drop2 (b : nat) (r : list nat) : utf8_valid (194%nat :: b :: r) = true -> utf8_valid r = true.
Proof. simpl. intros H. apply andb_prop in H as [_ H]. exact H. Qed.

Lemma valid_drop3 (a b c : nat) (r : list nat) : (a = 225 \/ a = 226 \/ a = 227)%nat ->
  utf8_valid (a :: b :: c :: r) = true -> utf8_valid r = true.
Proof.
  intros [->|[->| ->]]; simpl; intros H;
    repeat match goal with H : (_ && _) = true |- _ => apply andb_prop in H as [_ H] end;
    exact H.
Qed.

(** [strip_ws_fwd] stops at a list that does not start with whitespace. *)
Definition stop_fwd (l : list Byte.byte) : Prop :=
  match l with
  | [] => True
  | x :: t =>
      ascii_ws (bn x) = false /\
      match t with
      | [] => True
      | y :: t1 => ws2 (bn x) (bn y) = false /\
                   match t1 with [] => True | z :: _ => ws3 (bn x) (bn y) (bn z) = false end
      end
  end.

Definition stop_rev (l : list Byte.byte) : Prop :=
  match l with
  | [] => True
  | x :: t =>
      ascii_ws (bn x) = false /\
      match t with
      | [] => True
      | y :: t1 => ws2 (bn y) (bn x) = false /\
                   match t1 with [] => True | z :: _ => ws3 (bn z) (bn y) (bn x) = false end
      end
  end.

Lemma strip_fwd_stop (l : list Byte.byte) : stop_fwd (strip_ws_fwd l).
Proof.
  induction l as [l IH] using (induction_ltof1 _ (@List.length Byte.byte)).
  destruct l as [|x t]; [exact I|]. simpl.
  destruct (ascii_ws (bn x)) eqn:E1; [apply IH; unfold ltof; simpl; lia|].
  destruct t as [|y t1]; [split; [exact E1 | exact I]|].
  destruct (ws2 (bn x) (bn y)) eqn:E2; [apply IH; unfold ltof; simpl; lia|].
  destruct t1 as [|z t2]; [split; [exact E1 | split; [exact E2 | exact I]]|].
  destruct (ws3 (bn x) (bn y) (bn z)) eqn:E3; [apply IH; unfold ltof; simpl; lia|].
  repeat split; assumption.
Qed.

Lemma stop_fwd_fixed (l : list Byte.byte) : stop_fwd l -> strip_ws_fwd l = l.
Proof.
  destruct l as [|x [|y [|z t]]]; simpl; [reflexivity| |intros [-> [-> _]]; reflexivity|].
  - intros [-> _]. reflexivity.
  - intros [-> [-> ->]]. reflexivity.
Qed.

Lemma stop_fwd_prefix (A B : list Byte.byte) : stop_fwd (A ++ B) -> stop_fwd A.
Proof.
  destruct A as [|x [|y [|z t]]]; simpl; [auto| | |].
  - intros [H _]. split; [exact H | exact I].
  - intros [H1 [H2 _]]. repeat split; assumption.
  - intros [H1 [H2 H3]]. repeat split; assumption.
Qed.

Lemma strip_rev_stop (l : list Byte.byte) : stop_rev (strip_ws_rev l).
Proof.
  induction l as [l IH] using (induction_ltof1 _ (@List.length Byte.byte)).
  destruct l as [|x t]; [exact I|]. simpl.
  destruct (ascii_ws (bn x)) eqn:E1; [apply IH; unfold ltof; simpl; lia|].
  destruct t as [|y t1]; [split; [exact E1 | exact I]|].
  destruct (ws2 (bn y) (bn x)) eqn:E2; [apply IH; unfold ltof; simpl; lia|].
  destruct t1 as [|z t2]; [split; [exact E1 | split; [exact E2 | exact I]]|].
  destruct (ws3 (bn z) (bn y) (bn x)) eqn:E3; [apply IH; unfold ltof; simpl; lia|].
  repeat split; assumption.
Qed.

Lemma stop_rev_fixed (l : list Byte.byte) : stop_rev l -> strip_ws_rev l = l.
Proof.
  destruct l as [|x [|y [|z t]]]; simpl; [reflexivity| | |].
  - intros [-> _]. reflexivity.
  - intros [-> [-> _]]. reflexivity.
  - intros [-> [-> ->]]. reflexivity.
Qed.

(** What [strip_ws_rev] drops ends (in the reversed list) at the first
    byte of a character. *)
Lemma strip_rev_split (R : list Byte.byte) : exists S,
  R = S ++ strip_ws_rev R /\
  (S = [] \/ exists S' z, S = S' ++ [z] /\ starter (bn z)).
Proof.
  induction R as [R IH] using (induction_ltof1 _ (@List.length Byte.byte)).
  destruct R as [|x t]; [exists []; split; [reflexivity | left; reflexivity]|].
  assert (Hcons : forall (chunk rest : list Byte.byte) (lead : Byte.byte),
             starter (bn lead) -> chunk <> [] -> last chunk = Some lead ->
             (ltof _ (@List.length Byte.byte) rest (x :: t)) ->
             strip_ws_rev (chunk ++ rest) = strip_ws_rev rest ->
             exists S, chunk ++ rest = S ++ strip_ws_rev (chunk ++ rest) /\
               (S = [] \/ exists S' z, S = S' ++ [z] /\ starter (bn z))).
  { intros chunk rest lead Hl Hne Hlast Hlt Hs.
    destruct (IH rest Hlt) as (S & HS & HS').
    exists (chunk ++ S). rewrite Hs. split; [rewrite <- app_assoc, <- HS; reflexivity|].
    right. destruct HS' as [-> | (S' & z & -> & Hz)].
    - destruct (exists_last Hne) as (l' & c & Hc). subst chunk.
      rewrite last_snoc in Hlast. injection Hlast as ->.
      exists l', lead. rewrite app_nil_r. split; [reflexivity | exact Hl].
    - exists (chunk ++ S'), z. rewrite app_assoc. split; [reflexivity | exact Hz]. }
  destruct (ascii_ws (bn x)) eqn:E1.
  { apply (Hcons [x] t x); [left; apply ascii_ws_low; exact E1 | discriminate | reflexivity
          | unfold ltof; simpl; lia | simpl; rewrite E1; reflexivity]. }
  destruct t as [|y t1].
  { exists []. split; [simpl; rewrite E1; reflexivity | left; reflexivity]. }
  destruct (ws2 (bn y) (bn x)) eqn:E2.
  { apply (Hcons [x; y] t1 y); [right; rewrite (ws2_lead _ _ E2); lia | discriminate
          | reflexivity | unfold ltof; simpl; lia | simpl; rewrite E1, E2; reflexivity]. }
  destruct t1 as [|z t2].
  { exists []. split; [simpl; rewrite E1, E2; reflexivity | left; reflexivity]. }
  destruct (ws3 (bn z) (bn y) (bn x)) eqn:E3.
  { apply (Hcons [x; y; z] t2 z); [right; pose proof (ws3_lead _ _ _ E3); lia | discriminate
          | reflexivity | unfold ltof; simpl; lia | simpl; rewrite E1, E2, E3; reflexivity]. }
  exists []. split; [simpl; rewrite E1, E2, E3; reflexivity | left; reflexivity].
Qed.

Lemma strip_fwd_valid (l : list Byte.byte) :
  utf8_valid (map bn l) = true -> utf8_valid (map bn (strip_ws_fwd l)) = true.
Proof.
  induction l as [l IH] using (induction_ltof1 _ (@List.length Byte.byte)).
  destruct l as [|x t]; [auto|]. intros HV. simpl.
  destruct (ascii_ws (bn x)) eqn:E1.
  { apply IH; [unfold ltof; simpl; lia|].
    cbn [map] in HV. rewrite valid_drop1 in HV by (apply ascii_ws_low; exact E1). exact HV. }
  destruct t as [|y t1]; [exact HV|].
  destruct (ws2 (bn x) (bn y)) eqn:E2.
  { apply IH; [unfold ltof; simpl; lia|].
    cbn [map] in HV. rewrite (ws2_lead _ _ E2) in HV. exact (valid_drop2 _ _ HV). }
  destruct t1 as [|z t2]; [exact HV|].
  destruct (ws3 (bn x) (bn y) (bn z)) eqn:E3; [|exact HV].
  apply IH; [unfold ltof; simpl; lia|].
  exact (valid_drop3 _ _ _ _ (ws3_lead _ _ _ E3) HV).
Qed.

Lemma trim_bytes (s : string) :
  list_byte_of_string (trim s)
  = rev (strip_ws_rev (rev (strip_ws_fwd (list_byte_of_string s)))).
Proof. unfold trim, trim_end. rewrite !list_byte_of_string_of_list_byte. reflexivity. Qed.

(** [trim] is idempotent. *)
Lemma trim_idem (s : string) : trim (trim s) = trim s.
Proof.
  assert (Hb := trim_bytes s).
  set (L := strip_ws_fwd (list_byte_of_string s)) in Hb.
  destruct (strip_rev_split (rev L)) as (S & HS & _).
  assert (HL : L = list_byte_of_string (trim s) ++ rev S).
  { rewrite Hb, <- (rev_involutive L) at 1. rewrite HS at 1.
    rewrite rev_app_distr. reflexivity. }
  assert (Hstop : stop_fwd (list_byte_of_string (trim s))).
  { apply (stop_fwd_prefix _ (rev S)). rewrite <- HL. apply strip_fwd_stop. }
  unfold trim at 1, trim_end. rewrite list_byte_of_string_of_list_byte.
  rewrite (stop_fwd_fixed _ Hstop), Hb, rev_involutive.
  rewrite (stop_rev_fixed _ (strip_rev_stop _)).
  rewrite <- Hb, string_of_list_byte_of_string. reflexivity.
Qed.

(** [trim] keeps well-formed UTF-8 well-formed. *)
Lemma trim_valid (s : string) :
  utf8_valid (map bn (list_byte_of_string s)) = true ->
  utf8_valid (map bn (list_byte_of_string (trim s))) = true.
Proof.
  intros HV. assert (Hb := trim_bytes s).
  set (L := strip_ws_fwd (list_byte_of_string s)) in Hb.
  assert (HVL : utf8_valid (map bn L) = true) by (apply strip_fwd_valid; exact HV).
  destruct (strip_rev_split (rev L)) as (S & HS & HS').
  assert (HL : L = list_byte_of_string (trim s) ++ rev S).
  { rewrite Hb, <- (rev_involutive L) at 1. rewrite HS at 1.
    rewrite rev_app_distr. reflexivity. }
  rewrite HL, map_app in HVL.
  apply (utf8_prefix _ _ _ (le_n _) HVL).
  destruct HS' as [-> | (S' & z & -> & Hz)]; [left; reflexivity|].
  right. rewrite rev_app_distr. simpl. exists (bn z), (map bn (rev S')). split; [reflexivity | exact Hz].
Qed.

End TextFacts.

(* ------------------------------------------------------------------ *)
(** * Channel-type strings: cli.rs and validate_search_types_str        *)
(* ------------------------------------------------------------------ *)

Module SearchTypeFacts.
Import Cmd Settings Cli TextFacts.

Lemma split_on_app (c : nat) (l r cur : list Byte.byte) :
  Forall (fun x => (Bytes.bn x =? c)%nat = false) l ->
  split_on c (l ++ r) cur = split_on c r (rev l ++ cur).
Proof.
  intros Hl. revert cur. induction Hl as [|x l Hx _ IH]; intros cur; [reflexivity|].
  simpl. rewrite Hx, IH. simpl. rewrite <- app_assoc. reflexivity.
Qed.

Lemma split_on_join (names : list string) :
  names <> [] ->
  Forall (fun n => Forall (fun x => (Bytes.bn x =? 44)%nat = false) (list_byte_of_string n))
         names ->
  split_on 44 (list_byte_of_string (join "," names)) [] = map list_byte_of_string names.
Proof.
  intros Hne Hall. induction Hall as [|n names Hn Hrest IH]; [congruence|].
  destruct names as [|n' names'].
  - simpl. rewrite <- (app_nil_r (list_byte_of_string n)), split_on_app by exact Hn.
    simpl. rewrite !app_nil_r, rev_involutive. reflexivity.
  - change (join "," (n :: n' :: names')) with (n ++ "," ++ join "," (n' :: names'))%string.
    rewrite !list_byte_of_string_app, split_on_app by exact Hn.
    change (list_byte_of_string ",") with [","%byte]. cbn [app split_on].
    change (Bytes.bn ","%byte =? 44)%nat with true. cbv iota.
    rewrite app_nil_r, rev_involutive, IH by discriminate. reflexivity.
Qed.

Lemma api_str_no_comma (t : SearchType) :
  Forall (fun x => (Bytes.bn x =? 44)%nat = false) (list_byte_of_string (as_api_str t)).
Proof. destruct t; repeat constructor. Qed.

Lemma api_str_valid (t : SearchType) :
  contains VALID_SEARCH_TYPES (Bytes.trim (as_api_str t)) = true.
Proof. destruct t; vm_compute; reflexivity. Qed.

Lemma check_pieces_ok (ps : list string) :
  check_pieces ps = COk tt -> Forall (fun p => contains VALID_SEARCH_TYPES (Bytes.trim p) = true) ps.
Proof.
  induction ps as [|p ps IH]; intros H; [constructor|].
  cbn [check_pieces] in H.
  destruct (contains VALID_SEARCH_TYPES (Bytes.trim p)) eqn:E; [|discriminate H].
  constructor; auto.
Qed.

Lemma split_on_snoc (c : nat) (sep : Byte.byte) (l cur : list Byte.byte) :
  Bytes.bn sep = c -> In [] (split_on c (l ++ [sep]) cur).
Proof.
  intros Hs. revert cur. induction l as [|x l IH]; intros cur; simpl.
  - rewrite Hs, Nat.eqb_refl. simpl. right. left. reflexivity.
  - destruct (Bytes.bn x =? c)%nat; [right|]; apply IH.
Qed.

Lemma api_string_ok (types : list SearchType) :
  types <> [] ->
  map string_of_list_byte
      (split_on 44 (list_byte_of_string (search_types_to_api_string types)) [])
  = map as_api_str types
  /\ validate_search_types_str (search_types_to_api_string types) = COk tt.
Proof.
  intros Hne.
  assert (Hsplit : split_on 44 (list_byte_of_string (search_types_to_api_string types)) []
                   = map list_byte_of_string (map as_api_str types)).
  { apply split_on_join.
    - destruct types; [congruence | discriminate].
    - apply List.Forall_forall. intros n Hn. apply in_map_iff in Hn as (t & <- & _).
      apply api_str_no_comma. }
  assert (Hround : map string_of_list_byte (map list_byte_of_string (map as_api_str types))
                   = map as_api_str types).
  { clear. induction types as [|t ts IHt]; [reflexivity|]. simpl.
    rewrite string_of_list_byte_of_string, IHt. reflexivity. }
  split; [rewrite Hsplit; exact Hround|].
  unfold validate_search_types_str. rewrite Hsplit, Hround.
  clear. induction types as [|t ts IH]; [reflexivity|]. cbn [map check_pieces].
  rewrite api_str_valid. exact IH.
Qed.

(** X1: the string the command line builds from a non-empty list of
    channel types splits back, at the commas, into exactly the API names
    of those types, and passes the check applied to SLAFLING_SEARCH_TYPES. *)
Theorem api_string_validates (types : list SearchType) :
  types <> [] ->
  map string_of_list_byte
      (split_on 44 (list_byte_of_string (search_types_to_api_string types)) [])
  = map as_api_str types
  /\ validate_search_types_str (search_types_to_api_string types) = COk tt.
Proof. apply api_string_ok. Qed.

(** X2: [validate_search_types_str] refuses the empty string and every
    string that ends in a comma (an empty last piece). *)
Theorem trailing_comma_rejected (s : string) :
  validate_search_types_str (s ++ ",") <> COk tt
  /\ validate_search_types_str "" = CErr (InvalidSearchType "").
Proof.
  split; [|reflexivity].
  unfold validate_search_types_str. intros H.
  apply check_pieces_ok in H. rewrite List.Forall_forall in H.
  rewrite list_byte_of_string_app in H.
  change (list_byte_of_string ",") with [","%byte] in H.
  assert (Hin : In ""%string (map string_of_list_byte
                                 (split_on 44 (list_byte_of_string s ++ [","%byte]) []))).
  { apply (in_map string_of_list_byte _ []). apply split_on_snoc. reflexivity. }
  specialize (H _ Hin). vm_compute in H. discriminate.
Qed.

(** X3: in the configuration file the channel types are compared case
    insensitively, in SLAFLING_SEARCH_TYPES exactly: an upper-case type
    name passes [validate_section_values] but [validate_search_types_str]
    rejects it. *)
Theorem search_type_case (t : SearchType) (section : string) :
  validate_section_values section None (Some [Bytes.to_ascii_uppercase (as_api_str t)])
  = COk tt
  /\ validate_search_types_str (Bytes.to_ascii_uppercase (as_api_str t))
     = CErr (InvalidSearchType (Bytes.to_ascii_uppercase (as_api_str t))).
Proof. destruct t; split; vm_compute; reflexivity. Qed.

Lemma api_string_validates_witness :
  map string_of_list_byte
      (split_on 44 (list_byte_of_string (search_types_to_api_string [Im; PublicChannel])) [])
  = ["im"; "public_channel"]%string
  /\ validate_search_types_str "im,public_channel" = COk tt.
Proof.
  exact (api_string_validates [Im; PublicChannel] ltac:(discriminate)).
Defined.

End SearchTypeFacts.

(* ------------------------------------------------------------------ *)
(** * The token file and the Keychain store (token.rs, keychain.rs)    *)
(* ------------------------------------------------------------------ *)

Module TokenStoreFacts.
Import TokenFile TextFacts.

Lemma str_app_assoc (a b c : string) : ((a ++ b) ++ c = a ++ b ++ c)%string.
Proof.
  rewrite <- (string_of_list_byte_of_string ((a ++ b) ++ c)),
          <- (string_of_list_byte_of_string (a ++ b ++ c)).
  rewrite !list_byte_of_string_app, app_assoc. reflexivity.
Qed.

(** [Path::join] always ends in the name that was joined. *)
Lemma join_suffix (dir name : string) : exists pre, join dir name = (pre ++ name)%string.
Proof.
  unfold join.
  destruct (match list_byte_of_string name with x :: _ => is_slash x | [] => false end).
  - exists ""%string. reflexivity.
  - destruct (last (list_byte_of_string dir)) as [b|].
    + destruct (is_slash b).
      * exists dir. reflexivity.
      * exists (dir ++ "/")%string. symmetry. apply str_app_assoc.
    + exists ""%string. reflexivity.
Qed.

Lemma last_tokens (x : string) :
  last (list_byte_of_string (join x "tokens")) = Some "s"%byte.
Proof.
  destruct (join_suffix x "tokens") as [pre ->].
  rewrite list_byte_of_string_app.
  change (list_byte_of_string "tokens")
    with (["t"; "o"; "k"; "e"; "n"] ++ ["s"])%byte.
  rewrite app_assoc. apply last_snoc.
Qed.

Lemma join_plain (dir name : string) (b : Byte.byte) :
  has_byte 47 (list_byte_of_string name) = false -> last (list_byte_of_string dir) = Some b ->
  is_slash b = false -> join dir name = (dir ++ "/" ++ name)%string.
Proof.
  intros Hn Hd Hb. unfold join. rewrite Hd, Hb.
  destruct (list_byte_of_string name) as [|x t]; [reflexivity|].
  unfold has_byte in Hn. cbn [existsb] in Hn. apply orb_false_iff in Hn as [Hx _].
  unfold is_slash. rewrite Hx. reflexivity.
Qed.

Lemma validate_ok (name : string) :
  validate_profile_name name = Ok tt <->
  name <> ""%string /\ has_byte 47 (list_byte_of_string name) = false
  /\ has_byte 92 (list_byte_of_string name) = false
  /\ has_dotdot (list_byte_of_string name) = false
  /\ has_byte 0 (list_byte_of_string name) = false.
Proof.
  unfold validate_profile_name. cbv zeta.
  destruct (String.eqb_spec name "") as [->|Hne].
  - split; [discriminate | intros (H & _); congruence].
  - destruct (has_byte 47 (list_byte_of_string name)), (has_byte 92 (list_byte_of_string name)),
      (has_dotdot (list_byte_of_string name)), (has_byte 0 (list_byte_of_string name));
      cbn [orb]; split; intros H;
      try discriminate; try (destruct H as (_ & H1 & H2 & H3 & H4); discriminate);
      repeat split; auto.
Qed.

Lemma token_path_ok (dd p : option string) (path : string) :
  token_path dd p = Ok path <->
  exists d, dd = Some d /\ validate_profile_name (unwrap_or p "default") = Ok tt
            /\ path = (join (join d "slafling") "tokens" ++ "/" ++ unwrap_or p "default")%string.
Proof.
  unfold token_path, token_dir, profile_path.
  destruct dd as [d|]; cbn [rbind].
  2: { split; [discriminate | intros (d & H & _); discriminate]. }
  destruct (validate_profile_name (unwrap_or p "default")) as [[]|e] eqn:V; cbn [rbind].
  - assert (Hs : has_byte 47 (list_byte_of_string (unwrap_or p "default")) = false)
      by (apply validate_ok in V; tauto).
    rewrite (join_plain _ _ _ Hs (last_tokens _) eq_refl).
    split.
    + intros H. injection H as <-. exists d. auto.
    + intros (d' & Hd & _ & ->). injection Hd as <-. reflexivity.
  - split; [discriminate | intros (d' & _ & H & _); discriminate].
Qed.

Lemma has_byte_false (n : nat) (l : list Byte.byte) :
  has_byte n l = false <-> Forall (fun b => Bytes.bn b <> n) l.
Proof.
  unfold has_byte. induction l as [|x l IH]; cbn [existsb].
  - split; [constructor | reflexivity].
  - rewrite orb_false_iff, IH, Nat.eqb_neq. split.
    + intros [H1 H2]. constructor; assumption.
    + intros H. inversion H; subst. split; assumption.
Qed.

Lemma token_path_name (dd p1 p2 : option string) (path : string) :
  token_path dd p1 = Ok path -> token_path dd p2 = Ok path ->
  unwrap_or p1 "default" = unwrap_or p2 "default".
Proof.
  intros H1 H2. apply token_path_ok in H1 as (d1 & E1 & _ & ->).
  apply token_path_ok in H2 as (d2 & E2 & _ & H).
  rewrite E1 in E2. injection E2 as <-.
  apply string_app_inv_l, (string_app_inv_l "/") in H. exact H.
Qed.

Lemma read_to_string_valid (s : string) :
  Bytes.utf8_valid (map Bytes.bn (list_byte_of_string s)) = true ->
  Bytes.read_to_string (list_byte_of_string s) = Some s.
Proof.
  intros H. unfold Bytes.read_to_string. rewrite H, string_of_list_byte_of_string.
  reflexivity.
Qed.

(** What [read_token] gives on a path other than the one written or removed. *)
Lemma read_token_other (fs : Fs) (m : gmap string FileEntry) (path' : string) :
  m !! path' = files fs !! path' ->
  read_token (mkFs m (fs_fails fs)) path' = read_token fs path'.
Proof. intros H. unfold read_token. cbn [files fs_fails]. rewrite H. reflexivity. Qed.

Lemma get_token_other (dd : option string) (fs : Fs) (m : gmap string FileEntry)
    (p p' : option string) (path : string) :
  token_path dd p = Ok path ->
  unwrap_or p' "default" <> unwrap_or p "default" ->
  (forall path', path' <> path -> m !! path' = files fs !! path') ->
  get_token dd (mkFs m (fs_fails fs)) p' = get_token dd fs p'.
Proof.
  intros Hp Hne Hm. unfold get_token.
  destruct (token_path dd p') as [path'|e] eqn:Hp'; cbn [rbind]; [|reflexivity].
  assert (Hd : path' <> path).
  { intros ->. apply Hne. exact (token_path_name _ _ _ _ Hp' Hp). }
  apply read_token_other. exact (Hm _ Hd).
Qed.

(** X12: [token_path] succeeds exactly when the data directory is known
    and the profile name (["default"] when none is given) is non-empty
    and has no [/], [\], NUL byte or [..]; the path is then that name
    directly under [<data dir>/slafling/tokens]. *)
Theorem token_path_confined (dd p : option string) (path : string) :
  token_path dd p = Ok path <->
  exists d, dd = Some d
    /\ path = (join (join d "slafling") "tokens" ++ "/" ++ unwrap_or p "default")%string
    /\ unwrap_or p "default" <> ""%string
    /\ Forall (fun b => Bytes.bn b <> 47 /\ Bytes.bn b <> 92 /\ Bytes.bn b <> 0)%nat
              (list_byte_of_string (unwrap_or p "default"))
    /\ has_dotdot (list_byte_of_string (unwrap_or p "default")) = false.
Proof.
  rewrite token_path_ok. split.
  - intros (d & Hd & V & Hp). apply validate_ok in V as (H0 & H1 & H2 & H3 & H4).
    apply has_byte_false in H1, H2, H4.
    exists d. repeat split; try assumption.
    rewrite List.Forall_forall in H1, H2, H4 |- *. intros b Hb. auto.
  - intros (d & Hd & Hp & H0 & Hf & H3). exists d. repeat split; try assumption.
    apply validate_ok. rewrite !has_byte_false.
    rewrite List.Forall_forall in Hf. rewrite !List.Forall_forall.
    repeat split; try assumption; intros b Hb; apply Hf in Hb; tauto.
Qed.

(** X13: two profiles that get the same token file path have the same
    name (the absent profile counting as ["default"]). *)
Theorem token_path_injective (dd p1 p2 : option string) (path : string) :
  token_path dd p1 = Ok path -> token_path dd p2 = Ok path ->
  unwrap_or p1 "default" = unwrap_or p2 "default".
Proof. apply token_path_name. Qed.

(** X14: a token read from a token file is never empty and has no
    leading or trailing whitespace. *)
Theorem get_token_trimmed (dd : option string) (fs : Fs) (p : option string) (t : string) :
  get_token dd fs p = Ok (Some t) -> t <> ""%string /\ Bytes.trim t = t.
Proof.
  unfold get_token. destruct (token_path dd p) as [path|e]; cbn [rbind]; [|discriminate].
  unfold read_token. destruct (fs_fails fs path); [discriminate|].
  destruct (files fs !! path) as [e|]; [|discriminate].
  destruct (Bytes.read_to_string (fe_content e)) as [c|]; [|discriminate].
  cbv zeta. destruct (String.eqb_spec (Bytes.trim c) "") as [E|E]; intros H; [discriminate|].
  injection H as <-. split; [exact E | apply trim_idem].
Qed.

Lemma file_set_facts (dd : option string) (fs fs' : Fs) (p : option string)
    (tok path : string) :
  Bytes.utf8_valid (map Bytes.bn (list_byte_of_string tok)) = true ->
  token_path dd p = Ok path ->
  set_token dd fs p tok = Ok fs' ->
  get_token dd fs' p = Ok (if String.eqb (Bytes.trim tok) "" then None
                           else Some (Bytes.trim tok))
  /\ option_map fe_mode (files fs' !! path) = Some 384
  /\ (forall p', unwrap_or p' "default" <> unwrap_or p "default" ->
                 get_token dd fs' p' = get_token dd fs p').
Proof.
  intros HV Hp Hs. unfold set_token in Hs. rewrite Hp in Hs. cbn [rbind] in Hs.
  unfold write_token in Hs. destruct (fs_fails fs path) eqn:F; [discriminate|].
  injection Hs as <-. split; [|split].
  - unfold get_token. rewrite Hp. cbn [rbind]. unfold read_token. cbn [files fs_fails].
    rewrite F, lookup_insert_eq. cbn [fe_content]. rewrite read_to_string_valid by exact HV.
    cbv zeta. destruct (String.eqb (Bytes.trim tok) ""); reflexivity.
  - cbn [files]. rewrite lookup_insert_eq. reflexivity.
  - intros p' Hne. apply (get_token_other _ _ _ p _ path Hp Hne).
    intros path' Hd. apply lookup_insert_ne. congruence.
Qed.

(** X15: after [set_token] stores a (well-formed UTF-8) token for a
    profile, [get_token] for that profile gives the token trimmed (or
    nothing if it is only whitespace), the file has mode 0o600, and the
    token files of other profiles are unchanged. *)
Theorem file_set_get (dd : option string) (fs fs' : Fs) (p : option string)
    (tok path : string) :
  Bytes.utf8_valid (map Bytes.bn (list_byte_of_string tok)) = true ->
  token_path dd p = Ok path ->
  set_token dd fs p tok = Ok fs' ->
  get_token dd fs' p = Ok (if String.eqb (Bytes.trim tok) "" then None
                           else Some (Bytes.trim tok))
  /\ option_map fe_mode (files fs' !! path) = Some 384
  /\ (forall p', unwrap_or p' "default" <> unwrap_or p "default" ->
                 get_token dd fs' p' = get_token dd fs p').
Proof. apply file_set_facts. Qed.

Lemma file_delete_facts (dd : option string) (fs fs' : Fs) (p : option string)
    (path : string) :
  token_path dd p = Ok path ->
  delete_token dd fs p = Ok fs' ->
  get_token dd fs' p = Ok None
  /\ path_exists fs' path = false
  /\ (forall p', unwrap_or p' "default" <> unwrap_or p "default" ->
                 get_token dd fs' p' = get_token dd fs p')
  /\ (files fs !! path = None -> fs' = fs).
Proof.
  intros Hp Hd. unfold delete_token in Hd. rewrite Hp in Hd. cbn [rbind] in Hd.
  unfold remove_token in Hd. destruct (fs_fails fs path) eqn:F; [discriminate|].
  injection Hd as <-. split; [|split; [|split]].
  - unfold get_token. rewrite Hp. cbn [rbind]. unfold read_token. cbn [files fs_fails].
    rewrite F, lookup_delete_eq. reflexivity.
  - unfold path_exists. cbn [files fs_fails]. rewrite F, lookup_delete_eq. reflexivity.
  - intros p' Hne. apply (get_token_other _ _ _ p _ path Hp Hne).
    intros path' Hne'. apply lookup_delete_ne. congruence.
  - intros Hnone. rewrite delete_id by exact Hnone. destruct fs; reflexivity.
Qed.

(** X16: after [delete_token] for a profile its token file is gone
    ([get_token] gives nothing, the path does not exist), other
    profiles' files are unchanged, and deleting a file that is not
    there leaves the file system as it was. *)
Theorem file_delete_get (dd : option string) (fs fs' : Fs) (p : option string)
    (path : string) :
  token_path dd p = Ok path ->
  delete_token dd fs p = Ok fs' ->
  get_token dd fs' p = Ok None
  /\ path_exists fs' path = false
  /\ (forall p', unwrap_or p' "default" <> unwrap_or p "default" ->
                 get_token dd fs' p' = get_token dd fs p')
  /\ (files fs !! path = None -> fs' = fs).
Proof. apply file_delete_facts. Qed.

Lemma keychain_facts (is_macos : bool) (kc : Keychain.Keychain) (p : option string)
    (tok : string) :
  (forall kc', Keychain.set_token is_macos kc p tok = Ok kc' ->
     is_macos = true /\ Keychain.get_token is_macos kc' p = Ok (Some tok)
     /\ forall p', Keychain.account_name p' <> Keychain.account_name p ->
                   Keychain.get_token is_macos kc' p' = Keychain.get_token is_macos kc p')
  /\ (forall kc', Keychain.delete_token is_macos kc p = Ok kc' ->
     is_macos = true /\ Keychain.get_token is_macos kc' p = Ok None
     /\ forall p', Keychain.account_name p' <> Keychain.account_name p ->
                   Keychain.get_token is_macos kc' p' = Keychain.get_token is_macos kc p').
Proof.
  unfold Keychain.set_token, Keychain.delete_token, Keychain.get_token.
  destruct is_macos; [|split; intros kc' H; discriminate].
  destruct (Keychain.kc_fails kc) eqn:F; [split; intros kc' H; discriminate|].
  split; intros kc' H; injection H as <-; cbn [Keychain.kc_fails Keychain.kc_entries];
    (split; [reflexivity|split]).
  - rewrite lookup_insert_eq. reflexivity.
  - intros p' Hne. rewrite lookup_insert_ne by congruence. reflexivity.
  - rewrite lookup_delete_eq. reflexivity.
  - intros p' Hne. rewrite lookup_delete_ne by congruence. reflexivity.
Qed.

(** X17: a Keychain [set_token] only succeeds on macOS, after which
    [get_token] for that profile gives exactly the token stored; after a
    successful [delete_token] it gives nothing; other accounts are
    untouched by either. *)
Theorem keychain_set_delete (is_macos : bool) (kc : Keychain.Keychain) (p : option string)
    (tok : string) :
  (forall kc', Keychain.set_token is_macos kc p tok = Ok kc' ->
     is_macos = true /\ Keychain.get_token is_macos kc' p = Ok (Some tok)
     /\ forall p', Keychain.account_name p' <> Keychain.account_name p ->
                   Keychain.get_token is_macos kc' p' = Keychain.get_token is_macos kc p')
  /\ (forall kc', Keychain.delete_token is_macos kc p = Ok kc' ->
     is_macos = true /\ Keychain.get_token is_macos kc' p = Ok None
     /\ forall p', Keychain.account_name p' <> Keychain.account_name p ->
                   Keychain.get_token is_macos kc' p' = Keychain.get_token is_macos kc p').
Proof. apply keychain_facts. Qed.

End TokenStoreFacts.

(* ------------------------------------------------------------------ *)
(** * Validation, headless settings and output format                  *)
(* ------------------------------------------------------------------ *)

Module SettingsFacts.
Import Config Slack Main Cmd Settings Cli Commands.

Lemma contains_store (v : string) :
  contains VALID_TOKEN_STORE_VALUES v = true -> v = "keychain"%string \/ v = "file"%string.
Proof.
  unfold contains, VALID_TOKEN_STORE_VALUES. cbn [existsb].
  destruct (String.eqb_spec v "keychain"); [auto|].
  destruct (String.eqb_spec v "file"); [auto|]. discriminate.
Qed.

(** The store a validated configuration names is one the platform has. *)
Lemma validated_store (is_macos : bool) (cfg : ConfigFile) :
  validate_config is_macos cfg = COk tt ->
  resolve_token_store is_macos cfg = "file"%string
  \/ (resolve_token_store is_macos cfg = "keychain"%string /\ is_macos = true).
Proof.
  unfold validate_config, resolve_token_store.
  destruct (validate_section_values _ _ _) as [[]|e]; cbn [cbind]; [|discriminate].
  destruct (d_token_store (default cfg)) as [v|].
  - destruct (contains VALID_TOKEN_STORE_VALUES (to_lowercase v)) eqn:C;
      cbn [negb]; [|discriminate].
    apply contains_store in C as [C|C]; rewrite C.
    + destruct is_macos; cbn; [auto | discriminate].
    + auto.
  - destruct is_macos; [right; split; reflexivity | left; reflexivity].
Qed.

Lemma kc_get_err (m : bool) (kc : Keychain.Keychain) (p : option string) (e : Error) :
  Keychain.get_token m kc p = Err e -> exists msg, e = StoreFailed msg.
Proof.
  unfold Keychain.get_token. destruct m; [|discriminate].
  destruct (Keychain.kc_fails kc); [|discriminate]. intros H. injection H as <-. eauto.
Qed.

Lemma file_get_err (dd : option string) (fs : TokenFile.Fs) (p : option string) (e : Error) :
  TokenFile.get_token dd fs p = Err e -> exists msg, e = StoreFailed msg.
Proof.
  unfold TokenFile.get_token, TokenFile.token_path, TokenFile.token_dir, TokenFile.profile_path.
  destruct dd as [d|]; cbn [rbind]; [|intros H; injection H as <-; eauto].
  unfold TokenFile.validate_profile_name. cbv zeta.
  destruct (_ || _); cbn [rbind]; [intros H; injection H as <-; eauto|].
  unfold TokenFile.read_token.
  destruct (TokenFile.fs_fails fs _); [intros H; injection H as <-; eauto|].
  destruct (TokenFile.files fs !! _) as [fe|]; [|discriminate].
  destruct (Bytes.read_to_string _); [|intros H; injection H as <-; eauto].
  cbv zeta. destruct (String.eqb _ _); discriminate.
Qed.

(** With either real backend, [from_backend] on ["file"] or
    ["keychain"] never reports an invalid store. *)
Lemma from_backend_store_ok (m : bool) (kc : Keychain.Keychain) (dd : option string)
    (fs : TokenFile.Fs) (ts : string) (p : option string) (s : string) :
  ts = "file"%string \/ ts = "keychain"%string ->
  from_backend (mkTokenBackends (Keychain.get_token m kc) (TokenFile.get_token dd fs)) ts p
  <> Err (InvalidTokenStore s).
Proof.
  intros Hts. unfold from_backend. cbn [keychain_get_token file_get_token].
  destruct Hts as [-> | ->]; cbn [String.eqb Ascii.eqb Bool.eqb andb].
  - destruct (TokenFile.get_token dd fs p) as [[t|]|e] eqn:E; cbn [rbind]; try discriminate.
    apply file_get_err in E as [msg ->]. discriminate.
  - destruct (Keychain.get_token m kc p) as [[t|]|e] eqn:E; cbn [rbind]; try discriminate.
    apply kc_get_err in E as [msg ->]. discriminate.
Qed.

Lemma resolve_token_store_ok (env : Env) (m : bool) (kc : Keychain.Keychain)
    (dd : option string) (fs : TokenFile.Fs) (ts : string) (p : option string) (s : string) :
  ts = "file"%string \/ ts = "keychain"%string ->
  resolve_token env (mkTokenBackends (Keychain.get_token m kc) (TokenFile.get_token dd fs)) ts p
  <> Err (InvalidTokenStore s).
Proof.
  intros Hts. unfold resolve_token.
  destruct (env "SLAFLING_TOKEN") as [t|]; [destruct (negb (String.eqb t "")); [discriminate|]|];
    apply from_backend_store_ok; exact Hts.
Qed.

Definition unset (env : Env) (k : string) : Env :=
  fun x => if String.eqb x k then None else env x.

Lemma non_empty_unset (env : Env) (k x : string) :
  env k = Some ""%string -> non_empty_var (unset env k) x = non_empty_var env x.
Proof.
  intros Hk. unfold non_empty_var, unset.
  destruct (String.eqb_spec x k) as [->|]; [rewrite Hk; reflexivity | reflexivity].
Qed.

Lemma resolve_from_env_ext (e1 e2 : Env) :
  (forall x, non_empty_var e1 x = non_empty_var e2 x) ->
  resolve_from_env e1 = resolve_from_env e2.
Proof. intros H. unfold resolve_from_env, resolve_token_from_env. rewrite !H. reflexivity. Qed.

Lemma resolve_from_env_confirm (env : Env) (r : ResolvedConfig) :
  resolve_from_env env = COk r ->
  token r = match non_empty_var env "SLAFLING_TOKEN" with Some t => t | None => ""%string end
  /\ channel r = match non_empty_var env "SLAFLING_CHANNEL" with
                 | Some c => c | None => ""%string end
  /\ non_empty_var env "SLAFLING_TOKEN" = Some (token r)
  /\ non_empty_var env "SLAFLING_CHANNEL" = Some (channel r)
  /\ confirm r = match non_empty_var env "SLAFLING_CONFIRM" with
                 | Some v => is_truthy v
                 | None => false
                 end.
Proof.
  unfold resolve_from_env, resolve_token_from_env.
  destruct (non_empty_var env "SLAFLING_TOKEN") as [t|]; cbn [cbind]; [|discriminate].
  destruct (non_empty_var env "SLAFLING_CHANNEL") as [c|]; cbn [cbind]; [|discriminate].
  destruct (non_empty_var env "SLAFLING_MAX_FILE_SIZE") as [s|]; cbn [cbind].
  - destruct (Size.parse_file_size s); cbn [cbind]; [|discriminate].
    intros H; injection H as <-. cbn. auto.
  - intros H; injection H as <-. cbn. auto.
Qed.

(** The requests a send may make with a token and a channel. *)
Definition carries (tok ch : string) (ev : Event) : Prop :=
  match ev with
  | EvPostMessage t c _ => t = tok /\ c = ch
  | EvGetUploadUrl t _ _ => t = tok
  | EvUploadContent _ _ => True
  | EvCompleteUpload t _ _ c _ => t = tok /\ c = ch
  end.

Lemma upload_carries (net : Net) (tok ch n : string) (d : list Byte.byte) (c : option string) :
  Forall (carries tok ch) (fst (upload_file_bytes net tok ch n d c)).
Proof.
  unfold upload_file_bytes, get_upload_url, upload_file_content, complete_upload,
         bind, call, ret, fail.
  destruct (get_upload_url_api _ _ _ _) as [| | body]; simpl;
    [repeat constructor .. |].
  destruct (gu_ok body); simpl; [| repeat constructor].
  destruct (gu_upload_url body) as [url |]; simpl; [| repeat constructor].
  destruct (gu_file_id body) as [fid |]; simpl; [| repeat constructor].
  destruct (upload_api _ _ _); simpl; [| repeat constructor].
  destruct (complete_upload_api _ _ _ _ _ _) as [| | ok err]; simpl;
    [repeat constructor .. |].
  destruct ok; simpl; repeat constructor.
Qed.

Lemma send_carries (w : World) (net : Net) (send : SendArgs) (r : ResolvedConfig) :
  Forall (carries (token r) (channel r)) (fst (run_send_with_resolved w net send r)).
Proof.
  destruct (resolve_inputs w send) as [[txt fd]|e] eqn:I.
  2: { rewrite (SendFacts.run_inputs_err w net send r e I). constructor. }
  destruct (confirm_gate w send r) as [[]|e] eqn:G.
  2: { rewrite (SendFacts.run_gate_err w net send r txt fd e I G). constructor. }
  destruct fd as [[n d]|].
  - rewrite (SendFacts.run_file w net send r txt n d I G).
    destruct (_ <? _); [constructor | apply upload_carries].
  - rewrite (SendFacts.run_text w net send r txt I G). cbv zeta.
    destruct (String.eqb _ _); [constructor|].
    rewrite SendFacts.post_message_trace. repeat constructor.
Qed.

(** X4: a configuration that passes [validate_config] names the token
    file or, on macOS only, the Keychain; token resolution with it never
    fails with an invalid token_store error. *)
Theorem validated_store_usable (is_macos : bool) (cfg : ConfigFile) :
  validate_config is_macos cfg = COk tt ->
  (resolve_token_store is_macos cfg = "file"%string
   \/ (resolve_token_store is_macos cfg = "keychain"%string /\ is_macos = true))
  /\ forall env kc dd fs p s,
       resolve_token env (mkTokenBackends (Keychain.get_token is_macos kc)
                                          (TokenFile.get_token dd fs))
                     (resolve_token_store is_macos cfg) p
       <> Err (InvalidTokenStore s).
Proof.
  intros H. pose proof (validated_store _ _ H) as Hs. split; [exact Hs|].
  intros env kc dd fs p s. apply resolve_token_store_ok. tauto.
Qed.

(** X5: in headless mode a variable set to the empty string counts as
    unset: [resolve_from_env], [resolve_token_from_env] and
    [resolve_search_types_from_env] give the same as with the variable
    removed, and so does [resolve_token]. *)
Theorem headless_empty_is_unset (env : Env) (k : string) :
  env k = Some ""%string ->
  resolve_from_env (unset env k) = resolve_from_env env
  /\ resolve_token_from_env (unset env k) = resolve_token_from_env env
  /\ resolve_search_types_from_env (unset env k) = resolve_search_types_from_env env
  /\ forall backends ts p,
       resolve_token (unset env k) backends ts p = resolve_token env backends ts p.
Proof.
  intros Hk. split; [|split; [|split]].
  - apply resolve_from_env_ext. intros x. apply non_empty_unset. exact Hk.
  - unfold resolve_token_from_env. rewrite non_empty_unset by exact Hk. reflexivity.
  - unfold resolve_search_types_from_env. apply non_empty_unset. exact Hk.
  - intros backends ts p. unfold resolve_token, unset.
    destruct (String.eqb_spec "SLAFLING_TOKEN" k) as [<-|]; [rewrite Hk|]; reflexivity.
Qed.

(** X6: in headless mode the confirmation prompt depends on
    SLAFLING_CONFIRM alone: unless it holds a truthy value, the send
    runs exactly as with [--yes]. *)
Theorem headless_confirm_only_env (env : Env) (w : World) (net : Net) (send : SendArgs) :
  (forall v, non_empty_var env "SLAFLING_CONFIRM" = Some v -> is_truthy v = false) ->
  run_headless_send env w net send
  = run_headless_send env w net (mkSendArgs (text send) (file send) (filename send) true).
Proof.
  intros Hc. unfold run_headless_send.
  destruct (resolve_from_env env) as [r|e] eqn:R; [|reflexivity].
  apply resolve_from_env_confirm in R as (_ & _ & _ & _ & Hr).
  assert (Hf : confirm r = false).
  { rewrite Hr. destruct (non_empty_var env "SLAFLING_CONFIRM") as [v|]; [apply Hc|]; reflexivity. }
  assert (Hi : resolve_inputs w (mkSendArgs (text send) (file send) (filename send) true)
               = resolve_inputs w send) by (destruct send; reflexivity).
  assert (Hg : forall s, confirm_gate w s r = Ok tt)
    by (intros s; unfold confirm_gate; rewrite Hf; reflexivity).
  unfold run_send_with_resolved. rewrite Hi, !Hg. reflexivity.
Qed.

(** X7: every Slack request a headless send makes carries the token of
    SLAFLING_TOKEN and (where a channel is sent) the channel of
    SLAFLING_CHANNEL; when either is unset or empty nothing is sent. *)
Theorem headless_requests_use_env (env : Env) (w : World) (net : Net) (send : SendArgs) :
  Forall (fun ev => exists tok ch,
            non_empty_var env "SLAFLING_TOKEN" = Some tok
            /\ non_empty_var env "SLAFLING_CHANNEL" = Some ch
            /\ carries tok ch ev)
         (fst (run_headless_send env w net send)).
Proof.
  unfold run_headless_send.
  destruct (resolve_from_env env) as [r|e] eqn:R; [|constructor].
  apply resolve_from_env_confirm in R as (_ & _ & Ht & Hch & _).
  pose proof (send_carries w net send r) as H.
  destruct (run_send_with_resolved w net send r) as [tr res]. cbn [fst] in *.
  rewrite List.Forall_forall in H |- *. intros ev Hev.
  exists (token r), (channel r). auto.
Qed.

(** X8: the channel-type string of a headless search always passes
    [validate_search_types_str]: a [--types] list (non-empty) by
    construction, SLAFLING_SEARCH_TYPES because it is checked, and the
    fallback ["public_channel"]. *)
Theorem headless_search_types_valid (env : Env) (types : option (list SearchType))
    (s : string) :
  types <> Some [] ->
  headless_search_types env types = COk s ->
  validate_search_types_str s = COk tt.
Proof.
  intros Hne. unfold headless_search_types. destruct types as [t|].
  - intros H. injection H as <-. apply SearchTypeFacts.api_string_ok.
    intros ->. apply Hne. reflexivity.
  - cbv zeta. set (s0 := match resolve_search_types_from_env env with
                         | Some s => s | None => "public_channel"%string end).
    destruct (validate_search_types_str s0) as [[]|e] eqn:V; cbn [cbind]; [|discriminate].
    intros H. injection H as <-. exact V.
Qed.

(** X9: a profile name missing from the configuration is not an error
    for the search settings: [resolve_search_types] and [resolve_output]
    fall back to the default section as if no profile were given, while
    the send settings ([layer], used by [resolve]) fail with
    "profile not found". *)
Theorem unknown_profile_fallback (env : Env) (cfg : ConfigFile) (name : string) :
  profiles cfg !! name = None ->
  resolve_search_types cfg (Some name) = resolve_search_types cfg None
  /\ resolve_output env cfg (Some name) = resolve_output env cfg None
  /\ layer cfg (Some name) = Err (ProfileNotFound name).
Proof.
  intros H. unfold resolve_search_types, resolve_output, layer. rewrite H.
  split; [reflexivity | split; [|reflexivity]].
  destruct (env "SLAFLING_OUTPUT"); reflexivity.
Qed.

(** X10: when SLAFLING_OUTPUT is set, the configuration file no longer
    matters for the output format: the format is the one headless mode
    picks; in particular a value that names no format (such as the empty
    string) hides the configured format and the format is detected from
    the terminal. *)
Theorem output_env_overrides (env : Env) (tty : bool) (cli : option OutputFormat)
    (cfg : ConfigFile) (p : option string) (v : string) :
  env "SLAFLING_OUTPUT" = Some v ->
  resolve_output_format env tty cli cfg p = resolve_output_format_headless env tty cli
  /\ (format_named v = None ->
      resolve_output_format env tty None cfg p = if tty then Table else Tsv).
Proof.
  intros Hv. unfold resolve_output_format, resolve_output_format_headless, resolve_output.
  rewrite Hv. split; [reflexivity|]. intros Hn. rewrite Hn. reflexivity.
Qed.

(** X11: with a configuration that sets no [output] in any section, the
    output format is the same with or without headless mode. *)
Theorem headless_format_agrees (env : Env) (tty : bool) (cli : option OutputFormat)
    (cfg : ConfigFile) (p : option string) :
  d_output (default cfg) = None ->
  map_Forall (fun _ pr => p_output pr = None) (profiles cfg) ->
  resolve_output_format env tty cli cfg p = resolve_output_format_headless env tty cli.
Proof.
  intros Hd Hp. unfold resolve_output_format, resolve_output_format_headless, resolve_output.
  destruct (env "SLAFLING_OUTPUT") as [v|]; [reflexivity|].
  assert (Ho : match p with
               | Some name =>
                   match profiles cfg !! name with
                   | Some profile => match p_output profile with
                                     | Some _ => p_output profile
                                     | None => d_output (default cfg) end
                   | None => d_output (default cfg)
                   end
               | None => d_output (default cfg)
               end = None).
  { destruct p as [name|]; [|exact Hd].
    destruct (profiles cfg !! name) as [pr|] eqn:E; [|exact Hd].
    rewrite (map_Forall_lookup_1 _ _ _ _ Hp E). exact Hd. }
  rewrite Ho. reflexivity.
Qed.

End SettingsFacts.

(* ------------------------------------------------------------------ *)
(** * The token commands (main.rs: token set / delete / show)          *)
(* ------------------------------------------------------------------ *)

Module TokenCommandFacts.
Import Config Main Cmd Settings Commands TextFacts TokenStoreFacts SettingsFacts.

(** Errors that are not a [Core] error of the send command or a backend. *)
Definition not_core (e : CmdError) : Prop := match e with Core _ => False | _ => True end.

Lemma check_section_types_err (section : string) (types : list string) (e : CmdError) :
  check_section_types section types = CErr e -> not_core e.
Proof.
  induction types as [|v types IH]; cbn [check_section_types]; [discriminate|].
  destruct (contains VALID_SEARCH_TYPES (to_lowercase v)); [exact IH|].
  intros H. injection H as <-. exact I.
Qed.

Lemma validate_section_values_err (section : string) (o : option string)
    (st : option (list string)) (e : CmdError) :
  validate_section_values section o st = CErr e -> not_core e.
Proof.
  unfold validate_section_values.
  destruct o as [v|]; [destruct (contains VALID_OUTPUT_VALUES (to_lowercase v))|];
    cbn [cbind]; [| intros H; injection H as <-; exact I |];
    (destruct st as [types|]; [apply check_section_types_err | discriminate]).
Qed.

Lemma check_profiles_err (ps : list (string * Profile)) (e : CmdError) :
  check_profiles ps = CErr e -> not_core e.
Proof.
  induction ps as [|[name pr] ps IH]; cbn [check_profiles]; [discriminate|].
  destruct (validate_section_values _ _ _) as [[]|e'] eqn:V; cbn [cbind]; [exact IH|].
  intros H. injection H as <-. exact (validate_section_values_err _ _ _ _ V).
Qed.

Lemma validate_config_err (m : bool) (cfg : ConfigFile) (e : CmdError) :
  validate_config m cfg = CErr e -> not_core e.
Proof.
  unfold validate_config.
  destruct (validate_section_values _ _ _) as [[]|e'] eqn:V; cbn [cbind].
  2: { intros H. injection H as <-. exact (validate_section_values_err _ _ _ _ V). }
  destruct (match d_token_store (default cfg) with
            | Some val => _ | None => COk tt end) as [[]|e'] eqn:T; cbn [cbind].
  - apply check_profiles_err.
  - intros H. injection H as <-. destruct (d_token_store (default cfg)) as [v|]; [|discriminate].
    destruct (negb _); [injection T as <-; exact I|].
    destruct (_ && _); [injection T as <-; exact I | discriminate].
Qed.

Lemma load_config_facts (m : bool) (hd : option string) (fs : TokenFile.Fs)
    (toml : string -> option ConfigFile) :
  (forall cfg, load_config m hd fs toml = COk cfg -> validate_config m cfg = COk tt)
  /\ (forall e, load_config m hd fs toml = CErr e -> not_core e).
Proof.
  unfold load_config.
  destruct (config_path hd) as [path|e0] eqn:CP; cbn [cbind].
  2: { split; [discriminate | intros e H; injection H as <-].
       destruct hd; [discriminate | injection CP as <-; exact I]. }
  destruct (if TokenFile.fs_fails fs path then _ else _) as [c|e0] eqn:C; cbn [cbind].
  2: { split; [discriminate | intros e H; injection H as <-].
       destruct (TokenFile.fs_fails fs path); [injection C as <-; exact I|].
       destruct (TokenFile.files fs !! path) as [fe|]; [|injection C as <-; exact I].
       destruct (Bytes.read_to_string _); [discriminate | injection C as <-; exact I]. }
  destruct (toml c) as [cfg0|]; cbn [cbind].
  2: { split; [discriminate | intros e H; injection H as <-; exact I]. }
  destruct (validate_config m cfg0) as [[]|e0] eqn:V; cbn [cbind].
  - split; [intros cfg H; injection H as <-; exact V | discriminate].
  - split; [discriminate | intros e H; injection H as <-; exact (validate_config_err _ _ _ V)].
Qed.

(** [load_token_store]: the store it gives is one the platform has, and
    its errors are configuration errors. *)
Lemma load_store_facts (h : Host) :
  (forall ts, load_token_store h = COk ts ->
     ts = "file"%string \/ (ts = "keychain"%string /\ h_is_macos h = true))
  /\ (forall e, load_token_store h = CErr e -> not_core e).
Proof.
  unfold load_token_store.
  destruct (config_path (h_home_dir h)) as [path|e0] eqn:P; cbn [cbind].
  2: { split; [discriminate | intros e H; injection H as <-].
       destruct (h_home_dir h); [discriminate | injection P as <-; exact I]. }
  destruct (negb (TokenFile.path_exists (h_fs h) path)).
  - split; [|discriminate]. intros ts H. injection H as <-.
    unfold default_token_store. destruct (h_is_macos h); auto.
  - destruct (load_config_facts (h_is_macos h) (h_home_dir h) (h_fs h) (h_toml h)) as [Hok Herr].
    destruct (load_config _ _ _ _) as [cfg|e0] eqn:L; cbn [cbind].
    + split; [|discriminate]. intros ts H. injection H as <-.
      apply validated_store. apply Hok. reflexivity.
    + split; [discriminate | intros e H; injection H as <-; apply Herr; reflexivity].
Qed.

Lemma token_path_err (dd p : option string) (e : Error) :
  TokenFile.token_path dd p = Err e -> exists msg, e = StoreFailed msg.
Proof.
  unfold TokenFile.token_path, TokenFile.token_dir, TokenFile.profile_path.
  destruct dd as [d|]; cbn [rbind]; [|intros H; injection H as <-; eauto].
  destruct (TokenFile.validate_profile_name _) as [[]|e0] eqn:V; cbn [rbind]; [discriminate|].
  unfold TokenFile.validate_profile_name in V. cbv zeta in V.
  destruct (_ || _); [|discriminate]. injection V as <-. intros H. injection H as <-. eauto.
Qed.

Lemma store_token_err (h : Host) (ts : string) (p : option string) (tok : string) (s : string) :
  ts = "file"%string \/ ts = "keychain"%string ->
  store_token h ts p tok <> CErr (Core (InvalidTokenStore s)).
Proof.
  intros Hts. unfold store_token. destruct Hts as [-> | ->]; cbn -[TokenFile.set_token
    Keychain.set_token TokenFile.token_path].
  - destruct (TokenFile.set_token _ _ _ _) as [fs|e] eqn:S; cbn [cbind core].
    + destruct (TokenFile.token_path _ _) as [path|e] eqn:P; cbn [cbind core]; [discriminate|].
      apply token_path_err in P as [msg ->]. discriminate.
    + unfold TokenFile.set_token in S.
      destruct (TokenFile.token_path _ _) as [path|e0] eqn:P; cbn [rbind] in S.
      * unfold TokenFile.write_token in S. destruct (TokenFile.fs_fails _ _); [|discriminate].
        injection S as <-. discriminate.
      * injection S as <-. apply token_path_err in P as [msg ->]. discriminate.
  - unfold Keychain.set_token.
    destruct (h_is_macos h); [destruct (Keychain.kc_fails (h_keychain h))|]; discriminate.
Qed.

Lemma env_token_unset (env : Env) (b : TokenBackends) (ts : string) (p : option string) :
  non_empty_var env "SLAFLING_TOKEN" = None ->
  resolve_token env b ts p = from_backend b ts p.
Proof.
  unfold non_empty_var, resolve_token. destruct (env "SLAFLING_TOKEN") as [t|]; [|reflexivity].
  destruct (String.eqb_spec t ""); [reflexivity | discriminate].
Qed.

Lemma read_line_valid (bs : list Byte.byte) (line : string) :
  read_line bs = Some line -> Bytes.utf8_valid (map Bytes.bn (list_byte_of_string line)) = true.
Proof.
  unfold read_line, Bytes.read_to_string.
  destruct (Bytes.utf8_valid _) eqn:V; [|discriminate].
  intros H. injection H as <-. rewrite list_byte_of_string_of_list_byte. exact V.
Qed.

Lemma describe_agrees (env : Env) (m : bool) (kc : Keychain.Keychain) (dd : option string)
    (fs : TokenFile.Fs) (ts : string) (p : option string) :
  let r := resolve_token env (mkTokenBackends (Keychain.get_token m kc)
                                              (TokenFile.get_token dd fs)) ts p in
  (forall e, describe_token_source env m kc dd fs ts p = Err e <-> r = Err e)
  /\ forall src loc, describe_token_source env m kc dd fs ts p = Ok (src, loc) ->
       exists t, r = Ok t
       /\ ((src = "env"%string /\ loc = "SLAFLING_TOKEN"%string
            /\ env "SLAFLING_TOKEN" = Some t)
           \/ (src = "keychain"%string /\ ts = "keychain"%string
               /\ Keychain.get_token m kc p = Ok (Some t))
           \/ (src = "file"%string /\ ts = "file"%string
               /\ TokenFile.token_path dd p = Ok loc
               /\ TokenFile.get_token dd fs p = Ok (Some t))).
Proof.
  cbv zeta. unfold describe_token_source, resolve_token, from_backend.
  cbn [keychain_get_token file_get_token].
  assert (Hb :
    (forall e,
       (if String.eqb ts "keychain" then
          o <-? Keychain.get_token m kc p ;;
          match o with
          | Some _ => Ok ("keychain", "macOS Keychain")%string
          | None => Err TokenNotConfigured
          end
        else if String.eqb ts "file" then
          path <-? TokenFile.token_path dd p ;;
          o <-? TokenFile.get_token dd fs p ;;
          match o with
          | Some _ => Ok ("file"%string, path)
          | None => Err TokenNotConfigured
          end
        else Err (InvalidTokenStore ts)) = Err e
       <->
       (if String.eqb ts "keychain" then
          o <-? Keychain.get_token m kc p ;;
          match o with Some t => Ok t | None => Err TokenNotConfigured end
        else if String.eqb ts "file" then
          o <-? TokenFile.get_token dd fs p ;;
          match o with Some t => Ok t | None => Err TokenNotConfigured end
        else Err (InvalidTokenStore ts)) = Err e)
    /\ forall src loc,
       (if String.eqb ts "keychain" then
          o <-? Keychain.get_token m kc p ;;
          match o with
          | Some _ => Ok ("keychain", "macOS Keychain")%string
          | None => Err TokenNotConfigured
          end
        else if String.eqb ts "file" then
          path <-? TokenFile.token_path dd p ;;
          o <-? TokenFile.get_token dd fs p ;;
          match o with
          | Some _ => Ok ("file"%string, path)
          | None => Err TokenNotConfigured
          end
        else Err (InvalidTokenStore ts)) = Ok (src, loc) ->
       exists t,
       (if String.eqb ts "keychain" then
          o <-? Keychain.get_token m kc p ;;
          match o with Some t => Ok t | None => Err TokenNotConfigured end
        else if String.eqb ts "file" then
          o <-? TokenFile.get_token dd fs p ;;
          match o with Some t => Ok t | None => Err TokenNotConfigured end
        else Err (InvalidTokenStore ts)) = Ok t
       /\ ((src = "keychain"%string /\ ts = "keychain"%string
            /\ Keychain.get_token m kc p = Ok (Some t))
           \/ (src = "file"%string /\ ts = "file"%string
               /\ TokenFile.token_path dd p = Ok loc
               /\ TokenFile.get_token dd fs p = Ok (Some t)))).
  { destruct (String.eqb_spec ts "keychain") as [Ek|Ek].
    - destruct (Keychain.get_token m kc p) as [[t|]|e0] eqn:G; cbn [rbind];
        (split; [intros e; split; intros H; congruence|]);
        intros src loc H; try discriminate.
      injection H as <- <-. exists t. split; [reflexivity|]. left. auto.
    - destruct (String.eqb_spec ts "file") as [Ef|Ef].
      + destruct (TokenFile.token_path dd p) as [path|e0] eqn:P; cbn [rbind].
        * destruct (TokenFile.get_token dd fs p) as [[t|]|e1] eqn:G; cbn [rbind];
            (split; [intros e; split; intros H; congruence|]);
            intros src loc H; try discriminate.
          injection H as <- <-. exists t. split; [reflexivity|]. right. auto.
        * assert (G : TokenFile.get_token dd fs p = Err e0)
            by (unfold TokenFile.get_token; rewrite P; reflexivity).
          rewrite G. cbn [rbind].
          split; [intros e; split; intros H; congruence | discriminate].
      + split; [intros e; split; intros H; congruence | discriminate]. }
  destruct Hb as [Hb1 Hb2].
  destruct (env "SLAFLING_TOKEN") as [t|].
  - destruct (String.eqb_spec t "") as [Et|Et]; cbn [negb].
    + split; [exact Hb1|]. intros src loc H.
      destruct (Hb2 src loc H) as (t' & Ht' & Hc). exists t'. split; [exact Ht'|]. right. exact Hc.
    + split; [intros e; split; intros H; discriminate|].
      intros src loc H. injection H as <- <-. exists t. split; [reflexivity|]. left. auto.
  - split; [exact Hb1|]. intros src loc H.
    destruct (Hb2 src loc H) as (t' & Ht' & Hc). exists t'. split; [exact Ht'|]. right. exact Hc.
Qed.

(** X18: [token show] reports exactly what [resolve_token] would do:
    [describe_token_source] fails with the same error as
    [resolve_token], and when it names a source, [resolve_token] gives
    the token of that source (the environment variable, the Keychain
    entry, or the token file at the location shown). *)
Theorem describe_matches_resolve (env : Env) (m : bool) (kc : Keychain.Keychain)
    (dd : option string) (fs : TokenFile.Fs) (ts : string) (p : option string) :
  (forall e, describe_token_source env m kc dd fs ts p = Err e
             <-> resolve_token env (mkTokenBackends (Keychain.get_token m kc)
                                                    (TokenFile.get_token dd fs)) ts p = Err e)
  /\ forall src loc, describe_token_source env m kc dd fs ts p = Ok (src, loc) ->
       exists t, resolve_token env (mkTokenBackends (Keychain.get_token m kc)
                                                    (TokenFile.get_token dd fs)) ts p = Ok t
       /\ ((src = "env"%string /\ loc = "SLAFLING_TOKEN"%string
            /\ env "SLAFLING_TOKEN" = Some t)
           \/ (src = "keychain"%string /\ ts = "keychain"%string
               /\ Keychain.get_token m kc p = Ok (Some t))
           \/ (src = "file"%string /\ ts = "file"%string
               /\ TokenFile.token_path dd p = Ok loc
               /\ TokenFile.get_token dd fs p = Ok (Some t))).
Proof. exact (describe_agrees env m kc dd fs ts p). Qed.

(** X19: after a successful [token set], with SLAFLING_TOKEN unset or
    empty, [resolve_token] on the updated host with the same token
    store and profile gives the line typed at the prompt, trimmed (and
    that is never empty). *)
Theorem token_set_then_resolve (h h' : Host) (p : option string) :
  run_token_set h p = COk h' ->
  non_empty_var (h_env h) "SLAFLING_TOKEN" = None ->
  exists line ts, read_line (h_stdin h) = Some line
    /\ load_token_store h = COk ts
    /\ Bytes.trim line <> ""%string
    /\ resolve_token (h_env h') (backends_of h') ts p = Ok (Bytes.trim line).
Proof.
  unfold run_token_set.
  destruct (h_stdin_is_terminal h); cbn [negb]; [|discriminate].
  destruct (h_stderr_flush_ok h); cbn [negb]; [|discriminate].
  destruct (h_stdin_read_ok h); cbv iota; [|discriminate].
  destruct (read_line (h_stdin h)) as [line|] eqn:RL; [|discriminate]. cbv zeta.
  destruct (String.eqb_spec (Bytes.trim line) "") as [E|E]; [discriminate|].
  destruct (load_token_store h) as [ts|e] eqn:L; cbn [cbind]; [|discriminate].
  intros S Henv. exists line, ts. split; [reflexivity|]. split; [reflexivity|]. split; [exact E|].
  assert (HV := trim_valid _ (read_line_valid _ _ RL)).
  unfold store_token in S.
  destruct (String.eqb_spec ts "keychain") as [->|Ek].
  - destruct (Keychain.set_token (h_is_macos h) (h_keychain h) p (Bytes.trim line))
      as [kc'|e] eqn:KS; cbn [cbind core] in S; [|discriminate].
    injection S as <-.
    destruct (keychain_facts (h_is_macos h) (h_keychain h) p (Bytes.trim line)) as [Hs _].
    destruct (Hs kc' KS) as (_ & Hg & _).
    rewrite env_token_unset by exact Henv. unfold from_backend, backends_of. cbn.
    rewrite Hg. reflexivity.
  - destruct (String.eqb_spec ts "file") as [->|Ef]; [|discriminate].
    destruct (TokenFile.set_token (h_data_dir h) (h_fs h) p (Bytes.trim line))
      as [fs'|e] eqn:FS; cbn [cbind core] in S; [|discriminate].
    destruct (TokenFile.token_path (h_data_dir h) p) as [path|e] eqn:P;
      cbn [cbind core] in S; [|discriminate].
    injection S as <-.
    destruct (file_set_facts _ _ _ _ _ _ HV P FS) as (Hg & _ & _).
    rewrite trim_idem in Hg. destruct (String.eqb_spec (Bytes.trim line) "") as [E'|_];
      [contradiction|].
    rewrite env_token_unset by exact Henv. unfold from_backend, backends_of. cbn.
    rewrite Hg. reflexivity.
Qed.

(** X20: after a successful [token delete], with SLAFLING_TOKEN unset or
    empty, [resolve_token] on the updated host with the same token store
    and profile fails with "token is not configured". *)
Theorem token_delete_then_absent (h h' : Host) (p : option string) :
  run_token_delete h p = COk h' ->
  non_empty_var (h_env h) "SLAFLING_TOKEN" = None ->
  exists ts, load_token_store h = COk ts
    /\ resolve_token (h_env h') (backends_of h') ts p = Err TokenNotConfigured.
Proof.
  unfold run_token_delete.
  destruct (load_token_store h) as [ts|e] eqn:L; cbn [cbind]; [|discriminate].
  intros S Henv. exists ts. split; [reflexivity|].
  destruct (String.eqb_spec ts "keychain") as [->|Ek].
  - destruct (Keychain.get_token (h_is_macos h) (h_keychain h) p) as [[t|]|e]; cbn [cbind core] in S;
      try discriminate.
    destruct (Keychain.delete_token (h_is_macos h) (h_keychain h) p) as [kc'|e] eqn:KD;
      cbn [cbind core] in S; [|discriminate].
    injection S as <-.
    destruct (keychain_facts (h_is_macos h) (h_keychain h) p ""%string) as [_ Hd].
    destruct (Hd kc' KD) as (_ & Hg & _).
    rewrite env_token_unset by exact Henv. unfold from_backend, backends_of. cbn.
    rewrite Hg. reflexivity.
  - destruct (String.eqb_spec ts "file") as [->|Ef]; [|discriminate].
    destruct (TokenFile.token_path (h_data_dir h) p) as [path|e] eqn:P;
      cbn [cbind core] in S; [|discriminate].
    destruct (negb (TokenFile.path_exists (h_fs h) path)); [discriminate|].
    destruct (TokenFile.delete_token (h_data_dir h) (h_fs h) p) as [fs'|e] eqn:FD;
      cbn [cbind core] in S; [|discriminate].
    injection S as <-.
    destruct (file_delete_facts _ _ _ _ _ P FD) as (Hg & _).
    rewrite env_token_unset by exact Henv. unfold from_backend, backends_of. cbn.
    rewrite Hg. reflexivity.
Qed.

(** X22: the token commands never fail with "invalid token_store": the
    store [load_token_store] gives is the token file or, on macOS only,
    the Keychain, and neither [token set], [token delete] nor
    [token show] ends in that error. *)
Theorem token_commands_store_valid (h : Host) (p : option string) (s : string) :
  (forall ts, load_token_store h = COk ts ->
     ts = "file"%string \/ (ts = "keychain"%string /\ h_is_macos h = true))
  /\ run_token_set h p <> CErr (Core (InvalidTokenStore s))
  /\ run_token_delete h p <> CErr (Core (InvalidTokenStore s))
  /\ run_token_show h p <> COk (NotConfigured (InvalidTokenStore s)).
Proof.
  destruct (load_store_facts h) as [Hok Herr].
  split; [exact Hok|].
  assert (Hts : forall ts, load_token_store h = COk ts -> ts = "file"%string \/ ts = "keychain"%string)
    by (intros ts H; destruct (Hok ts H) as [|[]]; auto).
  split; [|split].
  - unfold run_token_set.
    destruct (h_stdin_is_terminal h); cbn [negb]; [|discriminate].
    destruct (h_stderr_flush_ok h); cbn [negb]; [|discriminate].
    destruct (h_stdin_read_ok h); cbv iota; [|discriminate].
    destruct (read_line (h_stdin h)) as [line|]; [|discriminate]. cbv zeta.
    destruct (String.eqb _ _); [discriminate|].
    destruct (load_token_store h) as [ts|e] eqn:L; cbn [cbind].
    + apply store_token_err. apply Hts. reflexivity.
    + intros H. injection H as ->. exact (Herr _ eq_refl).
  - unfold run_token_delete.
    destruct (load_token_store h) as [ts|e] eqn:L; cbn [cbind].
    2: { intros H. injection H as ->. exact (Herr _ eq_refl). }
    destruct (Hts ts eq_refl) as [-> | ->]; cbn [String.eqb Ascii.eqb Bool.eqb andb].
    + destruct (TokenFile.token_path (h_data_dir h) p) as [path|e] eqn:P; cbn [core cbind].
      2: { apply token_path_err in P as [msg ->]. discriminate. }
      destruct (negb _); [discriminate|].
      destruct (TokenFile.delete_token (h_data_dir h) (h_fs h) p) as [fs'|e] eqn:D;
        cbn [core cbind]; [discriminate|].
      unfold TokenFile.delete_token in D. rewrite P in D. cbn [rbind] in D.
      unfold TokenFile.remove_token in D. destruct (TokenFile.fs_fails _ _); [|discriminate].
      injection D as <-. discriminate.
    + destruct (Keychain.get_token (h_is_macos h) (h_keychain h) p) as [[t|]|e] eqn:G;
        cbn [core cbind]; [| discriminate |].
      * unfold Keychain.delete_token.
        destruct (h_is_macos h); [destruct (Keychain.kc_fails (h_keychain h))|]; discriminate.
      * apply kc_get_err in G as [msg ->]. discriminate.
  - unfold run_token_show.
    destruct (load_token_store h) as [ts|e] eqn:L; cbn [cbind]; [|discriminate].
    destruct (describe_token_source _ _ _ _ _ ts p) as [[src loc]|e] eqn:D; [discriminate|].
    intros H. injection H as ->.
    apply (describe_agrees (h_env h) (h_is_macos h) (h_keychain h) (h_data_dir h) (h_fs h) ts p)
      in D.
    revert D. apply resolve_token_store_ok. apply Hts. reflexivity.
Qed.

End TokenCommandFacts.

(* ------------------------------------------------------------------ *)
(** * Concrete instances of the settings and token-store statements    *)
(* ------------------------------------------------------------------ *)

Module ExtraWitness.
Import Config Slack Main Cmd Settings Cli Commands HostFixtures.

Definition headless_env : Env :=
  Fixtures.env_of [("SLAFLING_TOKEN", "xoxb-1"); ("SLAFLING_CHANNEL", "C1");
                   ("SLAFLING_CONFIRM", ""); ("SLAFLING_SEARCH_TYPES", "im, mpim")]%string.

Definition quiet_world : World := mkWorld false [] true (fun _ => None) true.

Definition cfg_json : ConfigFile :=
  mkConfigFile (mkDefaultConfig None None None (Some "json"%string) None None) ∅.

Definition default_token_path : string := "/home/u/.local/share/slafling/tokens/default".

Lemma validated_store_usable_witness :
  validate_config false Fixtures.cfg_general = COk tt
  /\ resolve_token_store false Fixtures.cfg_general = "file"%string.
Proof.
  assert (H : validate_config false Fixtures.cfg_general = COk tt) by (vm_compute; reflexivity).
  split; [exact H|].
  destruct (SettingsFacts.validated_store_usable false _ H) as [[E | [_ E]] _];
    [exact E | discriminate].
Defined.

Lemma headless_empty_is_unset_witness :
  headless_env "SLAFLING_CONFIRM" = Some ""%string
  /\ resolve_from_env (SettingsFacts.unset headless_env "SLAFLING_CONFIRM")
     = resolve_from_env headless_env.
Proof.
  assert (H : headless_env "SLAFLING_CONFIRM" = Some ""%string) by reflexivity.
  split; [exact H|].
  exact (proj1 (SettingsFacts.headless_empty_is_unset headless_env _ H)).
Defined.

Lemma headless_confirm_only_env_witness :
  (forall v, non_empty_var headless_env "SLAFLING_CONFIRM" = Some v -> is_truthy v = false)
  /\ run_headless_send headless_env quiet_world Fixtures.net_ok
       (mkSendArgs (Some "hi"%string) None "stdin" false)
     = run_headless_send headless_env quiet_world Fixtures.net_ok
         (mkSendArgs (Some "hi"%string) None "stdin" true).
Proof.
  assert (H : forall v, non_empty_var headless_env "SLAFLING_CONFIRM" = Some v ->
                        is_truthy v = false)
    by (intros v Hv; vm_compute in Hv; discriminate).
  split; [exact H|].
  exact (SettingsFacts.headless_confirm_only_env headless_env quiet_world Fixtures.net_ok
           (mkSendArgs (Some "hi"%string) None "stdin" false) H).
Defined.

Lemma headless_search_types_valid_witness :
  headless_search_types headless_env None = COk "im, mpim"%string
  /\ validate_search_types_str "im, mpim" = COk tt.
Proof.
  assert (H : headless_search_types headless_env None = COk "im, mpim"%string)
    by (vm_compute; reflexivity).
  split; [exact H|].
  exact (SettingsFacts.headless_search_types_valid headless_env None _
           ltac:(discriminate) H).
Defined.

Lemma unknown_profile_fallback_witness :
  profiles Fixtures.cfg_general !! "dev"%string = None
  /\ layer Fixtures.cfg_general (Some "dev"%string) = Err (ProfileNotFound "dev").
Proof.
  assert (H : profiles Fixtures.cfg_general !! "dev"%string = None) by (vm_compute; reflexivity).
  split; [exact H|].
  exact (proj2 (proj2 (SettingsFacts.unknown_profile_fallback (Fixtures.env_of []) _ _ H))).
Defined.

Lemma output_env_overrides_witness :
  Fixtures.env_of [("SLAFLING_OUTPUT", "")]%string "SLAFLING_OUTPUT" = Some ""%string
  /\ resolve_output_format (Fixtures.env_of [("SLAFLING_OUTPUT", "")]%string) true None
                           cfg_json None = Table.
Proof.
  assert (H : Fixtures.env_of [("SLAFLING_OUTPUT", "")]%string "SLAFLING_OUTPUT"
              = Some ""%string) by reflexivity.
  split; [exact H|].
  exact (proj2 (SettingsFacts.output_env_overrides _ true None cfg_json None _ H)
               eq_refl).
Defined.

Lemma headless_format_agrees_witness :
  d_output (default Fixtures.cfg_general) = None
  /\ resolve_output_format (Fixtures.env_of []) false None Fixtures.cfg_general
                           (Some "ops"%string)
     = resolve_output_format_headless (Fixtures.env_of []) false None.
Proof.
  assert (H : d_output (default Fixtures.cfg_general) = None) by reflexivity.
  split; [exact H|].
  apply (SettingsFacts.headless_format_agrees _ false None _ _ H).
  unfold Fixtures.cfg_general. cbn [profiles]. apply map_Forall_singleton. reflexivity.
Defined.

Lemma token_path_injective_witness :
  TokenFile.token_path (Some data_home) None = Ok default_token_path
  /\ TokenFile.token_path (Some data_home) (Some "default"%string) = Ok default_token_path
  /\ TokenFile.unwrap_or None "default" = TokenFile.unwrap_or (Some "default"%string) "default".
Proof.
  assert (H1 : TokenFile.token_path (Some data_home) None = Ok default_token_path)
    by (vm_compute; reflexivity).
  assert (H2 : TokenFile.token_path (Some data_home) (Some "default"%string)
               = Ok default_token_path) by (vm_compute; reflexivity).
  split; [exact H1 | split; [exact H2|]].
  exact (TokenStoreFacts.token_path_injective _ _ _ _ H1 H2).
Defined.

Lemma get_token_trimmed_witness :
  TokenFile.get_token (Some data_home) token_fs None = Ok (Some "xoxb-7"%string)
  /\ Bytes.trim "xoxb-7" = "xoxb-7"%string.
Proof.
  assert (H : TokenFile.get_token (Some data_home) token_fs None = Ok (Some "xoxb-7"%string))
    by (vm_compute; reflexivity).
  split; [exact H|].
  exact (proj2 (TokenStoreFacts.get_token_trimmed _ _ _ _ H)).
Defined.

Lemma file_set_get_witness :
  exists fs', TokenFile.set_token (Some data_home) fs_empty None " xoxb-8 " = Ok fs'
  /\ TokenFile.get_token (Some data_home) fs' None = Ok (Some "xoxb-8"%string).
Proof.
  pose (fs1 := match TokenFile.set_token (Some data_home) fs_empty None " xoxb-8 " with
               | Ok f => f | Err _ => fs_empty end).
  assert (HS : TokenFile.set_token (Some data_home) fs_empty None " xoxb-8 " = Ok fs1)
    by (vm_compute; reflexivity).
  exists fs1. split; [exact HS|].
  assert (HV : Bytes.utf8_valid (map Bytes.bn (list_byte_of_string " xoxb-8 ")) = true)
    by reflexivity.
  assert (HP : TokenFile.token_path (Some data_home) None = Ok default_token_path)
    by (vm_compute; reflexivity).
  destruct (TokenStoreFacts.file_set_get _ _ _ _ _ _ HV HP HS) as [Hg _].
  rewrite Hg. vm_compute. reflexivity.
Defined.

Lemma file_delete_get_witness :
  exists fs', TokenFile.delete_token (Some data_home) token_fs None = Ok fs'
  /\ TokenFile.get_token (Some data_home) fs' None = Ok None.
Proof.
  pose (fs1 := match TokenFile.delete_token (Some data_home) token_fs None with
               | Ok f => f | Err _ => token_fs end).
  assert (HD : TokenFile.delete_token (Some data_home) token_fs None = Ok fs1)
    by (vm_compute; reflexivity).
  exists fs1. split; [exact HD|].
  assert (HP : TokenFile.token_path (Some data_home) None = Ok default_token_path)
    by (vm_compute; reflexivity).
  exact (proj1 (TokenStoreFacts.file_delete_get _ _ _ _ _ HP HD)).
Defined.

Lemma token_set_then_resolve_witness :
  exists h', run_token_set linux_host None = COk h'
  /\ resolve_token (h_env h') (backends_of h') "file" None = Ok "xoxb-9"%string.
Proof.
  pose (h1 := match run_token_set linux_host None with COk h => h | CErr _ => linux_host end).
  assert (HS : run_token_set linux_host None = COk h1) by (vm_compute; reflexivity).
  exists h1. split; [exact HS|].
  destruct (TokenCommandFacts.token_set_then_resolve linux_host _ None HS
              ltac:(vm_compute; reflexivity))
    as (line & ts & Hl & Hts & _ & Hr).
  vm_compute in Hl. injection Hl as <-. vm_compute in Hts. injection Hts as <-.
  rewrite Hr. vm_compute. reflexivity.
Defined.

Lemma token_delete_then_absent_witness :
  exists h', run_token_delete stored_host None = COk h'
  /\ resolve_token (h_env h') (backends_of h') "file" None = Err TokenNotConfigured.
Proof.
  pose (h1 := match run_token_delete stored_host None with COk h => h | CErr _ => stored_host end).
  assert (HD : run_token_delete stored_host None = COk h1) by (vm_compute; reflexivity).
  exists h1. split; [exact HD|].
  destruct (TokenCommandFacts.token_delete_then_absent stored_host _ None HD
              ltac:(vm_compute; reflexivity))
    as (ts & Hts & Hr).
  vm_compute in Hts. injection Hts as <-. exact Hr.
Defined.

End ExtraWitness.
